(** * PixelSocket: a WebSocket client collecting image streams

    A shallow embedding of the two [PixelSocket] classes of the repository
    (the older JSON/base64 class and the newer Zstandard+MessagePack class)
    and of the slice of the JavaScript runtime they drive: WebSocket
    objects, timers, the file system, the clock and the object heap.

    Conventions of the embedding.
    - A method is a function in the monad [M] of state and exceptions over
      the record [world]; [try ... catch] is [try_catch].
    - Everything the class does to the outside (callbacks, console, socket,
      timers, files) is appended to [trace], each entry paired with the
      statistics an observer would read through [getStats] at that moment.
    - JavaScript numbers are mathematical integers ([Z]); fractions, NaN and
      the loss of precision above 2^53 are outside the embedding. Where the
      code does arithmetic on a decoded value, the value is a [numeric]: a
      number or a [BigInt].
    - Each handler runs to completion: the suspension points of the [async]
      methods are not interleaved with other events. What is stated of a
      method or handler is stated of that one execution, from the state it
      starts in.
    - The caller's callbacks are opaque: they are recorded and do not call
      back into the instance. *)

From Stdlib Require Import ZArith Lia.
From Stdlib.Strings Require Import Byte.
From stdpp Require Import gmap strings list fin_maps pretty.

Local Open Scope Z_scope.

(** ** Values of the runtime *)

Abbreviation bytes := (list byte) (only parsing).
Abbreviation sock_id := nat (only parsing).
Abbreviation timer_id := nat (only parsing).
Abbreviation loc := nat (only parsing).

(** What a [throw] carries: an [Error] with its message, or any other
    value ([error instanceof Error] tells them apart). *)
Inductive thrown :=
| IsError (message : string)
| NotError.

Inductive result (A : Type) :=
| Ok (a : A)
| Throw (t : thrown).
Arguments Ok {A} a.
Arguments Throw {A} t.

(** [error instanceof Error ? error : new Error(fallback)], as the message
    of the resulting [Error]. *)
Definition orError (fallback : string) (error : thrown) : string :=
  match error with
  | IsError m => m
  | NotError => fallback
  end.

(** [WebSocket.readyState] *)
Inductive readyState :=
| CONNECTING
| OPEN
| CLOSING
| CLOSED.

(** [event.data] of a message event, and the argument of [send]. *)
Inductive frame :=
| Binary (data : bytes)
| Text (data : string).

(** The double quote character, for the JSON texts the client sends. *)
Definition dq : string := String (Ascii.ascii_of_nat 34) EmptyString.

(** [JSON.stringify({ type: 'subscribe', mode: 'all' })] *)
Definition subscribeMessage : string :=
  "{" +:+ dq +:+ "type" +:+ dq +:+ ":" +:+ dq +:+ "subscribe" +:+ dq +:+ ","
      +:+ dq +:+ "mode" +:+ dq +:+ ":" +:+ dq +:+ "all" +:+ dq +:+ "}".

(** [JSON.stringify({ type: 'ping' })] *)
Definition pingMessage : string :=
  "{" +:+ dq +:+ "type" +:+ dq +:+ ":" +:+ dq +:+ "ping" +:+ dq +:+ "}".

(** ** types.ts *)

(** [Required<PixelSocketOptions>] as stored in [this.options]; the callbacks
    are opaque and appear as effects. [saveDirectory] may hold [undefined]. *)
Record Options := {
  url : string;
  saveDirectory : option string;
  autoReconnect : bool;
  reconnectDelay : Z;
  maxReconnectAttempts : Z
}.

(** [PixelSocketOptions] as the caller passes it: every key but [url] may be
    missing ([None]); the key [saveDirectory] may also be present and hold
    [undefined] ([Some None]). The three keys of the reconnect policy are
    taken at their declared types: a caller that writes [undefined] for one
    of them is outside the embedding. *)
Record PixelSocketOptions := {
  opt_url : string;
  opt_saveDirectory : option (option string);
  opt_autoReconnect : option bool;
  opt_reconnectDelay : option Z;
  opt_maxReconnectAttempts : option Z
}.

(** [ConnectionStats]; [connectedAt] is a reference to a [Date] object. *)
Record ConnectionStats := {
  imagesReceived : Z;
  bytesReceived : Z;
  connectedAt : option loc;
  isConnected : bool;
  reconnectAttempts : Z
}.

(** An integer as [msgpackDecode] returns it under [useBigInt64: true]: one
    that arrives in a 64-bit format of the wire is a [BigInt], any other is
    a number. *)
Inductive numeric :=
| Number (n : Z)
| BigInt (n : Z).

(** [NotificationFromPixelSocket], as the decoder fills it; the values of
    [promptParams] are opaque. [imageLength] is added to a counter, so its
    kind matters; [timestamp] is only tested for zero and printed, which
    reads the same for both kinds. *)
Record NotificationFromPixelSocket := {
  jobId : string;
  blobData : option bytes;
  imageLength : numeric;
  fileExtension : string;
  mimeType : string;
  objectUrl : option string;
  secretToken : string;
  timestamp : Z;
  promptParams : option (list (string * string))
}.

(** What the [timestamp] key of a metadata record holds: a [Date] with its
    epoch time, as the handler of image-generated messages builds it, or a
    value without a [getTime] method, which is all a JSON text can give (a
    number or a string; [null] differs only in the wording of the error). *)
Inductive timestamp_value :=
| IsDate (time : Z)
| NotDate.

(** Modelled from the spec: the declaration of [ImageMetadata] is missing
    from the sources; the record keeps the fields the older class reads,
    "a metadata record {timestamp, format, mime type, optional
    filename/width/height ...}". As [Partial<ImageMetadata>] every field may
    be missing. *)
Record ImageMetadata := {
  meta_timestamp : option timestamp_value;
  meta_format : option string;
  meta_mimeType : option string;
  meta_filename : option string;
  meta_width : option Z;
  meta_height : option Z
}.

(** ** Effects *)

Inductive effect :=
| ConsoleLog (msg : string)
| ConsoleWarn (msg : string)
| ConsoleError (msg : string)
| NewWebSocket (s : sock_id) (address : string)
| SocketSend (s : sock_id) (data : frame)
| SocketClose (s : sock_id)
| SetTimeout (t : timer_id) (ms : Z)
| ClearTimeout (t : timer_id)
| SetInterval (t : timer_id) (ms : Z)
| ClearInterval (t : timer_id)
| Mkdir (dir : string) (ok : bool)
| WriteFile (path : string) (data : bytes) (ok : bool)
| OnConnect
| OnDisconnect (code : Z) (reason : string)
| OnError (message : string)
| OnImage (data : bytes) (metadata : ImageMetadata)
| OnImageReceived (payload : NotificationFromPixelSocket)
| Escaped (t : thrown).

(** ** The world: the instance and the runtime around it *)

Inductive object :=
| ObjStats (s : ConnectionStats)
| ObjDate (time : Z).

Inductive timer_callback :=
| ReconnectCallback
| PingCallback.

Record timer := {
  repeating : bool;
  delay : Z;
  callback : timer_callback
}.

(** What the environment decides: whether the next call of each kind
    throws. *)
Record Faults := {
  ctor_throws : bool;
  send_throws : bool;
  mkdir_throws : bool;
  writeFile_throws : bool;
  zstdInit_throws : bool
}.

Definition no_faults : Faults :=
  {| ctor_throws := false; send_throws := false; mkdir_throws := false;
     writeFile_throws := false; zstdInit_throws := false |}.

(** The private fields of a [PixelSocket]. [stats] is the address of the
    statistics object. The older class has no [zstdInitialized] field and
    never touches it. *)
Record instance := {
  socket : option sock_id;
  options : Options;
  stats : loc;
  reconnectTimeout : option timer_id;
  pingTimeout : option timer_id;
  shouldReconnect : bool;
  zstdInitialized : bool
}.

Record runtime := {
  heap : gmap loc object;
  sockets : gmap sock_id readyState;
  timers : gmap timer_id timer;
  next_id : nat;
  clock : Z;
  faults : Faults;
  trace : list (effect * ConnectionStats);
  snapshots : list loc  (* ghost: the references [getStats] handed out *)
}.

Record world := {
  this : instance;
  rt : runtime
}.

Definition empty_stats : ConnectionStats :=
  {| imagesReceived := 0; bytesReceived := 0; connectedAt := None;
     isConnected := false; reconnectAttempts := 0 |}.

(** [this.stats], read through the heap. *)
Definition the_stats (w : world) : ConnectionStats :=
  match heap (rt w) !! stats (this w) with
  | Some (ObjStats s) => s
  | _ => empty_stats
  end.

(** *** Field updates *)

Definition with_this (f : instance -> instance) (w : world) : world :=
  {| this := f (this w); rt := rt w |}.

Definition with_rt (f : runtime -> runtime) (w : world) : world :=
  {| this := this w; rt := f (rt w) |}.

Definition set_socket (v : option sock_id) (i : instance) : instance :=
  {| socket := v; options := options i; stats := stats i;
     reconnectTimeout := reconnectTimeout i; pingTimeout := pingTimeout i;
     shouldReconnect := shouldReconnect i;
     zstdInitialized := zstdInitialized i |}.

Definition set_reconnectTimeout (v : option timer_id) (i : instance) : instance :=
  {| socket := socket i; options := options i; stats := stats i;
     reconnectTimeout := v; pingTimeout := pingTimeout i;
     shouldReconnect := shouldReconnect i;
     zstdInitialized := zstdInitialized i |}.

Definition set_pingTimeout (v : option timer_id) (i : instance) : instance :=
  {| socket := socket i; options := options i; stats := stats i;
     reconnectTimeout := reconnectTimeout i; pingTimeout := v;
     shouldReconnect := shouldReconnect i;
     zstdInitialized := zstdInitialized i |}.

Definition set_shouldReconnect (v : bool) (i : instance) : instance :=
  {| socket := socket i; options := options i; stats := stats i;
     reconnectTimeout := reconnectTimeout i; pingTimeout := pingTimeout i;
     shouldReconnect := v;
     zstdInitialized := zstdInitialized i |}.

Definition set_zstdInitialized (v : bool) (i : instance) : instance :=
  {| socket := socket i; options := options i; stats := stats i;
     reconnectTimeout := reconnectTimeout i; pingTimeout := pingTimeout i;
     shouldReconnect := shouldReconnect i;
     zstdInitialized := v |}.

Definition set_heap (v : gmap loc object) (r : runtime) : runtime :=
  {| heap := v; sockets := sockets r; timers := timers r;
     next_id := next_id r; clock := clock r; faults := faults r;
     trace := trace r; snapshots := snapshots r |}.

Definition set_sockets (v : gmap sock_id readyState) (r : runtime) : runtime :=
  {| heap := heap r; sockets := v; timers := timers r;
     next_id := next_id r; clock := clock r; faults := faults r;
     trace := trace r; snapshots := snapshots r |}.

Definition set_timers (v : gmap timer_id timer) (r : runtime) : runtime :=
  {| heap := heap r; sockets := sockets r; timers := v;
     next_id := next_id r; clock := clock r; faults := faults r;
     trace := trace r; snapshots := snapshots r |}.

Definition set_next_id (v : nat) (r : runtime) : runtime :=
  {| heap := heap r; sockets := sockets r; timers := timers r;
     next_id := v; clock := clock r; faults := faults r;
     trace := trace r; snapshots := snapshots r |}.

Definition set_clock (v : Z) (r : runtime) : runtime :=
  {| heap := heap r; sockets := sockets r; timers := timers r;
     next_id := next_id r; clock := v; faults := faults r;
     trace := trace r; snapshots := snapshots r |}.

Definition set_faults (v : Faults) (r : runtime) : runtime :=
  {| heap := heap r; sockets := sockets r; timers := timers r;
     next_id := next_id r; clock := clock r; faults := v;
     trace := trace r; snapshots := snapshots r |}.

Definition set_trace (v : list (effect * ConnectionStats)) (r : runtime) : runtime :=
  {| heap := heap r; sockets := sockets r; timers := timers r;
     next_id := next_id r; clock := clock r; faults := faults r;
     trace := v; snapshots := snapshots r |}.

Definition set_snapshots (v : list loc) (r : runtime) : runtime :=
  {| heap := heap r; sockets := sockets r; timers := timers r;
     next_id := next_id r; clock := clock r; faults := faults r;
     trace := trace r; snapshots := v |}.

Definition set_imagesReceived (v : Z) (s : ConnectionStats) : ConnectionStats :=
  {| imagesReceived := v; bytesReceived := bytesReceived s;
     connectedAt := connectedAt s; isConnected := isConnected s;
     reconnectAttempts := reconnectAttempts s |}.

Definition set_bytesReceived (v : Z) (s : ConnectionStats) : ConnectionStats :=
  {| imagesReceived := imagesReceived s; bytesReceived := v;
     connectedAt := connectedAt s; isConnected := isConnected s;
     reconnectAttempts := reconnectAttempts s |}.

Definition set_connectedAt (v : option loc) (s : ConnectionStats) : ConnectionStats :=
  {| imagesReceived := imagesReceived s; bytesReceived := bytesReceived s;
     connectedAt := v; isConnected := isConnected s;
     reconnectAttempts := reconnectAttempts s |}.

Definition set_isConnected (v : bool) (s : ConnectionStats) : ConnectionStats :=
  {| imagesReceived := imagesReceived s; bytesReceived := bytesReceived s;
     connectedAt := connectedAt s; isConnected := v;
     reconnectAttempts := reconnectAttempts s |}.

Definition set_reconnectAttempts (v : Z) (s : ConnectionStats) : ConnectionStats :=
  {| imagesReceived := imagesReceived s; bytesReceived := bytesReceived s;
     connectedAt := connectedAt s; isConnected := isConnected s;
     reconnectAttempts := v |}.

(** ** The monad of methods *)

Definition M (A : Type) : Type := world -> result A * world.

Definition ret {A} (a : A) : M A := fun w => (Ok a, w).

Definition bind {A B} (m : M A) (k : A -> M B) : M B :=
  fun w =>
    match m w with
    | (Ok a, w') => k a w'
    | (Throw t, w') => (Throw t, w')
    end.

Definition throw {A} (t : thrown) : M A := fun w => (Throw t, w).

(** [try { m } catch (error) { h error }]: the state changes made before
    the throw are kept. *)
Definition try_catch {A} (m : M A) (h : thrown -> M A) : M A :=
  fun w =>
    match m w with
    | (Ok a, w') => (Ok a, w')
    | (Throw t, w') => h t w'
    end.

Definition get {A} (f : world -> A) : M A := fun w => (Ok (f w), w).

Definition modify (f : world -> world) : M unit := fun w => (Ok tt, f w).

Notation "'do' x <- m 'in' k" := (bind m (fun x => k))
  (at level 10, x name, m at level 100, k at level 200,
   format "'[v' 'do'  x  <-  m  'in' '/' k ']'").
Notation "m >> k" := (bind m (fun _ => k))
  (at level 61, left associativity).

(** ** Primitives of the runtime *)

(** An observable action, recorded with the statistics of that moment. *)
Definition emit (e : effect) : M unit :=
  modify (fun w => with_rt (set_trace (trace (rt w) ++ [(e, the_stats w)])) w).

Definition fresh : M nat :=
  fun w => (Ok (next_id (rt w)), with_rt (set_next_id (S (next_id (rt w)))) w).

(** [this.stats.f = ...] *)
Definition update_stats (f : ConnectionStats -> ConnectionStats) : M unit :=
  modify (fun w =>
    with_rt (set_heap (<[stats (this w) := ObjStats (f (the_stats w))]> (heap (rt w)))) w).

(** [Date.now()] *)
Definition Date_now : M Z := get (fun w => clock (rt w)).

(** [new Date()] *)
Definition new_Date : M loc :=
  do l <- fresh in
  do now <- Date_now in
  modify (with_rt (fun r => set_heap (<[l := ObjDate now]> (heap r)) r)) >>
  ret l.

(** [new WebSocket(url)]: throws on a malformed address, otherwise a new
    socket in state CONNECTING. *)
Definition new_WebSocket (address : string) : M sock_id :=
  do f <- get (fun w => ctor_throws (faults (rt w))) in
  if f then throw (IsError "Invalid URL")
  else
    do s <- fresh in
    modify (with_rt (fun r => set_sockets (<[s := CONNECTING]> (sockets r)) r)) >>
    emit (NewWebSocket s address) >>
    ret s.

Definition socket_readyState (s : sock_id) : M readyState :=
  get (fun w => default CLOSED (sockets (rt w) !! s)).

(** [socket.send(data)]: throws while CONNECTING, transmits while OPEN
    (unless the environment makes it fail), drops the data otherwise. *)
Definition socket_send (s : sock_id) (data : frame) : M unit :=
  do st <- socket_readyState s in
  match st with
  | CONNECTING => throw (IsError "readyState not OPEN")
  | OPEN =>
      do f <- get (fun w => send_throws (faults (rt w))) in
      if f then throw (IsError "send failed")
      else emit (SocketSend s data)
  | _ => ret tt
  end.

(** [socket.close()]: starts the closing handshake unless it already
    started or ended. *)
Definition socket_close (s : sock_id) : M unit :=
  do st <- socket_readyState s in
  emit (SocketClose s) >>
  match st with
  | CONNECTING | OPEN =>
      modify (with_rt (fun r => set_sockets (<[s := CLOSING]> (sockets r)) r))
  | _ => ret tt
  end.

Definition arm (rep : bool) (cb : timer_callback) (ms : Z) : M timer_id :=
  do t <- fresh in
  modify (with_rt (fun r =>
    set_timers (<[t := {| repeating := rep; delay := ms; callback := cb |}]> (timers r)) r)) >>
  ret t.

Definition setTimeout (cb : timer_callback) (ms : Z) : M timer_id :=
  do t <- arm false cb ms in
  emit (SetTimeout t ms) >>
  ret t.

Definition setInterval (cb : timer_callback) (ms : Z) : M timer_id :=
  do t <- arm true cb ms in
  emit (SetInterval t ms) >>
  ret t.

Definition clearTimeout (t : timer_id) : M unit :=
  modify (with_rt (fun r => set_timers (delete t (timers r)) r)) >>
  emit (ClearTimeout t).

Definition clearInterval (t : timer_id) : M unit :=
  modify (with_rt (fun r => set_timers (delete t (timers r)) r)) >>
  emit (ClearInterval t).

(** [Deno.mkdir(dir, { recursive: true })] *)
Definition Deno_mkdir (dir : string) : M unit :=
  do f <- get (fun w => mkdir_throws (faults (rt w))) in
  if f then emit (Mkdir dir false) >> throw (IsError "mkdir failed")
  else emit (Mkdir dir true).

(** [Deno.writeFile(path, data)] *)
Definition Deno_writeFile (path : string) (data : bytes) : M unit :=
  do f <- get (fun w => writeFile_throws (faults (rt w))) in
  if f then emit (WriteFile path data false) >> throw (IsError "write failed")
  else emit (WriteFile path data true).

(** A string in a condition: [undefined] and the empty string are falsy. *)
Definition truthy (s : option string) : option string :=
  match s with
  | Some EmptyString => None
  | Some s => Some s
  | None => None
  end.

(** [a[i] === v] on a [Uint8Array]: out of range the element is
    [undefined] and the comparison is false. *)
Definition byte_is (data : bytes) (i : nat) (v : byte) : bool :=
  match data !! i with
  | Some b => Byte.eqb b v
  | None => false
  end.

(** ** Base64 in the runtime, and the two regular expressions of the older class *)

(** The value of a character of the base64 alphabet. *)
Definition sextet (c : Ascii.ascii) : option N :=
  let n := Ascii.N_of_ascii c in
  if (65 <=? n)%N && (n <=? 90)%N then Some (n - 65)%N
  else if (97 <=? n)%N && (n <=? 122)%N then Some (n - 71)%N
  else if (48 <=? n)%N && (n <=? 57)%N then Some (n + 4)%N
  else if (n =? 43)%N then Some 62%N
  else if (n =? 47)%N then Some 63%N
  else None.

(** TAB, LF, FF, CR and SPACE *)
Definition is_ascii_whitespace (c : Ascii.ascii) : bool :=
  let n := Ascii.N_of_ascii c in
  (n =? 9)%N || (n =? 10)%N || (n =? 12)%N || (n =? 13)%N || (n =? 32)%N.

(** The padding character [=] *)
Definition is_pad (c : Ascii.ascii) : bool := (Ascii.N_of_ascii c =? 61)%N.

(** One or two [=] at the end are removed. *)
Definition strip_padding (l : list Ascii.ascii) : list Ascii.ascii :=
  match rev l with
  | a :: b :: r =>
      if is_pad a then (if is_pad b then rev r else rev (b :: r)) else l
  | [a] => if is_pad a then [] else l
  | [] => l
  end.

(** Four values of six bits give three bytes; two and three values at the
    end give one and two bytes, the bits left over being dropped. *)
Fixpoint octets (l : list N) : list Ascii.ascii :=
  match l with
  | a :: b :: c :: d :: r =>
      Ascii.ascii_of_N (a * 4 + b / 16)%N :: Ascii.ascii_of_N (b mod 16 * 16 + c / 4)%N
        :: Ascii.ascii_of_N (c mod 4 * 64 + d)%N :: octets r
  | [a; b; c] => [Ascii.ascii_of_N (a * 4 + b / 16)%N; Ascii.ascii_of_N (b mod 16 * 16 + c / 4)%N]
  | [a; b] => [Ascii.ascii_of_N (a * 4 + b / 16)%N]
  | _ => []
  end.

(** [atob(data)], the forgiving-base64 decoding of the HTML standard:
    whitespace is removed; if the length is then a multiple of four, one or
    two [=] at the end are removed; a length that leaves the remainder one,
    and any character outside the alphabet, make it throw. The result is a
    string of the decoded bytes. *)
Definition atob (data : string) : result string :=
  let l := List.filter (fun c => negb (is_ascii_whitespace c)) (String.list_ascii_of_string data) in
  let l := if (length l mod 4 =? 0)%nat then strip_padding l else l in
  if (length l mod 4 =? 1)%nat then Throw (IsError "Failed to decode base64")
  else
    match mapM sextet l with
    | Some values => Ok (String.string_of_list_ascii (octets values))
    | None => Throw (IsError "Failed to decode base64")
    end.

(** [\w] *)
Definition is_word (c : Ascii.ascii) : bool :=
  let n := Ascii.N_of_ascii c in
  ((65 <=? n)%N && (n <=? 90)%N) || ((97 <=? n)%N && (n <=? 122)%N)
  || ((48 <=? n)%N && (n <=? 57)%N) || (n =? 95)%N.

(** [[A-Za-z0-9+/=]] *)
Definition is_base64_char (c : Ascii.ascii) : bool :=
  let n := Ascii.N_of_ascii c in
  ((65 <=? n)%N && (n <=? 90)%N) || ((97 <=? n)%N && (n <=? 122)%N)
  || ((48 <=? n)%N && (n <=? 57)%N) || (n =? 43)%N || (n =? 47)%N || (n =? 61)%N.

(** [s] without its prefix [p], if it starts with [p]. *)
Fixpoint drop_prefix (p s : string) : option string :=
  match p, s with
  | EmptyString, _ => Some s
  | String a p', String b s' => if Ascii.eqb a b then drop_prefix p' s' else None
  | String _ _, EmptyString => None
  end.

(** [s] past its leading characters of the class [p]. *)
Fixpoint skip (p : Ascii.ascii -> bool) (s : string) : string :=
  match s with
  | String c s' => if p c then skip p s' else s
  | EmptyString => s
  end.

(** [base64.replace(/^data:image\/\w+;base64,/, "")]: the run of [\w+] is
    the longest one, since the character that has to follow it is not of
    that class. *)
Definition strip_data_url (base64 : string) : string :=
  match drop_prefix "data:image/" base64 with
  | Some (String c r) =>
      if is_word c
      then match drop_prefix ";base64," (skip is_word r) with
           | Some rest => rest
           | None => base64
           end
      else base64
  | _ => base64
  end.

(** [/^[A-Za-z0-9+/=]+$/.test(s)] *)
Definition test_base64 (s : string) : bool :=
  match String.list_ascii_of_string s with
  | [] => false
  | l => forallb is_base64_char l
  end.

(** ** Methods that read the same in both classes *)

Module Shared.

(** [connect()]; the four handlers it installs on the new socket are
    [onopen], [onmessage], [onerror] and [onclose] of the class, run by
    [step] when the socket's events arrive. *)
Definition connect : M unit :=
  try_catch
    (do u <- get (fun w => url (options (this w))) in
     emit (ConsoleLog ("[PixelSocket] Connecting to: " +:+ u)) >>
     do s <- new_WebSocket u in
     modify (with_this (set_socket (Some s))))
    (fun error =>
       let err := orError "Failed to connect" error in
       emit (OnError err) >>
       throw (IsError err)).

(** The callback of the keep-alive interval. *)
Definition ping_callback : M unit :=
  do s <- get (fun w => socket (this w)) in
  match s with
  | Some s =>
      do st <- socket_readyState s in
      match st with
      | OPEN =>
          try_catch
            (socket_send s (Text pingMessage) >>
             emit (ConsoleLog "[PixelSocket] Sent ping"))
            (fun error => emit (ConsoleError "[PixelSocket] Error sending ping:"))
      | _ => ret tt
      end
  | None => ret tt
  end.

Definition startPingInterval : M unit :=
  (do p <- get (fun w => pingTimeout (this w)) in
   match p with
   | Some t => clearInterval t
   | None => ret tt
   end) >>
  do t <- setInterval PingCallback 20000 in
  modify (with_this (set_pingTimeout (Some t))).

(** [socket.onopen] *)
Definition onopen : M unit :=
  update_stats (set_isConnected true) >>
  (do d <- new_Date in update_stats (set_connectedAt (Some d))) >>
  update_stats (set_reconnectAttempts 0) >>
  (do u <- get (fun w => url (options (this w))) in
   emit (ConsoleLog ("[PixelSocket] Connected to " +:+ u))) >>
  (do s <- get (fun w => socket (this w)) in
   match s with
   | Some s => socket_send s (Text subscribeMessage)
   | None => throw (IsError "Cannot read properties of null (reading 'send')")
   end) >>
  startPingInterval >>
  emit OnConnect.

(** [socket.onerror]; [message] is [(event as ErrorEvent).message]. *)
Definition onerror (message : option string) : M unit :=
  let error := "WebSocket error: " +:+ default "Unknown error" (truthy message) in
  emit (ConsoleError "[PixelSocket] Error:") >>
  emit (OnError error).

(** The callback of the reconnect timer:
    [this.connect().catch((error) => console.error(...))]. *)
Definition reconnect_callback : M unit :=
  try_catch connect
    (fun error => emit (ConsoleError "[PixelSocket] Reconnection failed:")).

Definition send (data : frame) : M unit :=
  do s <- get (fun w => socket (this w)) in
  match s with
  | None => throw (IsError "WebSocket is not connected")
  | Some s =>
      do st <- socket_readyState s in
      match st with
      | OPEN => socket_send s data
      | _ => throw (IsError "WebSocket is not connected")
      end
  end.

Definition disconnect : M unit :=
  modify (with_this (set_shouldReconnect false)) >>
  (do r <- get (fun w => reconnectTimeout (this w)) in
   match r with
   | Some t => clearTimeout t >> modify (with_this (set_reconnectTimeout None))
   | None => ret tt
   end) >>
  (do p <- get (fun w => pingTimeout (this w)) in
   match p with
   | Some t => clearInterval t >> modify (with_this (set_pingTimeout None))
   | None => ret tt
   end) >>
  (do s <- get (fun w => socket (this w)) in
   match s with
   | Some s => socket_close s >> modify (with_this (set_socket None))
   | None => ret tt
   end) >>
  update_stats (set_isConnected false).

(** [return { ...this.stats }]: a new object with the same field values;
    a [Date] held in [connectedAt] is copied by reference. *)
Definition getStats : M loc :=
  do s <- get the_stats in
  do l <- fresh in
  modify (with_rt (fun r =>
    set_snapshots (l :: snapshots r) (set_heap (<[l := ObjStats s]> (heap r)) r))) >>
  ret l.

Definition isConnected : M bool :=
  get (fun w => isConnected (the_stats w)).

(** The constructor: the defaults with the caller's keys spread over
    them, and zeroed statistics. *)
Definition new_instance (default_directory : string) (o : PixelSocketOptions) : world :=
  {| this :=
       {| socket := None;
          options :=
            {| url := opt_url o;
               saveDirectory := default (Some default_directory) (opt_saveDirectory o);
               autoReconnect := default true (opt_autoReconnect o);
               reconnectDelay := default 5000 (opt_reconnectDelay o);
               maxReconnectAttempts := default 10 (opt_maxReconnectAttempts o) |};
          stats := 0%nat;
          reconnectTimeout := None;
          pingTimeout := None;
          shouldReconnect := true;
          zstdInitialized := false |};
     rt :=
       {| heap := {[ 0%nat := ObjStats empty_stats ]};
          sockets := ∅;
          timers := ∅;
          next_id := 1%nat;
          clock := 0;
          faults := no_faults;
          trace := [];
          snapshots := [] |} |}.

End Shared.

(** ** What can happen to an instance *)

Inductive event :=
(* the caller *)
| Call_connect
| Call_disconnect
| Call_send (data : frame)
| Call_getStats
| Call_isConnected
| Caller_writes (l : loc) (s : ConnectionStats)
| Caller_setTime (l : loc) (time : Z)
(* the transport *)
| Socket_open (s : sock_id)
| Socket_message (s : sock_id) (data : frame)
| Socket_error (s : sock_id) (message : option string)
| Socket_close (s : sock_id) (code : Z) (reason : string)
(* the runtime *)
| Timer_fires (t : timer_id)
| Elapse (ms : Z)
| Set_faults (f : Faults).

(** Running a method or handler from the top: an exception that leaves it
    is recorded. *)
Definition run {A} (m : M A) (w : world) : world :=
  match m w with
  | (Ok _, w') => w'
  | (Throw t, w') => snd (emit (Escaped t) w')
  end.

(** The caller assigns fields of a record it got from [getStats]; any
    number of assignments amounts to replacing the record. *)
Definition caller_writes (l : loc) (s : ConnectionStats) (w : world) : world :=
  if bool_decide (l ∈ snapshots (rt w))
  then with_rt (fun r => set_heap (<[l := ObjStats s]> (heap r)) r) w
  else w.

(** The caller calls [setTime] on a [Date] object. *)
Definition caller_setTime (l : loc) (time : Z) (w : world) : world :=
  match heap (rt w) !! l with
  | Some (ObjDate _) =>
      with_rt (fun r => set_heap (<[l := ObjDate time]> (heap r)) r) w
  | _ => w
  end.

(** An event of a socket reaches the handlers only if [connect] created
    that socket. *)
Definition on_socket (s : sock_id) (st : option readyState) (m : M unit) (w : world) : world :=
  match sockets (rt w) !! s with
  | None => w
  | Some old =>
      run m (with_rt (fun r => set_sockets (<[s := default old st]> (sockets r)) r) w)
  end.

(** A timer that is armed fires: a timeout is disarmed by firing, an
    interval stays. *)
Definition on_timer (t : timer_id) (w : world) : world :=
  match timers (rt w) !! t with
  | None => w
  | Some tm =>
      let w' := if repeating tm then w
                else with_rt (fun r => set_timers (delete t (timers r)) r) w in
      match callback tm with
      | ReconnectCallback => run Shared.reconnect_callback w'
      | PingCallback => run Shared.ping_callback w'
      end
  end.

(** ** The newer class: Zstandard-compressed MessagePack frames *)

Module PixelSocket.

(** What [msgpackDecode] returns has static type [any]. The embedding keeps
    what [handleMessage] looks at: whether the value is falsy, its [type]
    property when that is a string, and its [payload] property with the
    fields of [NotificationFromPixelSocket] as the decoder fills them ([None]
    when the property is missing; [null] differs only in the wording of the
    error). *)
Inductive decoded :=
| Falsy
| Object (type : option string) (payload : option NotificationFromPixelSocket).

(** The two libraries behind the codec, [@bokuweb/zstd-wasm] and
    [@msgpack/msgpack], as functions that return or throw. *)
Record Codec := {
  zstdDecompress : bytes -> result bytes;
  msgpackDecode : bytes -> result decoded
}.

Definition new_PixelSocket (o : PixelSocketOptions) : world :=
  Shared.new_instance "./received_images" o.

Definition lift {A} (r : result A) : M A := fun w => (r, w).

(** [zstdInit()] of the library *)
Definition zstdInit : M unit :=
  do f <- get (fun w => zstdInit_throws (faults (rt w))) in
  if f then throw (IsError "zstd init failed") else ret tt.

Definition ensureZstdInit : M unit :=
  do i <- get (fun w => zstdInitialized (this w)) in
  if i then ret tt
  else
    try_catch
      (zstdInit >> modify (with_this (set_zstdInitialized true)))
      (fun err =>
         emit (ConsoleError "[Zstd] Initialization failed:") >>
         throw err).

(** Returns the decoded object, or [undefined] ([None]) after a failure. *)
Definition decompressAndUnpack (c : Codec) (compressed : bytes) : M (option decoded) :=
  try_catch
    (ensureZstdInit >>
     do decompressed <- lift (zstdDecompress c compressed) in
     do object <- lift (msgpackDecode c decompressed) in
     ret (Some object))
    (fun err =>
       emit (ConsoleError "[decompressAndUnpack] Failed to decompress or unpack message:") >>
       ret None).

(** [this.stats.bytesReceived += payload.imageLength] adds a decoded value
    to a number: with a [BigInt] the addition throws a [TypeError], after
    [imagesReceived] was incremented. *)
Definition processImage (payload : option NotificationFromPixelSocket) : M unit :=
  update_stats (fun s => set_imagesReceived (imagesReceived s + 1) s) >>
  do p <- match payload with
          | Some p => ret p
          | None => throw (IsError "Cannot read properties of undefined (reading 'imageLength')")
          end in
  do len <- match imageLength p with
            | Number n => ret n
            | BigInt _ =>
                throw (IsError "Cannot mix BigInt and other types, use explicit conversions")
            end in
  update_stats (fun s => set_bytesReceived (bytesReceived s + len) s) >>
  (do n <- get (fun w => imagesReceived (the_stats w)) in
   emit (ConsoleLog ("[PixelSocket] Received image #" +:+ pretty n +:+ " ("
                       +:+ pretty len +:+ " bytes)"))) >>
  do dir <- get (fun w => saveDirectory (options (this w))) in
  match truthy dir, blobData p with
  | Some dir, Some blob =>
      try_catch
        (Deno_mkdir dir >>
         do now <- Date_now in
         let timestamp := if timestamp p =? 0 then now else timestamp p in
         let filename :=
           pretty timestamp +:+ "_" +:+ jobId p +:+ "." +:+ fileExtension p in
         let filepath := dir +:+ "/" +:+ filename in
         Deno_writeFile filepath blob >>
         emit (ConsoleLog ("[PixelSocket] Saved image to " +:+ filepath)))
        (fun error =>
           let err := orError "Failed to save image" error in
           emit (ConsoleError "[PixelSocket] Error saving image:") >>
           emit (OnError err))
  | _, _ => ret tt
  end.

Definition handleMessage (c : Codec) (data : frame) : M unit :=
  try_catch
    (match data with
     | Binary compressed =>
         do object <- decompressAndUnpack c compressed in
         match object with
         | None | Some Falsy =>
             emit (ConsoleError "[Client] Failed to decompress or unpack message")
         | Some (Object type payload) =>
             if bool_decide (type = Some "notification-from-pixel-socket")
             then processImage payload
             else ret tt
         end
     | Text _ => ret tt
     end)
    (fun error =>
       let err := orError "Failed to process message" error in
       emit (ConsoleError "[PixelSocket] Error processing message:") >>
       emit (OnError err)).

Definition scheduleReconnect : M unit :=
  (do r <- get (fun w => reconnectTimeout (this w)) in
   match r with
   | Some t => clearTimeout t
   | None => ret tt
   end) >>
  update_stats (fun s => set_reconnectAttempts (reconnectAttempts s + 1) s) >>
  do n <- get (fun w => reconnectAttempts (the_stats w)) in
  do o <- get (fun w => options (this w)) in
  let delay :=
    if n <=? maxReconnectAttempts o then reconnectDelay o else 60000 in
  let attemptText :=
    if n <=? maxReconnectAttempts o
    then "attempt " +:+ pretty n +:+ "/" +:+ pretty (maxReconnectAttempts o)
    else "attempt " +:+ pretty n +:+ " (ongoing)" in
  emit (ConsoleLog ("[PixelSocket] Reconnecting in " +:+ pretty delay +:+ "ms ("
                      +:+ attemptText +:+ ")")) >>
  do t <- setTimeout ReconnectCallback delay in
  modify (with_this (set_reconnectTimeout (Some t))).

(** [socket.onclose] *)
Definition onclose (code : Z) (reason : string) : M unit :=
  update_stats (set_isConnected false) >>
  emit (ConsoleLog ("[PixelSocket] Disconnected: " +:+ pretty code +:+ " - " +:+ reason)) >>
  emit (OnDisconnect code reason) >>
  do w <- get id in
  if shouldReconnect (this w) && autoReconnect (options (this w))
  then scheduleReconnect
  else ret tt.

Definition step (c : Codec) (e : event) (w : world) : world :=
  match e with
  | Call_connect => run Shared.connect w
  | Call_disconnect => run Shared.disconnect w
  | Call_send data => run (Shared.send data) w
  | Call_getStats => run Shared.getStats w
  | Call_isConnected => run Shared.isConnected w
  | Caller_writes l s => caller_writes l s w
  | Caller_setTime l time => caller_setTime l time w
  | Socket_open s => on_socket s (Some OPEN) Shared.onopen w
  | Socket_message s data => on_socket s None (handleMessage c data) w
  | Socket_error s message => on_socket s None (Shared.onerror message) w
  | Socket_close s code reason => on_socket s (Some CLOSED) (onclose code reason) w
  | Timer_fires t => on_timer t w
  | Elapse ms => with_rt (fun r => set_clock (clock r + ms) r) w
  | Set_faults f => with_rt (set_faults f) w
  end.

Definition steps (c : Codec) (es : list event) (w : world) : world :=
  foldl (fun w e => step c e w) w es.

End PixelSocket.

(** ** The older class: binary frames are images; JSON and base64 texts *)

Module LegacyPixelSocket.

Definition new_PixelSocket (o : PixelSocketOptions) : world :=
  Shared.new_instance "./images" o.

Definition detectImageFormat (data : bytes) : string :=
  if byte_is data 0 xff && byte_is data 1 xd8 && byte_is data 2 xff then "jpg"
  else if byte_is data 0 x89 && byte_is data 1 x50 && byte_is data 2 x4e
          && byte_is data 3 x47 then "png"
  else if byte_is data 0 x52 && byte_is data 1 x49 && byte_is data 2 x46
          && byte_is data 3 x46 then "webp"
  else if byte_is data 0 x47 && byte_is data 1 x49 && byte_is data 2 x46 then "gif"
  else "bin".

Definition saveImage (imageData : bytes) (metadata : ImageMetadata) : M unit :=
  try_catch
    (do dir <- get (fun w => saveDirectory (options (this w))) in
     match dir with
     | None => throw (IsError "mkdir: path is undefined")
     | Some dir =>
         Deno_mkdir dir >>
         do timestamp <- match meta_timestamp metadata with
                         | Some (IsDate t) => ret t
                         | Some NotDate =>
                             throw (IsError "metadata.timestamp.getTime is not a function")
                         | None => throw (IsError "Cannot read properties of undefined (reading 'getTime')")
                         end in
         let format :=
           default (detectImageFormat imageData) (truthy (meta_format metadata)) in
         let filename := pretty timestamp +:+ "." +:+ format in
         let filepath := dir +:+ "/" +:+ filename in
         Deno_writeFile filepath imageData >>
         emit (ConsoleLog ("[PixelSocket] Saved image to " +:+ filepath))
     end)
    (fun error =>
       let err := orError "Failed to save image" error in
       emit (ConsoleError "[PixelSocket] Error saving image:") >>
       emit (OnError err)).

(** [{ timestamp: new Date(), ...metadata }]: a [timestamp] key of the
    caller's record replaces the new [Date], whatever it holds. *)
Definition fullMetadata (now : Z) (metadata : option ImageMetadata) : ImageMetadata :=
  match metadata with
  | None =>
      {| meta_timestamp := Some (IsDate now); meta_format := None; meta_mimeType := None;
         meta_filename := None; meta_width := None; meta_height := None |}
  | Some m =>
      {| meta_timestamp := Some (default (IsDate now) (meta_timestamp m));
         meta_format := meta_format m; meta_mimeType := meta_mimeType m;
         meta_filename := meta_filename m; meta_width := meta_width m;
         meta_height := meta_height m |}
  end.

Definition processImage (imageData : bytes) (metadata : option ImageMetadata) : M unit :=
  do now <- Date_now in
  let full := fullMetadata now metadata in
  update_stats (fun s => set_imagesReceived (imagesReceived s + 1) s) >>
  update_stats (fun s => set_bytesReceived (bytesReceived s + Z.of_nat (length imageData)) s) >>
  (do n <- get (fun w => imagesReceived (the_stats w)) in
   emit (ConsoleLog ("[PixelSocket] Received image #" +:+ pretty n +:+ " ("
                       +:+ pretty (Z.of_nat (length imageData)) +:+ " bytes)"))) >>
  emit (OnImage imageData full) >>
  do dir <- get (fun w => saveDirectory (options (this w))) in
  match truthy dir with
  | Some _ => saveImage imageData full
  | None => ret tt
  end.

(** [handleMessage] for a binary frame; the branches for text frames (JSON
    envelopes and bare base64) are not part of this development. *)
Definition handleMessage_binary (data : bytes) : M unit :=
  try_catch
    (processImage data None)
    (fun error =>
       let err := orError "Failed to process message" error in
       emit (ConsoleError "[PixelSocket] Error processing message:") >>
       emit (OnError err)).

Definition scheduleReconnect : M unit :=
  (do r <- get (fun w => reconnectTimeout (this w)) in
   match r with
   | Some t => clearTimeout t
   | None => ret tt
   end) >>
  update_stats (fun s => set_reconnectAttempts (reconnectAttempts s + 1) s) >>
  do n <- get (fun w => reconnectAttempts (the_stats w)) in
  do o <- get (fun w => options (this w)) in
  emit (ConsoleLog ("[PixelSocket] Reconnecting in " +:+ pretty (reconnectDelay o)
                      +:+ "ms (attempt " +:+ pretty n +:+ "/"
                      +:+ pretty (maxReconnectAttempts o) +:+ ")")) >>
  do t <- setTimeout ReconnectCallback (reconnectDelay o) in
  modify (with_this (set_reconnectTimeout (Some t))).

(** [socket.onclose] *)
Definition onclose (code : Z) (reason : string) : M unit :=
  update_stats (set_isConnected false) >>
  emit (ConsoleLog ("[PixelSocket] Disconnected: " +:+ pretty code +:+ " - " +:+ reason)) >>
  emit (OnDisconnect code reason) >>
  do w <- get id in
  if shouldReconnect (this w) && autoReconnect (options (this w))
     && (reconnectAttempts (the_stats w) <? maxReconnectAttempts (options (this w)))
  then scheduleReconnect
  else ret tt.

(** [base64ToUint8Array]: the bytes are the character codes of what
    [atob] returns. *)
Definition base64ToUint8Array (base64 : string) : M bytes :=
  try_catch
    (let base64Data := strip_data_url base64 in
     (if test_base64 base64Data then ret tt
      else throw (IsError "Invalid base64 string")) >>
     do binaryString <- PixelSocket.lift (atob base64Data) in
     ret (map Ascii.byte_of_ascii (String.list_ascii_of_string binaryString)))
    (fun error =>
       let err := orError "Failed to decode base64 data" error in
       emit (ConsoleError "[PixelSocket] Base64 decode error:") >>
       throw (IsError err)).

End LegacyPixelSocket.

(** ** Observations and invariants *)

(** The effects alone, without the statistics observed with them. *)
Definition effects (w : world) : list effect := map fst (trace (rt w)).

Definition count (p : effect -> bool) (w : world) : nat :=
  length (List.filter p (effects w)).

Definition is_OnError (e : effect) : bool :=
  match e with OnError _ => true | _ => false end.

Definition is_SetTimeout (e : effect) : bool :=
  match e with SetTimeout _ _ => true | _ => false end.

Definition is_SocketClose (e : effect) : bool :=
  match e with SocketClose _ => true | _ => false end.

Definition is_ConsoleError (e : effect) : bool :=
  match e with ConsoleError _ => true | _ => false end.

(** The caller's image callback of either class. *)
Definition is_image_callback (e : effect) : bool :=
  match e with OnImage _ _ | OnImageReceived _ => true | _ => false end.

(** [s] starts with [p]. *)
Fixpoint starts_with (p s : string) : bool :=
  match p, s with
  | EmptyString, _ => true
  | String a p', String b s' => Ascii.eqb a b && starts_with p' s'
  | String _ _, EmptyString => false
  end.

(** A call of [connect()] shows as its first log line, and as the socket
    it creates. *)
Definition is_connect_call (e : effect) : bool :=
  match e with
  | ConsoleLog msg => starts_with "[PixelSocket] Connecting to: " msg
  | NewWebSocket _ _ => true
  | _ => false
  end.

Definition is_Call_connect (e : event) : bool :=
  match e with Call_connect => true | _ => false end.

Definition is_Socket_open (e : event) : bool :=
  match e with Socket_open _ => true | _ => false end.

(** The caller assigns to the record at [l]. *)
Definition writes_to (l : loc) (e : event) : bool :=
  match e with Caller_writes l' _ => bool_decide (l' = l) | _ => false end.

(** [m] keeps [I], however it ends. *)
Definition keeps {A} (I : world -> Prop) (m : M A) : Prop :=
  forall w, I w -> I (snd (m w)).

(** Addresses are handed out in order; the statistics object is older
    than every snapshot. *)
Definition wf (w : world) : Prop :=
  (stats (this w) < next_id (rt w))%nat /\
  Forall (fun l => (l < next_id (rt w))%nat /\ l <> stats (this w))
         (snapshots (rt w)).

(** Every armed timer is the one the instance remembers for its purpose. *)
Definition tracked (w : world) (t : timer_id) (tm : timer) : Prop :=
  (reconnectTimeout (this w) = Some t /\ callback tm = ReconnectCallback)
  \/ (pingTimeout (this w) = Some t /\ callback tm = PingCallback).

Definition timers_tracked (w : world) : Prop :=
  forall t tm, timers (rt w) !! t = Some tm -> tracked w t tm.

(** After [disconnect()]: the stop flag is set and no reconnect timer is
    armed; [n] reconnects were scheduled so far. *)
Definition stopped (n : nat) (w : world) : Prop :=
  shouldReconnect (this w) = false /\
  (forall t tm, timers (rt w) !! t = Some tm -> callback tm = PingCallback) /\
  count is_SetTimeout w = n.

(** After [disconnect()] and until the caller connects again: no socket,
    no timer; [n] calls of [connect] were made so far. *)
Definition idle (n : nat) (w : world) : Prop :=
  shouldReconnect (this w) = false /\
  socket (this w) = None /\
  timers (rt w) = ∅ /\
  count is_connect_call w = n.

(** The object at [l] is a snapshot holding [v]. *)
Definition snapshot_holds (l : loc) (v : ConnectionStats) (w : world) : Prop :=
  (l < next_id (rt w))%nat /\ l <> stats (this w) /\
  heap (rt w) !! l = Some (ObjStats v).

(** The reconnect counter has not dropped below [n]. *)
Definition attempts_at_least (n : Z) (w : world) : Prop :=
  (stats (this w) < next_id (rt w))%nat /\ n <= reconnectAttempts (the_stats w).


(** The image callback was invoked [n] times so far. *)
Definition image_callbacks (n : nat) (w : world) : Prop :=
  count is_image_callback w = n.

(** The armed timers once the timer remembered in [o] is cleared. *)
Definition cancel (o : option timer_id) (m : gmap timer_id timer) : gmap timer_id timer :=
  match o with
  | Some t => delete t m
  | None => m
  end.

(** The effect of clearing the timer remembered in [o], if any. *)
Definition cleared (mk : timer_id -> effect) (o : option timer_id) : list effect :=
  match o with
  | Some t => [mk t]
  | None => []
  end.

(** The heap is in order: every object lies below [next_id], the
    statistics object is in its place, every record handed out is a record
    of statistics other than the internal one, and [connectedAt] refers to a
    [Date]. *)
Definition heap_ok (w : world) : Prop :=
  (forall l o, heap (rt w) !! l = Some o -> (l < next_id (rt w))%nat) /\
  (exists s, heap (rt w) !! stats (this w) = Some (ObjStats s)) /\
  Forall (fun l => l <> stats (this w) /\ exists s, heap (rt w) !! l = Some (ObjStats s))
         (snapshots (rt w)) /\
  (forall d, connectedAt (the_stats w) = Some d ->
     exists time, heap (rt w) !! d = Some (ObjDate time)).

(** [d.getTime()] of the [Date] that a [connectedAt] field refers to. *)
Definition date_at (w : world) (d : option loc) : option Z :=
  match d with
  | Some d =>
      match heap (rt w) !! d with
      | Some (ObjDate time) => Some time
      | _ => None
      end
  | None => None
  end.

(** [connectedAt.getTime()], read through the statistics record at [l]. *)
Definition connectedAt_time (l : loc) (w : world) : option Z :=
  match heap (rt w) !! l with
  | Some (ObjStats s) => date_at w (connectedAt s)
  | _ => None
  end.

(** The outcome of decompressing and unpacking a frame in state [w]. *)
Definition decode_outcome (c : PixelSocket.Codec) (w : world) (compressed : bytes)
  : result PixelSocket.decoded :=
  if negb (zstdInitialized (this w)) && zstdInit_throws (faults (rt w))
  then Throw (IsError "zstd init failed")
  else
    match PixelSocket.zstdDecompress c compressed with
    | Ok decompressed => PixelSocket.msgpackDecode c decompressed
    | Throw t => Throw t
    end.

(** ** Sample inputs *)

Definition sample_options : PixelSocketOptions :=
  {| opt_url := "ws://localhost:8080/ws";
     opt_saveDirectory := None;
     opt_autoReconnect := None;
     opt_reconnectDelay := None;
     opt_maxReconnectAttempts := None |}.

(** As [sample_options], giving up after two attempts. *)
Definition two_attempts : PixelSocketOptions :=
  {| opt_url := "ws://localhost:8080/ws";
     opt_saveDirectory := None;
     opt_autoReconnect := None;
     opt_reconnectDelay := None;
     opt_maxReconnectAttempts := Some 2 |}.

(** [saveDirectory: undefined], as the README writes it to turn saving off. *)
Definition no_directory : PixelSocketOptions :=
  {| opt_url := "ws://localhost:8080/ws";
     opt_saveDirectory := Some None;
     opt_autoReconnect := None;
     opt_reconnectDelay := None;
     opt_maxReconnectAttempts := None |}.

(** A PNG header standing for an image. *)
Definition sample_image : bytes := [x89; x50; x4e; x47].

Definition sample_payload : NotificationFromPixelSocket :=
  {| jobId := "abc";
     blobData := Some sample_image;
     imageLength := Number 4;
     fileExtension := "png";
     mimeType := "image/png";
     objectUrl := None;
     secretToken := "token_xyz";
     timestamp := 1000;
     promptParams := None |}.

(** The image is kept in object storage: no bytes in the payload, and a
    declared length of 45678. *)
Definition stored_payload : NotificationFromPixelSocket :=
  {| jobId := "abc";
     blobData := None;
     imageLength := Number 45678;
     fileExtension := "png";
     mimeType := "image/png";
     objectUrl := Some "https://storage/abc";
     secretToken := "token_xyz";
     timestamp := 1000;
     promptParams := None |}.

(** As [sample_payload], with its length sent in a 64-bit format of the
    wire. *)
Definition wide_payload : NotificationFromPixelSocket :=
  {| jobId := "abc";
     blobData := Some sample_image;
     imageLength := BigInt 4;
     fileExtension := "png";
     mimeType := "image/png";
     objectUrl := None;
     secretToken := "token_xyz";
     timestamp := 1000;
     promptParams := None |}.

(** Metadata as a JSON text gives it: the timestamp is a number. *)
Definition json_metadata : ImageMetadata :=
  {| meta_timestamp := Some NotDate;
     meta_format := Some "png";
     meta_mimeType := None;
     meta_filename := None;
     meta_width := None;
     meta_height := None |}.

(** A codec under which every frame is the notification of [p]. *)
Definition codec_of (p : NotificationFromPixelSocket) : PixelSocket.Codec :=
  {| PixelSocket.zstdDecompress := fun compressed => Ok compressed;
     PixelSocket.msgpackDecode := fun _ =>
       Ok (PixelSocket.Object (Some "notification-from-pixel-socket") (Some p)) |}.

(** A codec under which every frame is a notification without a payload. *)
Definition codec_bare : PixelSocket.Codec :=
  {| PixelSocket.zstdDecompress := fun compressed => Ok compressed;
     PixelSocket.msgpackDecode := fun _ =>
       Ok (PixelSocket.Object (Some "notification-from-pixel-socket") None) |}.

(** A codec that finds every frame corrupt. *)
Definition codec_corrupt : PixelSocket.Codec :=
  {| PixelSocket.zstdDecompress := fun _ => Throw (IsError "corrupt frame");
     PixelSocket.msgpackDecode := fun _ => Ok PixelSocket.Falsy |}.

(** The newer client, connected: socket 1 is open, timer 3 pings. *)
Definition connected : world :=
  PixelSocket.steps (codec_of sample_payload) [Call_connect; Socket_open 1%nat]
    (PixelSocket.new_PixelSocket sample_options).

(** The newer client while a reconnect is pending: socket 1 opened and
    closed again, timer 4 waits to reconnect. *)
Definition reconnecting : world :=
  PixelSocket.steps (codec_of sample_payload)
    [Call_connect; Socket_open 1%nat; Socket_close 1%nat 1006 "gone"]
    (PixelSocket.new_PixelSocket sample_options).


(** The transport refuses to send. *)
Definition failing_send : Faults :=
  {| ctor_throws := false; send_throws := true; mkdir_throws := false;
     writeFile_throws := false; zstdInit_throws := false |}.

(** The close event of socket [s] reaching the older class. *)
Definition legacy_close (s : sock_id) (code : Z) (reason : string) : world -> world :=
  on_socket s (Some CLOSED) (LegacyPixelSocket.onclose code reason).

(** The older client with [maxReconnectAttempts: 2], after its second
    reconnect: sockets 1 and 3 closed without opening, socket 5 is being
    connected, and the counter stands at 2. *)
Definition legacy_exhausted : world :=
  on_timer 4%nat
    (legacy_close 3%nat 1006 "gone"
       (on_timer 2%nat
          (legacy_close 1%nat 1006 "gone"
             (run Shared.connect (LegacyPixelSocket.new_PixelSocket two_attempts))))).

(** ** Further observations and invariants *)

Definition is_Escaped (e : effect) : bool :=
  match e with Escaped _ => true | _ => false end.

(** The file system is touched. *)
Definition is_fs (e : effect) : bool :=
  match e with Mkdir _ _ | WriteFile _ _ _ => true | _ => false end.

Definition is_Call_disconnect (e : event) : bool :=
  match e with Call_disconnect => true | _ => false end.

Definition is_Socket_message (e : event) : bool :=
  match e with Socket_message _ _ => true | _ => false end.

Definition is_Socket_close (e : event) : bool :=
  match e with Socket_close _ _ _ => true | _ => false end.

(** The events whose method or handler can end in an exception: the two
    calls that throw to the caller, and the open event. *)
Definition may_throw (e : event) : bool :=
  match e with Call_connect | Call_send _ | Socket_open _ => true | _ => false end.

Definition is_OnConnect (e : effect) : bool :=
  match e with OnConnect => true | _ => false end.

Definition is_OnDisconnect (e : effect) : bool :=
  match e with OnDisconnect _ _ => true | _ => false end.

(** The events in which the newer class can call [onError]: a call of
    [connect()], by the caller or by the reconnect timer, a message and an
    error event. *)
Definition may_report (e : event) : bool :=
  match e with
  | Call_connect | Socket_message _ _ | Socket_error _ _ | Timer_fires _ => true
  | _ => false
  end.

Definition is_SocketSend (e : effect) : bool :=
  match e with SocketSend _ _ => true | _ => false end.

(** The events in which the instance can transmit: [send()], the open
    event (the subscription) and a timer (the keep-alive). *)
Definition may_send (e : event) : bool :=
  match e with Call_send _ | Socket_open _ | Timer_fires _ => true | _ => false end.

(** [n] effects of the kind [p] so far. *)
Definition counted (p : effect -> bool) (n : nat) (w : world) : Prop :=
  count p w = n.

(** [this.options] is [o]. *)
Definition options_are (o : Options) (w : world) : Prop :=
  options (this w) = o.

(** [this.zstdInitialized] is [b]. *)
Definition zstd_flag (b : bool) (w : world) : Prop :=
  zstdInitialized (this w) = b.

(** The stop flag is up: [disconnect()] was not called. *)
Definition running (w : world) : Prop :=
  shouldReconnect (this w) = true.

(** [this.stats.isConnected] is [b]. *)
Definition connection_flag (b : bool) (w : world) : Prop :=
  (stats (this w) < next_id (rt w))%nat /\ isConnected (the_stats w) = b.

(** The two counters of received data stand at [i] and [b]. *)
Definition counters (i b : Z) (w : world) : Prop :=
  (stats (this w) < next_id (rt w))%nat /\
  imagesReceived (the_stats w) = i /\ bytesReceived (the_stats w) = b.

(** At least [n] images were counted. *)
Definition images_at_least (n : Z) (w : world) : Prop :=
  (stats (this w) < next_id (rt w))%nat /\ n <= imagesReceived (the_stats w).

(** No save directory, and the file system was never touched. *)
Definition never_saves (w : world) : Prop :=
  truthy (saveDirectory (options (this w))) = None /\ count is_fs w = 0%nat.

(** Timer identifiers are handed out in order, and the two remembered
    timers differ. *)
Definition timer_ids (w : world) : Prop :=
  (forall t tm, timers (rt w) !! t = Some tm -> (t < next_id (rt w))%nat) /\
  (forall t, reconnectTimeout (this w) = Some t -> (t < next_id (rt w))%nat) /\
  (forall t, pingTimeout (this w) = Some t -> (t < next_id (rt w))%nat) /\
  (forall a b, reconnectTimeout (this w) = Some a -> pingTimeout (this w) = Some b -> a <> b).

(** Socket identifiers are handed out in order. *)
Definition sockets_in_order (w : world) : Prop :=
  forall s st, sockets (rt w) !! s = Some st -> (s < next_id (rt w))%nat.

(** Every armed timer was armed by the instance for one of its two
    purposes, with the delay of that purpose. *)
Definition timer_shape (o : Options) (tm : timer) : Prop :=
  match callback tm with
  | ReconnectCallback =>
      repeating tm = false /\ (delay tm = reconnectDelay o \/ delay tm = 60000)
  | PingCallback => repeating tm = true /\ delay tm = 20000
  end.

Definition timers_in_shape (w : world) : Prop :=
  forall t tm, timers (rt w) !! t = Some tm -> timer_shape (options (this w)) tm.

(** The standard base64 alphabet, and the encoding with padding; the
    reference [base64ToUint8Array] is compared with. *)
Definition base64_char (n : N) : Ascii.ascii :=
  if (n <? 26)%N then Ascii.ascii_of_N (n + 65)%N
  else if (n <? 52)%N then Ascii.ascii_of_N (n + 71)%N
  else if (n <? 62)%N then Ascii.ascii_of_N (n - 4)%N
  else if (n =? 62)%N then Ascii.ascii_of_N 43
  else Ascii.ascii_of_N 47.

(** The padding character [=] *)
Definition pad : Ascii.ascii := Ascii.ascii_of_N 61.

Fixpoint base64_encode (data : bytes) : list Ascii.ascii :=
  match data with
  | x :: y :: z :: r =>
      let x := Byte.to_N x in
      let y := Byte.to_N y in
      let z := Byte.to_N z in
      base64_char (x / 4)%N :: base64_char (x mod 4 * 16 + y / 16)%N
        :: base64_char (y mod 16 * 4 + z / 64)%N :: base64_char (z mod 64)%N
        :: base64_encode r
  | [x; y] =>
      let x := Byte.to_N x in
      let y := Byte.to_N y in
      [base64_char (x / 4)%N; base64_char (x mod 4 * 16 + y / 16)%N;
       base64_char (y mod 16 * 4)%N; pad]
  | [x] =>
      let x := Byte.to_N x in
      [base64_char (x / 4)%N; base64_char (x mod 4 * 16)%N; pad; pad]
  | [] => []
  end.

(** A character of the encoding that is not padding. *)
Definition plain (c : Ascii.ascii) (n : N) : Prop :=
  sextet c = Some n /\ is_base64_char c = true /\ is_pad c = false /\
  is_ascii_whitespace c = false.

(** * Properties *)

Ltac wsimpl :=
  cbn [this rt socket options stats reconnectTimeout pingTimeout shouldReconnect
       zstdInitialized heap sockets timers next_id clock faults trace snapshots
       with_this with_rt set_socket set_reconnectTimeout set_pingTimeout
       set_shouldReconnect set_zstdInitialized set_heap set_sockets set_timers
       set_next_id set_clock set_faults set_trace set_snapshots
       imagesReceived bytesReceived connectedAt isConnected reconnectAttempts
       set_imagesReceived set_bytesReceived set_connectedAt set_isConnected
       set_reconnectAttempts fst snd] in *.

Ltac munfold :=
  unfold Deno_mkdir, Deno_writeFile, setTimeout, setInterval, clearTimeout,
    clearInterval, arm, socket_close, socket_send, socket_readyState,
    new_WebSocket, new_Date, Date_now, emit, fresh, update_stats,
    bind, ret, get, modify, throw, try_catch in *.

(** ** Rules for [keeps] *)

Section Keeps.
Context (I : world -> Prop).

Lemma keeps_ret {A} (a : A) : keeps I (ret a).
Proof. intros w H; exact H. Qed.

Lemma keeps_throw {A} t : keeps I (@throw A t).
Proof. intros w H; exact H. Qed.

Lemma keeps_get {A} (f : world -> A) : keeps I (get f).
Proof. intros w H; exact H. Qed.

Lemma keeps_bind {A B} (m : M A) (k : A -> M B) :
  keeps I m -> (forall a, keeps I (k a)) -> keeps I (bind m k).
Proof.
  intros Hm Hk w H. unfold bind. specialize (Hm w H).
  destruct (m w) as [[a|t] w']; cbn in *; [by apply Hk | done].
Qed.

Lemma keeps_try_catch {A} (m : M A) (h : thrown -> M A) :
  keeps I m -> (forall t, keeps I (h t)) -> keeps I (try_catch m h).
Proof.
  intros Hm Hh w H. unfold try_catch. specialize (Hm w H).
  destruct (m w) as [[a|t] w']; cbn in *; [done | by apply Hh].
Qed.

(** The state is read first: the continuation may use what was read. *)
Lemma keeps_bind_get {A B} (f : world -> A) (k : A -> M B) :
  (forall w, I w -> I (snd (k (f w) w))) -> keeps I (bind (get f) k).
Proof. intros Hk w H. unfold bind, get. by apply Hk. Qed.

Lemma keeps_modify (f : world -> world) :
  (forall w, I w -> I (f w)) -> keeps I (modify f).
Proof. intros Hf w H. by apply Hf. Qed.

Lemma keeps_lift {A} (r : result A) : keeps I (PixelSocket.lift r).
Proof. intros w H; exact H. Qed.

Lemma keeps_run {A} (m : M A) :
  keeps I m -> (forall t, keeps I (emit (Escaped t))) ->
  forall w, I w -> I (run m w).
Proof.
  intros Hm He w H. unfold run. specialize (Hm w H).
  destruct (m w) as [[a|t] w']; cbn [snd] in *; [done|]. by apply He.
Qed.
End Keeps.

(** ** Invariants along the structure of a method *)

Ltac is_prim m :=
  lazymatch m with
  | emit _ => idtac | update_stats _ => idtac | fresh => idtac
  | new_Date => idtac | Date_now => idtac
  | new_WebSocket _ => idtac | socket_send _ _ => idtac
  | socket_close _ => idtac | socket_readyState _ => idtac
  | setTimeout _ _ => idtac | setInterval _ _ => idtac
  | clearTimeout _ => idtac | clearInterval _ => idtac
  | Deno_mkdir _ => idtac | Deno_writeFile _ _ => idtac
  | modify _ => idtac | PixelSocket.zstdInit => idtac
  end.

(** A primitive is opened up and [closer] shows the invariant on each of
    its outcomes. *)
Ltac prim_by closer :=
  let w := fresh "w" in
  let H := fresh "H" in
  intros w H; unfold PixelSocket.zstdInit; munfold; repeat case_match; wsimpl;
  closer H.

Ltac keeps_with db closer :=
  repeat
    (first
       [ apply keeps_ret | apply keeps_throw | apply keeps_get | apply keeps_lift
       | solve [ eauto 2 with db ]
       | match goal with
         | |- keeps _ ?m => is_prim m; solve [ prim_by closer ]
         end
       | match goal with
         | |- keeps _ (bind _ _) => apply keeps_bind; [ | intros ? ]
         | |- keeps _ (try_catch _ _) => apply keeps_try_catch; [ | intros ? ]
         | |- keeps _ (match ?x with _ => _ end) => destruct x
         | |- keeps _ (let _ := _ in _) => cbv zeta
         end ]).

Ltac unfold_methods :=
  unfold Shared.connect, Shared.onopen, Shared.onerror, Shared.send,
    Shared.isConnected, Shared.getStats, Shared.ping_callback,
    Shared.reconnect_callback, PixelSocket.onclose, PixelSocket.handleMessage,
    PixelSocket.decompressAndUnpack, PixelSocket.ensureZstdInit,
    PixelSocket.processImage.

(** The steps of [on_socket] and [on_timer] around the handler. *)
Lemma on_socket_keeps (I : world -> Prop) s st m w :
  (forall v w, I w -> I (with_rt (fun r => set_sockets v r) w)) ->
  keeps I m -> (forall t, keeps I (emit (Escaped t))) ->
  I w -> I (on_socket s st m w).
Proof.
  intros Hs Hm He H. unfold on_socket. case_match; [|done].
  apply keeps_run; [done|done|]. by apply (Hs _ w).
Qed.

Ltac unfold_all_methods :=
  unfold Shared.connect, Shared.onopen, Shared.onerror, Shared.send,
    Shared.isConnected, Shared.ping_callback, Shared.disconnect,
    Shared.reconnect_callback, Shared.startPingInterval,
    PixelSocket.onclose, PixelSocket.scheduleReconnect,
    PixelSocket.handleMessage, PixelSocket.decompressAndUnpack,
    PixelSocket.ensureZstdInit, PixelSocket.processImage.

(** An invariant of every step not excluded by [skip] holds along a run. *)
Lemma steps_keep (I : world -> Prop) (skip : event -> bool) c :
  (forall e w, skip e = false -> I w -> I (PixelSocket.step c e w)) ->
  forall es w, forallb (fun e => negb (skip e)) es = true ->
    I w -> I (PixelSocket.steps c es w).
Proof.
  intros Hstep es. induction es as [|e es IH]; intros w Hes H; [exact H|].
  cbn in Hes. apply andb_prop in Hes as [He Hes].
  cbn. apply IH; [exact Hes|]. apply Hstep; [|exact H].
  by destruct (skip e).
Qed.

Lemma steps_keep_all (I : world -> Prop) c :
  (forall e w, I w -> I (PixelSocket.step c e w)) ->
  forall es w, I w -> I (PixelSocket.steps c es w).
Proof.
  intros Hstep es. induction es as [|e es IH]; intros w H; [exact H|].
  cbn. apply IH. by apply Hstep.
Qed.

(** ** The statistics object under the primitives *)

Lemma the_stats_same w w' :
  heap (rt w') = heap (rt w) -> stats (this w') = stats (this w) ->
  the_stats w' = the_stats w.
Proof. unfold the_stats. by intros -> ->. Qed.

(** ** Addresses stay in order *)

Lemma wf_next w w' :
  stats (this w') = stats (this w) ->
  snapshots (rt w') = snapshots (rt w) ->
  (next_id (rt w) <= next_id (rt w'))%nat ->
  wf w -> wf w'.
Proof.
  intros Hs Hp Hn [H1 H2]. unfold wf. rewrite Hs, Hp. split; [lia|].
  eapply Forall_impl; [exact H2|]. cbn. intros l [? ?]. split; [lia|done].
Qed.

Ltac wf_closer H :=
  first [ exact H
        | eapply wf_next; [| | | exact H]; wsimpl; first [reflexivity | lia] ].

Lemma wf_getStats : keeps wf Shared.getStats.
Proof.
  intros w [H1 H2]. unfold Shared.getStats. munfold. wsimpl.
  split; wsimpl; [lia|]. constructor; [split; lia|].
  eapply Forall_impl; [exact H2|]. cbn. intros l [? ?]. split; [lia|done].
Qed.

Create HintDb wf_db.
#[export] Hint Resolve wf_getStats : wf_db.

Lemma wf_connect : keeps wf Shared.connect.
Proof. unfold_all_methods. keeps_with wf_db wf_closer. Qed.

#[export] Hint Resolve wf_connect : wf_db.

Lemma wf_emit e : keeps wf (emit e).
Proof. intros w H; exact H. Qed.

Lemma wf_step c e w : wf w -> wf (PixelSocket.step c e w).
Proof.
  intros H. destruct e; cbn [PixelSocket.step];
    try (apply keeps_run; [|intros ?; by apply wf_emit|done]);
    try (apply on_socket_keeps; [by intros| |intros ?; by apply wf_emit|done]);
    try (unfold_all_methods; keeps_with wf_db wf_closer; fail).
  - unfold caller_writes. by case_match.
  - unfold caller_setTime. by repeat case_match.
  - unfold on_timer. destruct (timers (rt w) !! t) as [tm|]; [|done].
    set (w' := if repeating tm then w else _).
    assert (wf w') as H' by (subst w'; by destruct (repeating tm)).
    clearbody w'.
    destruct (callback tm); (apply keeps_run; [|intros ?; by apply wf_emit|done]);
      unfold_all_methods; keeps_with wf_db wf_closer.
Qed.

Lemma wf_new o : wf (PixelSocket.new_PixelSocket o).
Proof. split; cbn; [lia | constructor]. Qed.

Lemma wf_reachable c es o :
  wf (PixelSocket.steps c es (PixelSocket.new_PixelSocket o)).
Proof. apply steps_keep_all; [apply wf_step | apply wf_new]. Qed.

(** ** Counting effects *)

Lemma count_same p w w' : trace (rt w') = trace (rt w) -> count p w' = count p w.
Proof. unfold count, effects. by intros ->. Qed.

Lemma count_snoc p w w' e s :
  trace (rt w') = trace (rt w) ++ [(e, s)] ->
  count p w' = (count p w + if p e then 1 else 0)%nat.
Proof.
  unfold count, effects. intros ->.
  rewrite map_app, List.filter_app, length_app. cbn. by destruct (p e).
Qed.

Lemma count_emit p e w :
  count p (snd (emit e w)) = (count p w + if p e then 1 else 0)%nat.
Proof. by apply (count_snoc p w _ e (the_stats w)). Qed.


(** ** What the timer methods do *)

Ltac stats_simpl :=
  unfold the_stats in *; wsimpl; rewrite ?lookup_insert_eq; wsimpl.

Lemma scheduleReconnect_spec w :
  let n := reconnectAttempts (the_stats w) + 1 in
  let o := options (this w) in
  let d := if n <=? maxReconnectAttempts o then reconnectDelay o else 60000 in
  let t := next_id (rt w) in
  exists w' msg,
    PixelSocket.scheduleReconnect w = (Ok tt, w') /\
    this w' = set_reconnectTimeout (Some t) (this w) /\
    timers (rt w') =
      <[t := {| repeating := false; delay := d; callback := ReconnectCallback |}]>
        (cancel (reconnectTimeout (this w)) (timers (rt w))) /\
    the_stats w' = set_reconnectAttempts n (the_stats w) /\
    sockets (rt w') = sockets (rt w) /\
    snapshots (rt w') = snapshots (rt w) /\
    next_id (rt w') = S t /\
    effects w' = effects w ++ cleared ClearTimeout (reconnectTimeout (this w))
                   ++ [ConsoleLog msg; SetTimeout t d] /\
    last (trace (rt w')) = Some (SetTimeout t d, the_stats w').
Proof.
  intros n o d t. subst n o d t.
  unfold PixelSocket.scheduleReconnect. munfold.
  destruct (reconnectTimeout (this w)) as [t0|] eqn:E; wsimpl;
    do 2 eexists; (split; [reflexivity|]); wsimpl;
    rewrite ?E; unfold effects; wsimpl;
    rewrite ?map_app, ?last_snoc, <- ?app_assoc; cbn [map fst app cancel cleared];
    stats_simpl; repeat split; reflexivity.
Qed.

Lemma legacy_scheduleReconnect_spec w :
  let n := reconnectAttempts (the_stats w) + 1 in
  let d := reconnectDelay (options (this w)) in
  let t := next_id (rt w) in
  exists w' msg,
    LegacyPixelSocket.scheduleReconnect w = (Ok tt, w') /\
    this w' = set_reconnectTimeout (Some t) (this w) /\
    timers (rt w') =
      <[t := {| repeating := false; delay := d; callback := ReconnectCallback |}]>
        (cancel (reconnectTimeout (this w)) (timers (rt w))) /\
    the_stats w' = set_reconnectAttempts n (the_stats w) /\
    effects w' = effects w ++ cleared ClearTimeout (reconnectTimeout (this w))
                   ++ [ConsoleLog msg; SetTimeout t d] /\
    last (trace (rt w')) = Some (SetTimeout t d, the_stats w').
Proof.
  intros n d t. subst n d t.
  unfold LegacyPixelSocket.scheduleReconnect. munfold.
  destruct (reconnectTimeout (this w)) as [t0|] eqn:E; wsimpl;
    do 2 eexists; (split; [reflexivity|]); wsimpl;
    rewrite ?E; unfold effects; wsimpl;
    rewrite ?map_app, ?last_snoc, <- ?app_assoc; cbn [map fst app cancel cleared];
    stats_simpl; repeat split; reflexivity.
Qed.

Lemma startPingInterval_spec w :
  let t := next_id (rt w) in
  exists w',
    Shared.startPingInterval w = (Ok tt, w') /\
    this w' = set_pingTimeout (Some t) (this w) /\
    timers (rt w') =
      <[t := {| repeating := true; delay := 20000; callback := PingCallback |}]>
        (cancel (pingTimeout (this w)) (timers (rt w))) /\
    heap (rt w') = heap (rt w) /\
    sockets (rt w') = sockets (rt w) /\
    effects w' = effects w ++ cleared ClearInterval (pingTimeout (this w))
                   ++ [SetInterval t 20000].
Proof.
  intros t. subst t. unfold Shared.startPingInterval. munfold.
  destruct (pingTimeout (this w)) as [t0|] eqn:E; wsimpl;
    eexists; (split; [reflexivity|]); wsimpl;
    rewrite ?E; unfold effects; wsimpl;
    rewrite ?map_app, <- ?app_assoc; cbn [map fst app cancel cleared];
    repeat split; reflexivity.
Qed.

Lemma disconnect_spec w :
  exists w',
    Shared.disconnect w = (Ok tt, w') /\
    shouldReconnect (this w') = false /\
    reconnectTimeout (this w') = None /\
    pingTimeout (this w') = None /\
    socket (this w') = None /\
    timers (rt w') =
      cancel (pingTimeout (this w)) (cancel (reconnectTimeout (this w)) (timers (rt w))) /\
    isConnected (the_stats w') = false /\
    effects w' = effects w ++ cleared ClearTimeout (reconnectTimeout (this w))
                   ++ cleared ClearInterval (pingTimeout (this w))
                   ++ cleared SocketClose (socket (this w)).
Proof.
  unfold Shared.disconnect. munfold. wsimpl.
  destruct (reconnectTimeout (this w)) as [t0|] eqn:E0; wsimpl;
    destruct (pingTimeout (this w)) as [t1|] eqn:E1; wsimpl;
    destruct (socket (this w)) as [s|] eqn:E2; wsimpl;
    try (destruct (sockets (rt w) !! s) as [[]|]; cbn [default from_option id]; wsimpl);
    eexists; (split; [reflexivity|]); wsimpl;
    rewrite ?E0, ?E1, ?E2; unfold effects; wsimpl;
    rewrite ?map_app, <- ?app_assoc; cbn [map fst app cancel cleared];
    rewrite ?app_nil_r; stats_simpl; repeat split; reflexivity.
Qed.

(** ** What is armed is remembered *)

Lemma tracked_insert_cancel_reconnect w w' tm :
  callback tm = ReconnectCallback ->
  this w' = set_reconnectTimeout (Some (next_id (rt w))) (this w) ->
  timers (rt w') = <[next_id (rt w) := tm]> (cancel (reconnectTimeout (this w)) (timers (rt w))) ->
  timers_tracked w -> timers_tracked w'.
Proof.
  intros Hcb Hthis Htm H t tm'. unfold tracked. rewrite Htm, Hthis. wsimpl.
  rewrite lookup_insert. case_decide as Ht.
  - intros [= <-]. left. by subst.
  - intros Hl. assert (timers (rt w) !! t = Some tm' /\ reconnectTimeout (this w) <> Some t)
      as [Hl' Hne].
    { destruct (reconnectTimeout (this w)) as [t0|]; cbn [cancel] in Hl; [|done].
      rewrite lookup_delete in Hl. case_decide; [done|]. split; [done|congruence]. }
    destruct (H t tm' Hl') as [[? ?]|[? ?]]; [done|]. by right.
Qed.

Lemma tracked_insert_cancel_ping w w' tm :
  callback tm = PingCallback ->
  this w' = set_pingTimeout (Some (next_id (rt w))) (this w) ->
  timers (rt w') = <[next_id (rt w) := tm]> (cancel (pingTimeout (this w)) (timers (rt w))) ->
  timers_tracked w -> timers_tracked w'.
Proof.
  intros Hcb Hthis Htm H t tm'. unfold tracked. rewrite Htm, Hthis. wsimpl.
  rewrite lookup_insert. case_decide as Ht.
  - intros [= <-]. right. by subst.
  - intros Hl. assert (timers (rt w) !! t = Some tm' /\ pingTimeout (this w) <> Some t)
      as [Hl' Hne].
    { destruct (pingTimeout (this w)) as [t0|]; cbn [cancel] in Hl; [|done].
      rewrite lookup_delete in Hl. case_decide; [done|]. split; [done|congruence]. }
    destruct (H t tm' Hl') as [[? ?]|[? ?]]; [by left|done].
Qed.

Lemma tracked_scheduleReconnect : keeps timers_tracked PixelSocket.scheduleReconnect.
Proof.
  intros w H. destruct (scheduleReconnect_spec w) as (w' & msg & -> & Ht & Htm & _).
  cbn [snd]. eapply tracked_insert_cancel_reconnect; [| exact Ht | exact Htm | exact H].
  reflexivity.
Qed.

Lemma tracked_startPingInterval : keeps timers_tracked Shared.startPingInterval.
Proof.
  intros w H. destruct (startPingInterval_spec w) as (w' & -> & Ht & Htm & _).
  cbn [snd]. eapply tracked_insert_cancel_ping; [| exact Ht | exact Htm | exact H].
  reflexivity.
Qed.

(** After [disconnect()] nothing is armed. *)
Lemma disconnect_cancels_all w :
  timers_tracked w -> timers (rt (snd (Shared.disconnect w))) = ∅.
Proof.
  intros H. destruct (disconnect_spec w) as (w' & -> & _ & _ & _ & _ & Htm & _).
  cbn [snd]. rewrite Htm. apply map_eq. intros t. rewrite lookup_empty.
  destruct (cancel _ _ !! t) as [tm|] eqn:Hl; [|done]. exfalso.
  assert (timers (rt w) !! t = Some tm /\ reconnectTimeout (this w) <> Some t
          /\ pingTimeout (this w) <> Some t) as (Hl' & Hr & Hp).
  { destruct (pingTimeout (this w)) as [t1|], (reconnectTimeout (this w)) as [t0|];
      cbn [cancel] in Hl; rewrite ?lookup_delete in Hl; repeat case_decide;
      try done; repeat split; congruence. }
  destruct (H t tm Hl') as [[? ?]|[? ?]]; done.
Qed.

Lemma tracked_disconnect : keeps timers_tracked Shared.disconnect.
Proof.
  intros w H t tm. rewrite (disconnect_cancels_all w H), lookup_empty. done.
Qed.

Create HintDb tracked_db.
#[export] Hint Resolve tracked_scheduleReconnect tracked_startPingInterval
  tracked_disconnect : tracked_db.

Ltac tracked_closer H := exact H.

Lemma tracked_emit e : keeps timers_tracked (emit e).
Proof. intros w H; exact H. Qed.

Lemma tracked_set_sockets v w :
  timers_tracked w -> timers_tracked (with_rt (fun r => set_sockets v r) w).
Proof. intros H; exact H. Qed.

Lemma tracked_connect : keeps timers_tracked Shared.connect.
Proof. unfold_methods. keeps_with tracked_db tracked_closer. Qed.

#[export] Hint Resolve tracked_connect : tracked_db.

Lemma tracked_on_timer t w : timers_tracked w -> timers_tracked (on_timer t w).
Proof.
  intros H. unfold on_timer. destruct (timers (rt w) !! t) as [tm|] eqn:E; [|done].
  set (w' := if repeating tm then w else _).
  assert (timers_tracked w') as H'.
  { subst w'. destruct (repeating tm); [done|].
    intros t' tm'. wsimpl. rewrite lookup_delete. case_decide; [done|]. apply H. }
  clearbody w'.
  destruct (callback tm); (apply keeps_run; [|intros ?; apply tracked_emit|done]);
    unfold_methods; keeps_with tracked_db tracked_closer.
Qed.

Lemma tracked_step c e w : timers_tracked w -> timers_tracked (PixelSocket.step c e w).
Proof.
  intros H. destruct e; cbn [PixelSocket.step];
    try (apply keeps_run; [|intros ?; apply tracked_emit|done]);
    try (apply on_socket_keeps;
           [apply tracked_set_sockets| |intros ?; apply tracked_emit|done]);
    try (unfold_methods; keeps_with tracked_db tracked_closer; fail).
  - unfold caller_writes. by case_match.
  - unfold caller_setTime. by repeat case_match.
  - by apply tracked_on_timer.
Qed.

Lemma tracked_reachable c es o :
  timers_tracked (PixelSocket.steps c es (PixelSocket.new_PixelSocket o)).
Proof.
  apply steps_keep_all; [apply tracked_step|].
  intros t tm. cbn. by rewrite lookup_empty.
Qed.

(** ** Once stopped, no reconnect is scheduled *)

Lemma count_effects_app p w w' l :
  effects w' = effects w ++ l ->
  count p w' = (count p w + length (List.filter p l))%nat.
Proof. unfold count. intros ->. by rewrite List.filter_app, length_app. Qed.

(** Decides whether a log line starts like the first line of [connect]. *)
Ltac prefix_eval :=
  repeat
    match goal with
    | |- context [starts_with ?a ?b] =>
        let r := eval vm_compute in (starts_with a b) in
        change (starts_with a b) with r
    end.

Ltac count_solve H :=
  rewrite <- H; unfold count, effects; wsimpl;
  rewrite ?map_app, ?List.filter_app, ?length_app;
  cbn -[starts_with]; prefix_eval; cbn -[starts_with]; lia.

Ltac stopped_closer H :=
  let H1 := fresh in
  let H2 := fresh in
  let H3 := fresh in
  destruct H as (H1 & H2 & H3);
  split; [exact H1 | split; [exact H2 | count_solve H3]].

Lemma cancel_lookup o (m : gmap nat timer) t tm :
  cancel o m !! t = Some tm -> m !! t = Some tm.
Proof.
  destruct o as [t0|]; cbn [cancel]; [|done].
  rewrite lookup_delete. by case_decide.
Qed.

Lemma filter_cleared_nil p mk o :
  (forall t, p (mk t) = false) -> List.filter p (cleared mk o) = [].
Proof. intros H. destruct o; cbn; [by rewrite H | done]. Qed.

Lemma stopped_startPingInterval n : keeps (stopped n) Shared.startPingInterval.
Proof.
  intros w (H1 & H2 & H3).
  destruct (startPingInterval_spec w) as (w' & -> & Ht & Htm & _ & _ & He).
  cbn [snd]. split; [by rewrite Ht | split].
  - intros t tm. rewrite Htm, lookup_insert. case_decide; [by intros [= <-]|].
    intros Hl. apply cancel_lookup in Hl. eauto.
  - rewrite (count_effects_app _ _ _ _ He), List.filter_app, filter_cleared_nil by done.
    cbn. lia.
Qed.

Lemma stopped_disconnect n : keeps (stopped n) Shared.disconnect.
Proof.
  intros w (H1 & H2 & H3).
  destruct (disconnect_spec w) as (w' & -> & Hs & _ & _ & _ & Htm & _ & He).
  cbn [snd]. split; [done | split].
  - intros t tm. rewrite Htm. intros Hl. do 2 apply cancel_lookup in Hl. eauto.
  - rewrite (count_effects_app _ _ _ _ He), !List.filter_app, !filter_cleared_nil by done.
    cbn. lia.
Qed.

Create HintDb stopped_db.
#[export] Hint Resolve stopped_startPingInterval stopped_disconnect : stopped_db.

Lemma stopped_emit n e : is_SetTimeout e = false -> keeps (stopped n) (emit e).
Proof.
  intros He w (H1 & H2 & H3). split; [exact H1 | split; [exact H2 |]].
  rewrite count_emit, He. lia.
Qed.

Lemma stopped_set_sockets n v w :
  stopped n w -> stopped n (with_rt (fun r => set_sockets v r) w).
Proof. intros H; exact H. Qed.

Lemma stopped_connect n : keeps (stopped n) Shared.connect.
Proof. unfold_methods. keeps_with stopped_db stopped_closer. Qed.

#[export] Hint Resolve stopped_connect : stopped_db.

(** With the stop flag set, [onclose] notifies the caller and leaves it
    at that. *)
Lemma stopped_onclose n code reason : keeps (stopped n) (PixelSocket.onclose code reason).
Proof.
  unfold PixelSocket.onclose. apply keeps_bind; [keeps_with stopped_db stopped_closer|].
  intros _. apply keeps_bind_get. intros w H. unfold id.
  destruct H as (H1 & H2 & H3). rewrite H1. cbn. done.
Qed.

Lemma stopped_on_timer n t w : stopped n w -> stopped n (on_timer t w).
Proof.
  intros H. unfold on_timer. destruct (timers (rt w) !! t) as [tm|] eqn:E; [|done].
  assert (callback tm = PingCallback) as -> by (destruct H as (_ & H2 & _); eauto).
  set (w' := if repeating tm then w else _).
  assert (stopped n w') as H'.
  { subst w'. destruct (repeating tm); [done|].
    destruct H as (H1 & H2 & H3). split; [exact H1 | split; [|exact H3]].
    intros t' tm'. wsimpl. rewrite lookup_delete. case_decide; [done|]. apply H2. }
  clearbody w'.
  apply keeps_run; [|intros ?; by apply stopped_emit|done].
  unfold_methods; keeps_with stopped_db stopped_closer.
Qed.

Lemma stopped_step c n e w : stopped n w -> stopped n (PixelSocket.step c e w).
Proof.
  intros H. destruct e; cbn [PixelSocket.step];
    try (apply keeps_run; [|intros ?; by apply stopped_emit|done]);
    try (apply on_socket_keeps;
           [apply stopped_set_sockets| |intros ?; by apply stopped_emit|done]);
    try apply stopped_onclose;
    try (unfold_methods; keeps_with stopped_db stopped_closer; fail).
  - unfold caller_writes. by case_match.
  - unfold caller_setTime. by repeat case_match.
  - by apply stopped_on_timer.
Qed.

Lemma run_ok {A} (m : M A) w a w' : m w = (Ok a, w') -> run m w = w'.
Proof. unfold run. by intros ->. Qed.

(** ** After [disconnect()] nothing happens until the caller connects *)

Ltac idle_closer H :=
  let H1 := fresh in
  let H2 := fresh in
  let H3 := fresh in
  let H4 := fresh in
  destruct H as (H1 & H2 & H3 & H4);
  split; [exact H1 | split; [exact H2 | split; [exact H3 | count_solve H4]]].

Lemma idle_emit n e : is_connect_call e = false -> keeps (idle n) (emit e).
Proof.
  intros He w (H1 & H2 & H3 & H4).
  split; [exact H1 | split; [exact H2 | split; [exact H3 |]]].
  rewrite count_emit, He. lia.
Qed.

Lemma idle_set_sockets n v w :
  idle n w -> idle n (with_rt (fun r => set_sockets v r) w).
Proof. intros H; exact H. Qed.

Lemma idle_disconnect n : keeps (idle n) Shared.disconnect.
Proof.
  intros w (H1 & H2 & H3 & H4).
  destruct (disconnect_spec w) as (w' & -> & Hs & _ & _ & Hk & Htm & _ & He).
  cbn [snd]. split; [done | split; [done | split]].
  - rewrite Htm, H3. destruct (pingTimeout (this w)), (reconnectTimeout (this w));
      cbn [cancel]; by rewrite ?delete_empty.
  - rewrite (count_effects_app _ _ _ _ He), !List.filter_app, !filter_cleared_nil by done.
    cbn. lia.
Qed.

(** Without a socket [onopen] fails at the subscription, before the
    keep-alive is started. *)
Lemma onopen_without_socket w :
  socket (this w) = None ->
  exists t w' msg s,
    Shared.onopen w = (Throw t, w') /\
    this w' = this w /\
    timers (rt w') = timers (rt w) /\
    trace (rt w') = trace (rt w) ++ [(ConsoleLog ("[PixelSocket] Connected to " +:+ msg), s)].
Proof.
  intros Hs. unfold Shared.onopen. munfold. wsimpl. rewrite Hs.
  do 4 eexists. split; [reflexivity|]. wsimpl. repeat split; reflexivity.
Qed.

Lemma idle_onopen n : keeps (idle n) Shared.onopen.
Proof.
  intros w (H1 & H2 & H3 & H4).
  destruct (onopen_without_socket w H2) as (t & w' & msg & s & -> & Ht & Htm & Htr).
  cbn [snd]. unfold idle. rewrite Ht, Htm. repeat split; try done.
  rewrite (count_snoc _ _ _ _ _ Htr). cbn -[starts_with]. prefix_eval.
  cbn -[starts_with]. lia.
Qed.

Lemma idle_onclose n code reason : keeps (idle n) (PixelSocket.onclose code reason).
Proof.
  unfold PixelSocket.onclose. apply keeps_bind; [keeps_with core idle_closer|].
  intros _. apply keeps_bind_get. intros w H. unfold id.
  destruct H as (H1 & H2 & H3 & H4). rewrite H1. cbn. done.
Qed.

Create HintDb idle_db.
#[export] Hint Resolve idle_disconnect idle_onopen idle_onclose : idle_db.

Lemma idle_step c n e w :
  is_Call_connect e = false -> idle n w -> idle n (PixelSocket.step c e w).
Proof.
  intros He H. destruct e; try discriminate He; cbn [PixelSocket.step];
    try (apply keeps_run; [|intros ?; by apply idle_emit|done]);
    try (apply on_socket_keeps;
           [apply idle_set_sockets| |intros ?; by apply idle_emit|done]);
    try (unfold Shared.send, Shared.isConnected, Shared.getStats, Shared.onerror,
           PixelSocket.handleMessage, PixelSocket.decompressAndUnpack,
           PixelSocket.ensureZstdInit, PixelSocket.processImage;
         keeps_with idle_db idle_closer; fail).
  - unfold caller_writes. by case_match.
  - unfold caller_setTime. by repeat case_match.
  - unfold on_timer. destruct H as (H1 & H2 & H3 & H4).
    rewrite H3, lookup_empty. by repeat split.
Qed.

(** ** A snapshot is out of the reach of the instance *)

Ltac snapshot_closer H :=
  let H1 := fresh in
  let H2 := fresh in
  let H3 := fresh in
  destruct H as (H1 & H2 & H3);
  split; [wsimpl; lia | split; [exact H2 |]];
  wsimpl; rewrite ?lookup_insert_ne by (first [congruence | lia]); exact H3.

Lemma snapshot_getStats l v : keeps (snapshot_holds l v) Shared.getStats.
Proof.
  intros w (H1 & H2 & H3). unfold Shared.getStats. munfold. wsimpl.
  split; [wsimpl; lia | split; [exact H2|]].
  wsimpl. rewrite lookup_insert_ne by lia. exact H3.
Qed.

Create HintDb snapshot_db.
#[export] Hint Resolve snapshot_getStats : snapshot_db.

Lemma snapshot_connect l v : keeps (snapshot_holds l v) Shared.connect.
Proof. unfold_all_methods. keeps_with snapshot_db snapshot_closer. Qed.

#[export] Hint Resolve snapshot_connect : snapshot_db.

Lemma snapshot_emit l v e : keeps (snapshot_holds l v) (emit e).
Proof. intros w H; exact H. Qed.

Lemma snapshot_step c l v e w :
  writes_to l e = false ->
  snapshot_holds l v w -> snapshot_holds l v (PixelSocket.step c e w).
Proof.
  intros He H. destruct e; cbn [PixelSocket.step];
    try (apply keeps_run; [|intros ?; by apply snapshot_emit|done]);
    try (apply on_socket_keeps; [by intros| |intros ?; by apply snapshot_emit|done]);
    try (unfold_all_methods; keeps_with snapshot_db snapshot_closer; fail).
  - cbn in He. apply bool_decide_eq_false in He.
    unfold caller_writes. case_match; [|done].
    destruct H as (H1 & H2 & H3). split; [done | split; [done|]].
    wsimpl. by rewrite lookup_insert_ne.
  - unfold caller_setTime. destruct (heap (rt w) !! l0) as [[|]|] eqn:E; try done.
    destruct H as (H1 & H2 & H3). split; [done | split; [done|]].
    wsimpl. rewrite lookup_insert_ne; [done|]. intros ->. congruence.
  - unfold on_timer. destruct (timers (rt w) !! t) as [tm|]; [|done].
    set (w' := if repeating tm then w else _).
    assert (snapshot_holds l v w') as H' by (subst w'; by destruct (repeating tm)).
    clearbody w'.
    destruct (callback tm); (apply keeps_run; [|intros ?; by apply snapshot_emit|done]);
      unfold_all_methods; keeps_with snapshot_db snapshot_closer.
Qed.

(** ** The reconnect counter is reset by [onopen] only *)

Ltac floor_closer H :=
  let H1 := fresh in
  let H2 := fresh in
  destruct H as (H1 & H2);
  split; [wsimpl; lia |];
  unfold the_stats in *; wsimpl;
  rewrite ?lookup_insert_eq, ?lookup_insert_ne by lia; wsimpl;
  first [exact H2 | lia].

Lemma floor_getStats n : keeps (attempts_at_least n) Shared.getStats.
Proof.
  intros w (H1 & H2). unfold Shared.getStats. munfold. wsimpl.
  split; [wsimpl; lia|]. unfold the_stats in *. wsimpl.
  rewrite lookup_insert_ne by lia. exact H2.
Qed.

Create HintDb floor_db.
#[export] Hint Resolve floor_getStats : floor_db.

Lemma floor_connect n : keeps (attempts_at_least n) Shared.connect.
Proof. unfold_all_methods. keeps_with floor_db floor_closer. Qed.

#[export] Hint Resolve floor_connect : floor_db.

Lemma floor_emit n e : keeps (attempts_at_least n) (emit e).
Proof. intros w H; exact H. Qed.

Lemma floor_step c n e w :
  is_Socket_open e = false -> wf w ->
  attempts_at_least n w -> attempts_at_least n (PixelSocket.step c e w).
Proof.
  intros He Hwf H. destruct e; try discriminate He; cbn [PixelSocket.step];
    try (apply keeps_run; [|intros ?; by apply floor_emit|done]);
    try (apply on_socket_keeps; [by intros| |intros ?; by apply floor_emit|done]);
    try (unfold_all_methods; keeps_with floor_db floor_closer; fail).
  - unfold caller_writes. case_match; [|done].
    apply bool_decide_eq_true in H0. destruct Hwf as [_ Hsn].
    rewrite Forall_forall in Hsn. destruct (Hsn _ H0) as [_ Hne].
    destruct H as (H1 & H2). split; [done|].
    unfold the_stats in *. wsimpl. by rewrite lookup_insert_ne.
  - unfold caller_setTime. destruct (heap (rt w) !! l) as [[|]|] eqn:E; try done.
    destruct H as (H1 & H2). split; [done|].
    unfold the_stats in *. wsimpl.
    destruct (decide (l = stats (this w))) as [->|Hne].
    + rewrite E in H2. rewrite lookup_insert_eq. cbn in *. exact H2.
    + by rewrite lookup_insert_ne.
  - unfold on_timer. destruct (timers (rt w) !! t) as [tm|]; [|done].
    set (w' := if repeating tm then w else _).
    assert (attempts_at_least n w') as H' by (subst w'; by destruct (repeating tm)).
    clearbody w'.
    destruct (callback tm); (apply keeps_run; [|intros ?; by apply floor_emit|done]);
      unfold_all_methods; keeps_with floor_db floor_closer.
Qed.

(** ** Handling a frame leaves the connection alone *)





(** A handler of [try_catch] that returns makes the whole return. *)
Lemma try_catch_returns {A} (m : M A) (h : thrown -> M A) w :
  (forall t w', exists a w'', h t w' = (Ok a, w'')) ->
  exists a w', try_catch m h w = (Ok a, w').
Proof.
  intros Hh. unfold try_catch. destruct (m w) as [[a|t] w']; [by eauto|].
  apply Hh.
Qed.

Lemma handleMessage_returns c data w :
  exists w', PixelSocket.handleMessage c data w = (Ok tt, w').
Proof.
  destruct (try_catch_returns
              (match data with
               | Binary compressed =>
                   do object <- PixelSocket.decompressAndUnpack c compressed in
                   match object with
                   | None | Some PixelSocket.Falsy =>
                       emit (ConsoleError "[Client] Failed to decompress or unpack message")
                   | Some (PixelSocket.Object type payload) =>
                       if bool_decide (type = Some "notification-from-pixel-socket")
                       then PixelSocket.processImage payload
                       else ret tt
                   end
               | Text _ => ret tt
               end)
              (fun error =>
                 let err := orError "Failed to process message" error in
                 emit (ConsoleError "[PixelSocket] Error processing message:") >>
                 emit (OnError err)) w) as ([] & w' & H).
  - intros t w'. cbv zeta. munfold. do 2 eexists. reflexivity.
  - by exists w'.
Qed.

(** ** The newer class never invokes an image callback *)

Ltac callbacks_closer H := unfold image_callbacks in *; count_solve H.

Lemma callbacks_getStats n : keeps (image_callbacks n) Shared.getStats.
Proof. intros w H. exact H. Qed.

Create HintDb callbacks_db.
#[export] Hint Resolve callbacks_getStats : callbacks_db.

Lemma callbacks_emit n e :
  is_image_callback e = false -> keeps (image_callbacks n) (emit e).
Proof. intros He w H. unfold image_callbacks in *. rewrite count_emit, He. lia. Qed.

Lemma callbacks_connect n : keeps (image_callbacks n) Shared.connect.
Proof. unfold_all_methods. keeps_with callbacks_db callbacks_closer. Qed.

#[export] Hint Resolve callbacks_connect : callbacks_db.

Lemma callbacks_step c n e w :
  image_callbacks n w -> image_callbacks n (PixelSocket.step c e w).
Proof.
  intros H. destruct e; cbn [PixelSocket.step];
    try (apply keeps_run; [|intros ?; by apply callbacks_emit|done]);
    try (apply on_socket_keeps; [by intros| |intros ?; by apply callbacks_emit|done]);
    try (unfold_all_methods; keeps_with callbacks_db callbacks_closer; fail).
  - unfold caller_writes. by case_match.
  - unfold caller_setTime. by repeat case_match.
  - unfold on_timer. destruct (timers (rt w) !! t) as [tm|]; [|done].
    set (w' := if repeating tm then w else _).
    assert (image_callbacks n w') as H' by (subst w'; by destruct (repeating tm)).
    clearbody w'.
    destruct (callback tm); (apply keeps_run; [|intros ?; by apply callbacks_emit|done]);
      unfold_all_methods; keeps_with callbacks_db callbacks_closer.
Qed.

(** ** The close handler of either class *)

(** [onclose] up to its decision: the flag is lowered and the caller is
    told; the result is the state the decision is taken in. *)
Lemma onclose_prefix w code reason :
  exists w1 msg,
    this w1 = this w /\
    timers (rt w1) = timers (rt w) /\
    next_id (rt w1) = next_id (rt w) /\
    the_stats w1 = set_isConnected false (the_stats w) /\
    effects w1 = effects w ++ [ConsoleLog msg; OnDisconnect code reason] /\
    PixelSocket.onclose code reason w =
      (if shouldReconnect (this w) && autoReconnect (options (this w))
       then PixelSocket.scheduleReconnect else ret tt) w1 /\
    LegacyPixelSocket.onclose code reason w =
      (if shouldReconnect (this w) && autoReconnect (options (this w))
          && (reconnectAttempts (the_stats w) <? maxReconnectAttempts (options (this w)))
       then LegacyPixelSocket.scheduleReconnect else ret tt) w1.
Proof.
  eexists (snd ((update_stats (set_isConnected false) >>
                 emit (ConsoleLog ("[PixelSocket] Disconnected: " +:+ pretty code
                                     +:+ " - " +:+ reason)) >>
                 emit (OnDisconnect code reason)) w)), _.
  unfold PixelSocket.onclose, LegacyPixelSocket.onclose. munfold. wsimpl.
  unfold effects, id. wsimpl. rewrite !map_app, <- !app_assoc. cbn [map fst app].
  stats_simpl. repeat split; reflexivity.
Qed.

Lemma onclose_schedules w code reason :
  shouldReconnect (this w) = true ->
  autoReconnect (options (this w)) = true ->
  let n := reconnectAttempts (the_stats w) in
  let o := options (this w) in
  let t := next_id (rt w) in
  let d := if n + 1 <=? maxReconnectAttempts o then reconnectDelay o else 60000 in
  exists w' msg1 msg2 st,
    PixelSocket.onclose code reason w = (Ok tt, w') /\
    reconnectAttempts (the_stats w') = n + 1 /\
    reconnectTimeout (this w') = Some t /\
    timers (rt w') =
      <[t := {| repeating := false; delay := d; callback := ReconnectCallback |}]>
        (cancel (reconnectTimeout (this w)) (timers (rt w))) /\
    effects w' = effects w ++ [ConsoleLog msg1; OnDisconnect code reason]
                   ++ cleared ClearTimeout (reconnectTimeout (this w))
                   ++ [ConsoleLog msg2; SetTimeout t d] /\
    last (trace (rt w')) = Some (SetTimeout t d, st) /\
    reconnectAttempts st = n + 1.
Proof.
  intros Hs Ha n o t d. subst n o t d.
  destruct (onclose_prefix w code reason) as (w1 & msg1 & Ht & Htm & Hn & Hst & He & Hp & _).
  rewrite Hs, Ha in Hp. cbn [andb] in Hp.
  destruct (scheduleReconnect_spec w1)
    as (w' & msg2 & Hr & Ht' & Htm' & Hst' & _ & _ & _ & He' & Hl).
  rewrite Ht, Htm, Hn, Hst in *. wsimpl.
  exists w', msg1, msg2, (the_stats w').
  split; [by rewrite Hp|]. split; [by rewrite Hst'|]. split; [by rewrite Ht'|].
  split; [exact Htm'|]. split; [by rewrite He', He, <- app_assoc|].
  split; [exact Hl | by rewrite Hst'].
Qed.

Lemma legacy_onclose_schedules w code reason :
  shouldReconnect (this w) = true ->
  autoReconnect (options (this w)) = true ->
  reconnectAttempts (the_stats w) < maxReconnectAttempts (options (this w)) ->
  exists w' st,
    LegacyPixelSocket.onclose code reason w = (Ok tt, w') /\
    reconnectAttempts (the_stats w') = reconnectAttempts (the_stats w) + 1 /\
    reconnectTimeout (this w') = Some (next_id (rt w)) /\
    timers (rt w') =
      <[next_id (rt w) := {| repeating := false;
                             delay := reconnectDelay (options (this w));
                             callback := ReconnectCallback |}]>
        (cancel (reconnectTimeout (this w)) (timers (rt w))) /\
    last (trace (rt w')) =
      Some (SetTimeout (next_id (rt w)) (reconnectDelay (options (this w))), st).
Proof.
  intros Hs Ha Hlt.
  destruct (onclose_prefix w code reason) as (w1 & msg1 & Ht & Htm & Hn & Hst & He & _ & Hp).
  apply Z.ltb_lt in Hlt. rewrite Hs, Ha, Hlt in Hp. cbn [andb] in Hp.
  destruct (legacy_scheduleReconnect_spec w1)
    as (w' & msg2 & Hr & Ht' & Htm' & Hst' & He' & Hl).
  rewrite Ht, Htm, Hn, Hst in *. wsimpl.
  exists w', (the_stats w').
  split; [by rewrite Hp|]. split; [by rewrite Hst'|]. split; [by rewrite Ht'|].
  split; [exact Htm' | exact Hl].
Qed.

Lemma legacy_onclose_gives_up w code reason :
  maxReconnectAttempts (options (this w)) <= reconnectAttempts (the_stats w) ->
  exists w' msg,
    LegacyPixelSocket.onclose code reason w = (Ok tt, w') /\
    this w' = this w /\
    timers (rt w') = timers (rt w) /\
    reconnectAttempts (the_stats w') = reconnectAttempts (the_stats w) /\
    effects w' = effects w ++ [ConsoleLog msg; OnDisconnect code reason].
Proof.
  intros Hge.
  destruct (onclose_prefix w code reason) as (w1 & msg1 & Ht & Htm & Hn & Hst & He & _ & Hp).
  apply Z.ltb_ge in Hge. rewrite Hge, !andb_false_r in Hp.
  exists w1, msg1. rewrite Hp, Hst. by repeat split.
Qed.

(** [onopen] ends with the counter at 0, also when it fails. *)
Lemma onopen_resets_counter w :
  reconnectAttempts (the_stats (run Shared.onopen w)) = 0.
Proof.
  unfold run, Shared.onopen, Shared.startPingInterval. munfold. wsimpl.
  repeat case_match; simplify_eq; wsimpl; stats_simpl; reflexivity.
Qed.

(** When the reconnect timer fires, [connect] is called. *)
Lemma reconnect_callback_connects w :
  (count is_connect_call w < count is_connect_call (run Shared.reconnect_callback w))%nat.
Proof.
  unfold run, Shared.reconnect_callback, Shared.connect. munfold. wsimpl.
  destruct (ctor_throws (faults (rt w))); wsimpl;
    unfold count, effects; wsimpl;
    rewrite ?map_app, ?List.filter_app, ?length_app;
    cbn -[starts_with]; prefix_eval; cbn -[starts_with]; lia.
Qed.

Lemma reconnect_timer_connects c w t tm :
  timers (rt w) !! t = Some tm -> callback tm = ReconnectCallback ->
  (count is_connect_call w
   < count is_connect_call (PixelSocket.step c (Timer_fires t) w))%nat.
Proof.
  intros Hl Hcb. cbn [PixelSocket.step]. unfold on_timer. rewrite Hl, Hcb.
  eapply Nat.le_lt_trans; [|apply reconnect_callback_connects].
  destruct (repeating tm); [done|]. by apply Nat.eq_le_incl, count_same.
Qed.

(** ** Reconnecting *)

(** C1, as amended. In the newer class every close event met with
    auto-reconnect enabled and [disconnect()] not called schedules a
    reconnect, whatever the counter: the counter is incremented first, the
    delay is the configured one while the incremented counter is at most
    the configured maximum and 60000 ms beyond it, the pending timer is
    cleared before the new one is armed, and the armed timer calls
    [connect] when it fires. The counter is 0 after every open event and no
    other event lowers it. In the older class a close event schedules a
    reconnect, always with the configured delay, only while the counter is
    below the maximum; from then on it schedules nothing. *)
Theorem reconnect_policy (c : PixelSocket.Codec) (w : world) (code : Z) (reason : string) :
  wf w ->
  shouldReconnect (this w) = true ->
  autoReconnect (options (this w)) = true ->
  let n := reconnectAttempts (the_stats w) in
  let o := options (this w) in
  let t := next_id (rt w) in
  let d := if n + 1 <=? maxReconnectAttempts o then reconnectDelay o else 60000 in
  (exists w' msg1 msg2 st,
     PixelSocket.onclose code reason w = (Ok tt, w') /\
     reconnectAttempts (the_stats w') = n + 1 /\
     reconnectTimeout (this w') = Some t /\
     timers (rt w') =
       <[t := {| repeating := false; delay := d; callback := ReconnectCallback |}]>
         (cancel (reconnectTimeout (this w)) (timers (rt w))) /\
     effects w' = effects w ++ [ConsoleLog msg1; OnDisconnect code reason]
                    ++ cleared ClearTimeout (reconnectTimeout (this w))
                    ++ [ConsoleLog msg2; SetTimeout t d] /\
     last (trace (rt w')) = Some (SetTimeout t d, st) /\
     reconnectAttempts st = n + 1 /\
     (count is_connect_call w'
      < count is_connect_call (PixelSocket.step c (Timer_fires t) w'))%nat) /\
  (forall s, is_Some (sockets (rt w) !! s) ->
     reconnectAttempts (the_stats (PixelSocket.step c (Socket_open s) w)) = 0) /\
  (forall e, is_Socket_open e = false ->
     n <= reconnectAttempts (the_stats (PixelSocket.step c e w))) /\
  (n < maxReconnectAttempts o ->
     exists w' st,
       LegacyPixelSocket.onclose code reason w = (Ok tt, w') /\
       reconnectAttempts (the_stats w') = n + 1 /\
       reconnectTimeout (this w') = Some t /\
       timers (rt w') =
         <[t := {| repeating := false; delay := reconnectDelay o;
                   callback := ReconnectCallback |}]>
           (cancel (reconnectTimeout (this w)) (timers (rt w))) /\
       last (trace (rt w')) = Some (SetTimeout t (reconnectDelay o), st)) /\
  (maxReconnectAttempts o <= n ->
     exists w' msg,
       LegacyPixelSocket.onclose code reason w = (Ok tt, w') /\
       this w' = this w /\
       timers (rt w') = timers (rt w) /\
       reconnectAttempts (the_stats w') = n /\
       effects w' = effects w ++ [ConsoleLog msg; OnDisconnect code reason]).
Proof.
  intros Hwf Hs Ha n o t d.
  split; [|split; [|split; [|split]]].
  - destruct (onclose_schedules w code reason Hs Ha)
      as (w' & msg1 & msg2 & st & H1 & H2 & H3 & H4 & H5 & H6 & H7).
    exists w', msg1, msg2, st. repeat (split; [assumption|]).
    eapply reconnect_timer_connects; [rewrite H4; apply lookup_insert_eq | reflexivity].
  - intros s [st Hst]. cbn [PixelSocket.step]. unfold on_socket. rewrite Hst.
    apply onopen_resets_counter.
  - intros e He. apply (floor_step c n e w He Hwf). split; [apply Hwf | subst n; lia].
  - intros Hlt. by apply legacy_onclose_schedules.
  - intros Hge. by apply legacy_onclose_gives_up.
Qed.

Lemma reconnect_policy_witness :
  wf connected /\
  shouldReconnect (this connected) = true /\
  autoReconnect (options (this connected)) = true /\
  exists w',
    PixelSocket.onclose 1006 "gone" connected = (Ok tt, w') /\
    reconnectAttempts (the_stats w') = 1 /\
    timers (rt w') !! 4%nat =
      Some {| repeating := false; delay := 5000; callback := ReconnectCallback |}.
Proof.
  assert (wf connected) as Hwf by (split; [vm_compute; lia | vm_compute; constructor]).
  split; [exact Hwf|]. split; [reflexivity|]. split; [reflexivity|].
  destruct (reconnect_policy (codec_of sample_payload) connected 1006 "gone"
              Hwf eq_refl eq_refl) as [(w' & m1 & m2 & st & H1 & H2 & H3 & H4 & _) _].
  exists w'. split; [exact H1|]. split; [exact H2|].
  rewrite H4. vm_compute. reflexivity.
Defined.

(** C1 as stated fails on the older class: with auto-reconnect enabled
    and [disconnect()] never called, the close event that finds the counter
    at the maximum schedules no reconnect. *)
Lemma legacy_stops_retrying :
  shouldReconnect (this legacy_exhausted) = true /\
  autoReconnect (options (this legacy_exhausted)) = true /\
  reconnectAttempts (the_stats legacy_exhausted) = 2 /\
  timers (rt legacy_exhausted) = ∅ /\
  timers (rt (legacy_close 5%nat 1006 "gone" legacy_exhausted)) = ∅ /\
  count is_SetTimeout (legacy_close 5%nat 1006 "gone" legacy_exhausted)
    = count is_SetTimeout legacy_exhausted.
Proof. vm_compute. repeat split; reflexivity. Qed.

(** ** Frames of the newer class *)

(** [decompressAndUnpack] returns what [decode_outcome] describes; a
    failure leaves console lines and nothing else. *)
Lemma decompressAndUnpack_spec c w compressed :
  exists w1 new,
    PixelSocket.decompressAndUnpack c compressed w
      = (Ok (match decode_outcome c w compressed with
             | Ok object => Some object
             | Throw _ => None
             end), w1) /\
    heap (rt w1) = heap (rt w) /\
    stats (this w1) = stats (this w) /\
    options (this w1) = options (this w) /\
    faults (rt w1) = faults (rt w) /\
    clock (rt w1) = clock (rt w) /\
    effects w1 = effects w ++ new /\
    forallb is_ConsoleError new = true /\
    (forall t, decode_outcome c w compressed = Throw t -> new <> []) /\
    (forall object, decode_outcome c w compressed = Ok object -> new = []).
Proof.
  unfold PixelSocket.decompressAndUnpack, PixelSocket.ensureZstdInit,
    PixelSocket.zstdInit, PixelSocket.lift, decode_outcome, effects.
  munfold. wsimpl.
  destruct (zstdInitialized (this w)), (zstdInit_throws (faults (rt w)));
    cbn [negb andb]; wsimpl;
    destruct (PixelSocket.zstdDecompress c compressed) as [d|?]; wsimpl;
    try destruct (PixelSocket.msgpackDecode c d); wsimpl;
    do 2 eexists; (split; [reflexivity|]); wsimpl;
    rewrite ?map_app, <- ?app_assoc; cbn [map fst app];
    repeat (split; [first [reflexivity | symmetry; apply app_nil_r]|]);
    split; intros; (discriminate || reflexivity).
Qed.

(** [handleMessage] on a binary frame, after the decoding: [w1] is the
    state the decoded object is looked at in. *)
Lemma handleMessage_binary c w compressed :
  exists w1 new,
    PixelSocket.handleMessage c (Binary compressed) w =
      match decode_outcome c w compressed with
      | Ok (PixelSocket.Object type payload) =>
          if bool_decide (type = Some "notification-from-pixel-socket")
          then try_catch (PixelSocket.processImage payload)
                 (fun error =>
                    emit (ConsoleError "[PixelSocket] Error processing message:") >>
                    emit (OnError (orError "Failed to process message" error))) w1
          else (Ok tt, w1)
      | _ => emit (ConsoleError "[Client] Failed to decompress or unpack message") w1
      end /\
    the_stats w1 = the_stats w /\
    options (this w1) = options (this w) /\
    faults (rt w1) = faults (rt w) /\
    clock (rt w1) = clock (rt w) /\
    effects w1 = effects w ++ new /\
    forallb is_ConsoleError new = true /\
    (forall object, decode_outcome c w compressed = Ok object -> new = []).
Proof.
  destruct (decompressAndUnpack_spec c w compressed)
    as (w1 & new & H & Hh & Hs & Ho & Hf & Hc & He & Hn & _ & Hok).
  exists w1, new.
  split; [|split; [by apply the_stats_same|]; repeat (split; [assumption|]); assumption].
  unfold PixelSocket.handleMessage, try_catch at 1, bind at 1. rewrite H.
  destruct (decode_outcome c w compressed) as [[|type payload]|]; try reflexivity.
  destruct (bool_decide _); reflexivity.
Qed.

(** What [processImage] does with a payload whose length is a number: the
    statistics first, then the console, then the file if there is a
    directory and there are bytes. *)
Lemma processImage_spec p n w :
  imageLength p = Number n ->
  let s' := set_bytesReceived (bytesReceived (the_stats w) + n)
              (set_imagesReceived (imagesReceived (the_stats w) + 1) (the_stats w)) in
  let ts := if timestamp p =? 0 then clock (rt w) else timestamp p in
  exists w' msg,
    PixelSocket.processImage (Some p) w = (Ok tt, w') /\
    the_stats w' = s' /\
    this w' = this w /\
    timers (rt w') = timers (rt w) /\
    sockets (rt w') = sockets (rt w) /\
    trace (rt w') = trace (rt w) ++ (ConsoleLog msg, s') ::
      match truthy (saveDirectory (options (this w))), blobData p with
      | Some dir, Some blob =>
          if mkdir_throws (faults (rt w))
          then [(Mkdir dir false, s');
                (ConsoleError "[PixelSocket] Error saving image:", s');
                (OnError "mkdir failed", s')]
          else
            let path := dir +:+ "/" +:+ pretty ts +:+ "_" +:+ jobId p
                          +:+ "." +:+ fileExtension p in
            if writeFile_throws (faults (rt w))
            then [(Mkdir dir true, s'); (WriteFile path blob false, s');
                  (ConsoleError "[PixelSocket] Error saving image:", s');
                  (OnError "write failed", s')]
            else [(Mkdir dir true, s'); (WriteFile path blob true, s');
                  (ConsoleLog ("[PixelSocket] Saved image to " +:+ path), s')]
      | _, _ => []
      end.
Proof.
  intros Hn s' ts. subst s' ts. unfold PixelSocket.processImage. munfold. wsimpl.
  rewrite Hn. wsimpl.
  destruct (truthy (saveDirectory (options (this w)))) as [dir|];
    [destruct (blobData p) as [blob|]|]; wsimpl;
    [destruct (mkdir_throws (faults (rt w))); wsimpl;
       [|destruct (writeFile_throws (faults (rt w))); wsimpl]| |];
    do 2 eexists; (split; [reflexivity|]); wsimpl; stats_simpl;
    rewrite <- ?app_assoc; cbn [app]; repeat split; reflexivity.
Qed.

(** A payload that is missing, or whose length is a [BigInt], stops
    [processImage] after the image was counted: one counter has moved, and
    nothing else has happened. *)
Lemma processImage_throws payload w :
  let message :=
    match payload with
    | None => Some "Cannot read properties of undefined (reading 'imageLength')"
    | Some p =>
        match imageLength p with
        | BigInt _ => Some "Cannot mix BigInt and other types, use explicit conversions"
        | Number _ => None
        end
    end in
  forall msg, message = Some msg ->
  exists w',
    PixelSocket.processImage payload w = (Throw (IsError msg), w') /\
    the_stats w' = set_imagesReceived (imagesReceived (the_stats w) + 1) (the_stats w) /\
    this w' = this w /\
    timers (rt w') = timers (rt w) /\
    sockets (rt w') = sockets (rt w) /\
    trace (rt w') = trace (rt w).
Proof.
  intros message msg H. subst message. unfold PixelSocket.processImage. munfold. wsimpl.
  destruct payload as [p|]; [destruct (imageLength p); [discriminate|]|];
    injection H as <-; eexists; (split; [reflexivity|]); wsimpl; stats_simpl;
    repeat split; reflexivity.
Qed.

Lemma the_stats_emit e w : the_stats (snd (emit e w)) = the_stats w.
Proof. reflexivity. Qed.

(** A notification that [processImage] throws on: the frame is counted as
    an image, and the exception is reported through [onError]. *)
Lemma notification_thrown_on (c : PixelSocket.Codec) (w : world) (compressed : bytes)
    payload msg :
  decode_outcome c w compressed
    = Ok (PixelSocket.Object (Some "notification-from-pixel-socket") payload) ->
  match payload with
  | None => Some "Cannot read properties of undefined (reading 'imageLength')"
  | Some p =>
      match imageLength p with
      | BigInt _ => Some "Cannot mix BigInt and other types, use explicit conversions"
      | Number _ => None
      end
  end = Some msg ->
  let w' := snd (PixelSocket.handleMessage c (Binary compressed) w) in
  the_stats w' = set_imagesReceived (imagesReceived (the_stats w) + 1) (the_stats w) /\
  effects w' = effects w
    ++ [ConsoleError "[PixelSocket] Error processing message:"; OnError msg].
Proof.
  intros H Hmsg w'. subst w'.
  destruct (handleMessage_binary c w compressed)
    as (w1 & new & Hh & Hs & _ & _ & _ & He & _ & Hnew).
  rewrite Hh, H, bool_decide_eq_true_2 by done.
  destruct (processImage_throws payload w1 msg Hmsg) as (w2 & E & Hs2 & _ & _ & _ & Ht).
  unfold try_catch. rewrite E. cbn [orError].
  unfold effects in *. munfold. wsimpl. split.
  - change (the_stats w2 = set_imagesReceived (imagesReceived (the_stats w) + 1) (the_stats w)).
    by rewrite Hs2, Hs.
  - rewrite !map_app, Ht, He, (Hnew _ H), app_nil_r, <- app_assoc. reflexivity.
Qed.


(** C2, where the code departs from it. A binary frame whose
    decompression or deserialization fails leaves the statistics as they
    are, and so do frames that decode to a falsy value or to a message of
    another type, and text frames; a notification whose payload declares
    its length as a number increments [imagesReceived] by 1 and adds that
    length to [bytesReceived] once. But [processImage] counts the image
    before it looks at the payload: a notification without a payload, and
    one whose length arrives as a [BigInt], raise [imagesReceived] by 1 and
    leave [bytesReceived], so that a frame from which no payload could be
    taken is counted. The two last parts run this on the connected client:
    [imagesReceived] goes from 0 to 1, [bytesReceived] stays 0, and the
    exception is reported through [onError]. *)
Theorem stats_per_payload :
  (forall (c : PixelSocket.Codec) (w : world) (compressed : bytes),
     let w' := snd (PixelSocket.handleMessage c (Binary compressed) w) in
     let counted := set_imagesReceived (imagesReceived (the_stats w) + 1) (the_stats w) in
     (forall t, decode_outcome c w compressed = Throw t -> the_stats w' = the_stats w) /\
     (forall p n,
        decode_outcome c w compressed
          = Ok (PixelSocket.Object (Some "notification-from-pixel-socket") (Some p)) ->
        imageLength p = Number n ->
        the_stats w' = set_bytesReceived (bytesReceived (the_stats w) + n) counted) /\
     (forall p n,
        decode_outcome c w compressed
          = Ok (PixelSocket.Object (Some "notification-from-pixel-socket") (Some p)) ->
        imageLength p = BigInt n ->
        the_stats w' = counted) /\
     (decode_outcome c w compressed
        = Ok (PixelSocket.Object (Some "notification-from-pixel-socket") None) ->
      the_stats w' = counted) /\
     (decode_outcome c w compressed = Ok PixelSocket.Falsy -> the_stats w' = the_stats w) /\
     (forall type payload,
        decode_outcome c w compressed = Ok (PixelSocket.Object type payload) ->
        type <> Some "notification-from-pixel-socket" -> the_stats w' = the_stats w) /\
     (forall text,
        the_stats (snd (PixelSocket.handleMessage c (Text text) w)) = the_stats w)) /\
  (let w' := PixelSocket.step codec_bare (Socket_message 1%nat (Binary [])) connected in
   imagesReceived (the_stats connected) = 0 /\
   imagesReceived (the_stats w') = 1 /\
   bytesReceived (the_stats w') = 0 /\
   effects w' = effects connected ++
     [ConsoleError "[PixelSocket] Error processing message:";
      OnError "Cannot read properties of undefined (reading 'imageLength')"]) /\
  (let w' := PixelSocket.step (codec_of wide_payload)
               (Socket_message 1%nat (Binary [])) connected in
   imagesReceived (the_stats w') = 1 /\
   bytesReceived (the_stats w') = 0 /\
   effects w' = effects connected ++
     [ConsoleError "[PixelSocket] Error processing message:";
      OnError "Cannot mix BigInt and other types, use explicit conversions"]).
Proof.
  split; [|split; vm_compute; repeat split; reflexivity].
  intros c w compressed w' counted. subst w' counted.
  split; [|split; [|split; [|split; [|split; [|split]]]]].
  - intros t H. destruct (handleMessage_binary c w compressed) as (w1 & new & Hh & Hs & _).
    rewrite Hh, H. by rewrite the_stats_emit.
  - intros p n H Hn. destruct (handleMessage_binary c w compressed) as (w1 & new & Hh & Hs & _).
    rewrite Hh, H, bool_decide_eq_true_2 by done. unfold try_catch.
    destruct (processImage_spec p n w1 Hn) as (w' & msg & -> & Hs' & _).
    cbn [snd]. by rewrite Hs', Hs.
  - intros p n H Hn.
    destruct (notification_thrown_on c w compressed (Some p)
                "Cannot mix BigInt and other types, use explicit conversions" H)
      as [Hs _]; [by rewrite Hn | exact Hs].
  - intros H.
    by destruct (notification_thrown_on c w compressed None _ H eq_refl) as [Hs _].
  - intros H. destruct (handleMessage_binary c w compressed) as (w1 & new & Hh & Hs & _).
    rewrite Hh, H. by rewrite the_stats_emit.
  - intros type payload H Hne.
    destruct (handleMessage_binary c w compressed) as (w1 & new & Hh & Hs & _).
    rewrite Hh, H. by rewrite bool_decide_eq_false_2.
  - intros text. reflexivity.
Qed.




(** ** The older class: an image, the callback, the file *)

(** [metadata.timestamp.getTime()] on the merged metadata: the time of the
    caller's [Date], the current time when the caller gave no timestamp,
    and nothing when the caller's timestamp is not a [Date]. *)
Lemma legacy_processImage_spec data metadata w :
  let s' := set_bytesReceived (bytesReceived (the_stats w) + Z.of_nat (length data))
              (set_imagesReceived (imagesReceived (the_stats w) + 1) (the_stats w)) in
  let full := LegacyPixelSocket.fullMetadata (clock (rt w)) metadata in
  let format :=
    default (LegacyPixelSocket.detectImageFormat data) (truthy (meta_format full)) in
  exists w' msg,
    LegacyPixelSocket.processImage data metadata w = (Ok tt, w') /\
    the_stats w' = s' /\
    this w' = this w /\
    timers (rt w') = timers (rt w) /\
    trace (rt w') = trace (rt w) ++ (ConsoleLog msg, s') :: (OnImage data full, s') ::
      match truthy (saveDirectory (options (this w))) with
      | Some dir =>
          if mkdir_throws (faults (rt w))
          then [(Mkdir dir false, s');
                (ConsoleError "[PixelSocket] Error saving image:", s');
                (OnError "mkdir failed", s')]
          else
            match default (IsDate (clock (rt w))) (metadata ≫= meta_timestamp) with
            | NotDate =>
                [(Mkdir dir true, s');
                 (ConsoleError "[PixelSocket] Error saving image:", s');
                 (OnError "metadata.timestamp.getTime is not a function", s')]
            | IsDate ts =>
                let path := dir +:+ "/" +:+ pretty ts +:+ "." +:+ format in
                if writeFile_throws (faults (rt w))
                then [(Mkdir dir true, s'); (WriteFile path data false, s');
                      (ConsoleError "[PixelSocket] Error saving image:", s');
                      (OnError "write failed", s')]
                else [(Mkdir dir true, s'); (WriteFile path data true, s');
                      (ConsoleLog ("[PixelSocket] Saved image to " +:+ path), s')]
            end
      | None => []
      end.
Proof.
  intros s' full format. subst s' full format.
  unfold LegacyPixelSocket.processImage, LegacyPixelSocket.saveImage. munfold. wsimpl.
  destruct metadata as [[[[ts|]|] fmt mt fn wd ht]|];
    cbn [LegacyPixelSocket.fullMetadata meta_timestamp meta_format mbind
         option_bind default from_option id];
    destruct (saveDirectory (options (this w))) as [[|a dir]|] eqn:Ed;
    cbn [truthy]; wsimpl; rewrite ?Ed; wsimpl;
    try (destruct (mkdir_throws (faults (rt w))); wsimpl;
         [|try (destruct (writeFile_throws (faults (rt w))); wsimpl)]);
    do 2 eexists; (split; [reflexivity|]); wsimpl; stats_simpl;
    rewrite <- ?app_assoc; cbn [app]; repeat split; reflexivity.
Qed.

(** C4, where the code departs from it. In no run of the newer class is
    an image callback invoked. At the notification of [sample_payload] the
    statistics are updated first, the directory is created and the file
    written under the updated statistics, and no callback follows. *)
Theorem image_callback_never_invoked :
  (forall c o es,
     count is_image_callback (PixelSocket.steps c es (PixelSocket.new_PixelSocket o))
       = 0%nat) /\
  let w' := PixelSocket.step (codec_of sample_payload)
              (Socket_message 1%nat (Binary [])) connected in
  let s' := set_bytesReceived 4 (set_imagesReceived 1 (the_stats connected)) in
  trace (rt w') = trace (rt connected) ++
    [(ConsoleLog "[PixelSocket] Received image #1 (4 bytes)", s');
     (Mkdir "./received_images" true, s');
     (WriteFile "./received_images/1000_abc.png" sample_image true, s');
     (ConsoleLog "[PixelSocket] Saved image to ./received_images/1000_abc.png", s')].
Proof.
  split.
  - intros c o es. apply (steps_keep_all (image_callbacks 0)); [apply callbacks_step|].
    reflexivity.
  - vm_compute. reflexivity.
Qed.

(** ** The keep-alive *)

Lemma ping_callback_spec w :
  exists w',
    Shared.ping_callback w = (Ok tt, w') /\
    this w' = this w /\
    heap (rt w') = heap (rt w) /\
    sockets (rt w') = sockets (rt w) /\
    timers (rt w') = timers (rt w) /\
    effects w' = effects w ++
      match socket (this w) with
      | Some s =>
          match sockets (rt w) !! s with
          | Some OPEN =>
              if send_throws (faults (rt w))
              then [ConsoleError "[PixelSocket] Error sending ping:"]
              else [SocketSend s (Text pingMessage); ConsoleLog "[PixelSocket] Sent ping"]
          | _ => []
          end
      | None => []
      end.
Proof.
  unfold Shared.ping_callback, effects. munfold. wsimpl.
  destruct (socket (this w)) as [s|]; wsimpl;
    [destruct (sockets (rt w) !! s) as [[]|] eqn:Est;
     cbn [default from_option id]; wsimpl; rewrite ?Est;
     cbn [default from_option id]; wsimpl;
     try (destruct (send_throws (faults (rt w))); wsimpl)|];
    eexists; (split; [reflexivity|]); wsimpl;
    rewrite ?map_app, <- ?app_assoc, ?app_nil_r; cbn [map fst app];
    repeat split; reflexivity.
Qed.

Ltac heap_simpl :=
  repeat (first [rewrite lookup_insert_eq | rewrite lookup_insert_ne by lia]); wsimpl.

Lemma bind_ok {A B} (m : M A) (k : A -> M B) w a w' :
  m w = (Ok a, w') -> bind m k w = k a w'.
Proof. unfold bind. by intros ->. Qed.

Lemma bind_throw {A B} (m : M A) (k : A -> M B) w t w' :
  m w = (Throw t, w') -> bind m k w = (Throw t, w').
Proof. unfold bind. by intros ->. Qed.

Lemma bind_assoc {A B C} (m : M A) (k : A -> M B) (k' : B -> M C) w :
  bind (bind m k) k' w = bind m (fun a => bind (k a) k') w.
Proof. unfold bind. by destruct (m w) as [[a|t] w']. Qed.

Lemma emit_frame e w :
  let w' := snd (emit e w) in
  this w' = this w /\ heap (rt w') = heap (rt w) /\ timers (rt w') = timers (rt w) /\
  sockets (rt w') = sockets (rt w) /\ the_stats w' = the_stats w /\
  effects w' = effects w ++ [e].
Proof. unfold effects. munfold. wsimpl. by rewrite map_app. Qed.

(** [onopen] up to the subscription: what it leaves alone. *)
Lemma onopen_prefix_frame w :
  exists w1,
    (update_stats (set_isConnected true) >>
     (do d <- new_Date in update_stats (set_connectedAt (Some d))) >>
     update_stats (set_reconnectAttempts 0) >>
     (do u <- get (fun w => url (options (this w))) in
      emit (ConsoleLog ("[PixelSocket] Connected to " +:+ u)))) w = (Ok tt, w1) /\
    this w1 = this w /\
    sockets (rt w1) = sockets (rt w) /\
    timers (rt w1) = timers (rt w) /\
    faults (rt w1) = faults (rt w) /\
    next_id (rt w1) = S (next_id (rt w)) /\
    effects w1 = effects w
      ++ [ConsoleLog ("[PixelSocket] Connected to " +:+ url (options (this w)))].
Proof.
  munfold. wsimpl. eexists. split; [reflexivity|].
  wsimpl. unfold effects. wsimpl. rewrite map_app. cbn [map fst].
  repeat split; reflexivity.
Qed.

(** [onopen] up to the subscription. *)
Lemma onopen_prefix w :
  (stats (this w) < next_id (rt w))%nat ->
  let l := next_id (rt w) in
  exists w1,
    (update_stats (set_isConnected true) >>
     (do d <- new_Date in update_stats (set_connectedAt (Some d))) >>
     update_stats (set_reconnectAttempts 0) >>
     (do u <- get (fun w => url (options (this w))) in
      emit (ConsoleLog ("[PixelSocket] Connected to " +:+ u)))) w = (Ok tt, w1) /\
    this w1 = this w /\
    sockets (rt w1) = sockets (rt w) /\
    timers (rt w1) = timers (rt w) /\
    faults (rt w1) = faults (rt w) /\
    next_id (rt w1) = S l /\
    the_stats w1 =
      set_reconnectAttempts 0 (set_connectedAt (Some l) (set_isConnected true (the_stats w))) /\
    heap (rt w1) !! l = Some (ObjDate (clock (rt w))) /\
    effects w1 = effects w
      ++ [ConsoleLog ("[PixelSocket] Connected to " +:+ url (options (this w)))].
Proof.
  intros Hlt l. subst l. munfold. wsimpl. eexists. split; [reflexivity|].
  wsimpl. unfold effects. wsimpl. rewrite map_app. cbn [map fst].
  repeat (split; [reflexivity|]).
  split; [|split; [|reflexivity]].
  - unfold the_stats. wsimpl. heap_simpl. reflexivity.
  - heap_simpl. reflexivity.
Qed.

Lemma socket_send_spec s data w :
  socket_send s data w =
    match sockets (rt w) !! s with
    | Some OPEN =>
        if send_throws (faults (rt w)) then (Throw (IsError "send failed"), w)
        else emit (SocketSend s data) w
    | Some CONNECTING => (Throw (IsError "readyState not OPEN"), w)
    | _ => (Ok tt, w)
    end.
Proof.
  unfold socket_send, socket_readyState. munfold.
  destruct (sockets (rt w) !! s) as [[]|]; cbn [default from_option id]; try reflexivity.
  by destruct (send_throws (faults (rt w))).
Qed.

(** [onopen] from the keep-alive on. *)
Lemma onopen_suffix w :
  let t := next_id (rt w) in
  exists w',
    (Shared.startPingInterval >> emit OnConnect) w = (Ok tt, w') /\
    pingTimeout (this w') = Some t /\
    timers (rt w') =
      <[t := {| repeating := true; delay := 20000; callback := PingCallback |}]>
        (cancel (pingTimeout (this w)) (timers (rt w))) /\
    heap (rt w') = heap (rt w) /\
    stats (this w') = stats (this w) /\
    effects w' = effects w ++ cleared ClearInterval (pingTimeout (this w))
                   ++ [SetInterval t 20000; OnConnect].
Proof.
  intros t. subst t.
  destruct (startPingInterval_spec w) as (w2 & E & Hthis & Htm & Hheap & _ & Heff).
  rewrite (bind_ok _ _ _ _ _ E). munfold. eexists. split; [reflexivity|]. wsimpl.
  rewrite Hthis. split; [reflexivity|]. split; [exact Htm|]. split; [exact Hheap|].
  split; [reflexivity|].
  unfold effects in *. wsimpl. rewrite map_app, Heff, <- !app_assoc. reflexivity.
Qed.

(** [onopen] after its first part, which ended in [w1]: whether the
    subscription returns decides what follows. *)
Lemma onopen_rest w w1 :
  (update_stats (set_isConnected true) >>
   (do d <- new_Date in update_stats (set_connectedAt (Some d))) >>
   update_stats (set_reconnectAttempts 0) >>
   (do u <- get (fun w => url (options (this w))) in
    emit (ConsoleLog ("[PixelSocket] Connected to " +:+ u)))) w = (Ok tt, w1) ->
  this w1 = this w ->
  sockets (rt w1) = sockets (rt w) ->
  timers (rt w1) = timers (rt w) ->
  faults (rt w1) = faults (rt w) ->
  let t := next_id (rt w1) in
  let started :=
    cleared ClearInterval (pingTimeout (this w)) ++ [SetInterval t 20000; OnConnect] in
  let returns :=
    match socket (this w) with
    | None => false
    | Some cur =>
        match sockets (rt w) !! cur with
        | Some OPEN => negb (send_throws (faults (rt w)))
        | Some CONNECTING => false
        | _ => true
        end
    end in
  let w' := run Shared.onopen w in
  the_stats w' = the_stats w1 /\
  heap (rt w') = heap (rt w1) /\
  effects w' = effects w1
    ++ match socket (this w) with
       | None => [Escaped (IsError "Cannot read properties of null (reading 'send')")]
       | Some cur =>
           match sockets (rt w) !! cur with
           | Some OPEN =>
               if send_throws (faults (rt w))
               then [Escaped (IsError "send failed")]
               else SocketSend cur (Text subscribeMessage) :: started
           | Some CONNECTING => [Escaped (IsError "readyState not OPEN")]
           | _ => started
           end
       end /\
  pingTimeout (this w') = (if returns then Some t else pingTimeout (this w)) /\
  timers (rt w') =
    (if returns
     then <[t := {| repeating := true; delay := 20000; callback := PingCallback |}]>
            (cancel (pingTimeout (this w)) (timers (rt w)))
     else timers (rt w)).
Proof.
  intros E1 Hthis Hsock Htm Hf t started returns w'. subst t started returns w'.
  unfold run, Shared.onopen.
  set (send := do s <- get (fun w => socket (this w)) in _).
  assert (exists r w2, send w1 = (r, w2) /\
            this w2 = this w1 /\ timers (rt w2) = timers (rt w1) /\
            heap (rt w2) = heap (rt w1) /\ next_id (rt w2) = next_id (rt w1) /\
            match socket (this w) with
            | None =>
                r = Throw (IsError "Cannot read properties of null (reading 'send')") /\
                effects w2 = effects w1
            | Some cur =>
                match sockets (rt w) !! cur with
                | Some OPEN =>
                    if send_throws (faults (rt w))
                    then r = Throw (IsError "send failed") /\ effects w2 = effects w1
                    else r = Ok tt /\
                         effects w2 = effects w1 ++ [SocketSend cur (Text subscribeMessage)]
                | Some CONNECTING =>
                    r = Throw (IsError "readyState not OPEN") /\ effects w2 = effects w1
                | _ => r = Ok tt /\ effects w2 = effects w1
                end
            end) as (r & w2 & E2 & Hthis2 & Htm2 & Hheap2 & Hn2 & Hr).
  { subst send. unfold bind at 1, get. rewrite Hthis.
    destruct (socket (this w)) as [cur|]; [|by do 2 eexists].
    rewrite socket_send_spec, Hsock, Hf.
    destruct (sockets (rt w) !! cur) as [[]|]; try (by do 2 eexists).
    destruct (send_throws (faults (rt w))); [by do 2 eexists|].
    munfold. do 2 eexists. split; [reflexivity|]. unfold effects. wsimpl.
    by rewrite map_app. }
  do 2 rewrite bind_assoc. rewrite (bind_ok _ _ w tt w1 E1). cbv beta.
  destruct (onopen_suffix w2) as (w3 & E3 & Hp3 & Htm3 & Hheap3 & Hst3 & Heff3).
  assert (the_stats w2 = the_stats w1) as Hs2 by (apply the_stats_same; congruence).
  assert (the_stats w3 = the_stats w1) as Hs3 by (apply the_stats_same; congruence).
  destruct (socket (this w)) as [cur|];
    [destruct (sockets (rt w) !! cur) as [[]|];
     [|destruct (send_throws (faults (rt w)))|..]|];
    destruct Hr as [-> Heff2];
    first [ rewrite (bind_ok _ _ w1 tt w2 E2), E3
          | rewrite (bind_throw _ _ w1 _ w2 E2);
            match goal with
            | |- context [emit ?e w2] =>
                destruct (emit_frame e w2) as (Ht4 & Hh4 & Htm4 & _ & Hs4 & He4);
                set (w4 := snd (emit e w2)) in *
            end ];
    cbn [negb];
    rewrite ?Hs4, ?Hh4, ?Ht4, ?Htm4, ?He4;
    rewrite ?Hs3, ?Hs2, ?Hheap3, ?Hheap2, ?Hp3, ?Htm3, ?Heff3, ?Heff2,
      ?Hthis2, ?Hthis, ?Htm2, ?Htm, ?Hn2, <- ?app_assoc;
    by repeat split.
Qed.

(** Whether the subscription of [onopen] returns. *)
Lemma onopen_spec w :
  (stats (this w) < next_id (rt w))%nat ->
  let l := next_id (rt w) in
  let t := S l in
  let started :=
    cleared ClearInterval (pingTimeout (this w)) ++ [SetInterval t 20000; OnConnect] in
  let returns :=
    match socket (this w) with
    | None => false
    | Some cur =>
        match sockets (rt w) !! cur with
        | Some OPEN => negb (send_throws (faults (rt w)))
        | Some CONNECTING => false
        | _ => true
        end
    end in
  let w' := run Shared.onopen w in
  the_stats w' =
    set_reconnectAttempts 0 (set_connectedAt (Some l) (set_isConnected true (the_stats w))) /\
  heap (rt w') !! l = Some (ObjDate (clock (rt w))) /\
  effects w' = effects w
    ++ ConsoleLog ("[PixelSocket] Connected to " +:+ url (options (this w)))
    :: match socket (this w) with
       | None => [Escaped (IsError "Cannot read properties of null (reading 'send')")]
       | Some cur =>
           match sockets (rt w) !! cur with
           | Some OPEN =>
               if send_throws (faults (rt w))
               then [Escaped (IsError "send failed")]
               else SocketSend cur (Text subscribeMessage) :: started
           | Some CONNECTING => [Escaped (IsError "readyState not OPEN")]
           | _ => started
           end
       end /\
  pingTimeout (this w') = (if returns then Some t else pingTimeout (this w)) /\
  timers (rt w') =
    (if returns
     then <[t := {| repeating := true; delay := 20000; callback := PingCallback |}]>
            (cancel (pingTimeout (this w)) (timers (rt w)))
     else timers (rt w)).
Proof.
  intros Hlt l t started returns w'. subst l t started returns w'.
  destruct (onopen_prefix w Hlt) as (w1 & E1 & Hthis & Hsock & Htm & Hf & Hn & Hst & Hd & Heff).
  destruct (onopen_rest w w1 E1 Hthis Hsock Htm Hf) as (H1 & H2 & H3 & H4 & H5).
  rewrite Hn in *. rewrite H1, H2, H3, H4, H5, Heff, <- app_assoc.
  by repeat split.
Qed.

(** The keep-alive after the open event, in any state. *)
Lemma onopen_keepalive w :
  let t := S (next_id (rt w)) in
  let returns :=
    match socket (this w) with
    | None => false
    | Some cur =>
        match sockets (rt w) !! cur with
        | Some OPEN => negb (send_throws (faults (rt w)))
        | Some CONNECTING => false
        | _ => true
        end
    end in
  let w' := run Shared.onopen w in
  pingTimeout (this w') = (if returns then Some t else pingTimeout (this w)) /\
  timers (rt w') =
    (if returns
     then <[t := {| repeating := true; delay := 20000; callback := PingCallback |}]>
            (cancel (pingTimeout (this w)) (timers (rt w)))
     else timers (rt w)).
Proof.
  intros t returns w'. subst t returns w'.
  destruct (onopen_prefix_frame w) as (w1 & E1 & Hthis & Hsock & Htm & Hf & Hn & Heff).
  destruct (onopen_rest w w1 E1 Hthis Hsock Htm Hf) as (_ & _ & _ & H4 & H5).
  rewrite Hn in *. by split.
Qed.

(** C6 as stated fails: a ping that cannot be sent is written to the
    console and not reported through [onError]. *)
Lemma ping_failure_not_reported :
  let w := PixelSocket.step (codec_of sample_payload) (Set_faults failing_send) connected in
  let w' := PixelSocket.step (codec_of sample_payload) (Timer_fires 3%nat) w in
  timers (rt w) !! 3%nat
    = Some {| repeating := true; delay := 20000; callback := PingCallback |} /\
  effects w' = effects w ++ [ConsoleError "[PixelSocket] Error sending ping:"] /\
  count is_OnError w' = 0%nat.
Proof. vm_compute. repeat split; reflexivity. Qed.

(** C6, as amended. The handler of the open event sends the subscription
    on [this.socket] and then starts the keep-alive: when that send returns
    -- the instance has a socket, and it is neither still connecting nor
    failing to send -- a repeating timer of 20000 ms is armed and
    remembered, in place of the one remembered before; when the send
    throws, or the instance has no socket, the handler ends there and the
    timers are as they were. Each time a keep-alive timer fires the frame
    [{"type":"ping"}] is sent if and only if the instance has a socket
    whose state is OPEN; a send that fails is written to the console and
    not reported through [onError]; in every case the instance, the
    sockets, the timers and the statistics are left as they were. *)
Theorem keepalive (c : PixelSocket.Codec) (w : world) (s : sock_id) :
  is_Some (sockets (rt w) !! s) ->
  (let w1 := PixelSocket.step c (Socket_open s) w in
   let t := S (next_id (rt w)) in
   let subscribed :=
     match socket (this w) with
     | None => false
     | Some cur =>
         match <[s := OPEN]> (sockets (rt w)) !! cur with
         | Some OPEN => negb (send_throws (faults (rt w)))
         | Some CONNECTING => false
         | _ => true
         end
     end in
   (subscribed = true ->
    pingTimeout (this w1) = Some t /\
    timers (rt w1) =
      <[t := {| repeating := true; delay := 20000; callback := PingCallback |}]>
        (cancel (pingTimeout (this w)) (timers (rt w)))) /\
   (subscribed = false ->
    pingTimeout (this w1) = pingTimeout (this w) /\
    timers (rt w1) = timers (rt w))) /\
  (forall w0 t tm,
     timers (rt w0) !! t = Some tm -> callback tm = PingCallback -> repeating tm = true ->
     let w' := PixelSocket.step c (Timer_fires t) w0 in
     this w' = this w0 /\
     sockets (rt w') = sockets (rt w0) /\
     timers (rt w') = timers (rt w0) /\
     the_stats w' = the_stats w0 /\
     effects w' = effects w0 ++
       match socket (this w0) with
       | Some s =>
           match sockets (rt w0) !! s with
           | Some OPEN =>
               if send_throws (faults (rt w0))
               then [ConsoleError "[PixelSocket] Error sending ping:"]
               else [SocketSend s (Text pingMessage); ConsoleLog "[PixelSocket] Sent ping"]
           | _ => []
           end
       | None => []
       end).
Proof.
  intros [st Hst]. split.
  - cbn [PixelSocket.step]. unfold on_socket. rewrite Hst. cbn [default from_option id].
    destruct (onopen_keepalive (with_rt (fun r => set_sockets (<[s:=OPEN]> (sockets r)) r) w))
      as [Hp Htm].
    wsimpl. cbv zeta. rewrite Hp, Htm. split; by intros ->.
  - intros w0 t tm Hl Hcb Hrep w'. subst w'.
    cbn [PixelSocket.step]. unfold on_timer. rewrite Hl, Hcb, Hrep.
    destruct (ping_callback_spec w0) as (w' & Heq & Ht & Hh & Hso & Htm & He).
    rewrite (run_ok _ _ _ _ Heq).
    repeat (split; [assumption|]).
    split; [|exact He]. apply the_stats_same; [exact Hh | by rewrite Ht].
Qed.

Lemma keepalive_witness :
  let c := codec_of sample_payload in
  let w := PixelSocket.step c Call_connect (PixelSocket.new_PixelSocket sample_options) in
  let twice := PixelSocket.step c Call_connect w in
  is_Some (sockets (rt w) !! 1%nat) /\
  is_Some (sockets (rt twice) !! 1%nat) /\
  (pingTimeout (this (PixelSocket.step c (Socket_open 1%nat) w)) = Some 3%nat /\
   timers (rt (PixelSocket.step c (Socket_open 1%nat) w)) !! 3%nat
     = Some {| repeating := true; delay := 20000; callback := PingCallback |}) /\
  (socket (this twice) = Some 2%nat /\
   pingTimeout (this (PixelSocket.step c (Socket_open 1%nat) twice)) = None /\
   timers (rt (PixelSocket.step c (Socket_open 1%nat) twice)) = ∅).
Proof.
  intros c w twice.
  assert (is_Some (sockets (rt w) !! 1%nat)) as H1 by (vm_compute; eauto).
  assert (is_Some (sockets (rt twice) !! 1%nat)) as H2 by (vm_compute; eauto).
  split; [exact H1|]. split; [exact H2|]. split.
  - destruct (keepalive c w 1%nat H1) as [[H _] _].
    destruct (H eq_refl) as [Hp Ht]. split; [exact Hp|].
    etransitivity; [exact (f_equal (lookup 3%nat) Ht) | reflexivity].
  - destruct (keepalive c twice 1%nat H2) as [[_ H] _].
    destruct (H eq_refl) as [Hp Ht]. split; [reflexivity|].
    split; (etransitivity; [eassumption | reflexivity]).
Defined.

(** ** Accounting and persistence *)

(** C10, where the code departs from it. On the path of the newer class a
    payload that declares its [imageLength] as a number is counted and
    [bytesReceived] grows by that declared length, whatever [blobData]
    holds; without [blobData] nothing is created or written. A length that
    arrives in a 64-bit format is a [BigInt]: the image is counted, the
    addition throws, [bytesReceived] stays, and nothing further is done for
    the payload. The last part runs this on the connected client. *)
Theorem bytes_follow_declared_length :
  (forall (w : world) (p : NotificationFromPixelSocket) (n : Z),
     imageLength p = Number n ->
     exists w' msg,
       PixelSocket.processImage (Some p) w = (Ok tt, w') /\
       imagesReceived (the_stats w') = imagesReceived (the_stats w) + 1 /\
       bytesReceived (the_stats w') = bytesReceived (the_stats w) + n /\
       (blobData p = None -> effects w' = effects w ++ [ConsoleLog msg])) /\
  (forall (w : world) (p : NotificationFromPixelSocket) (n : Z),
     imageLength p = BigInt n ->
     exists w',
       PixelSocket.processImage (Some p) w
         = (Throw (IsError "Cannot mix BigInt and other types, use explicit conversions"),
            w') /\
       imagesReceived (the_stats w') = imagesReceived (the_stats w) + 1 /\
       bytesReceived (the_stats w') = bytesReceived (the_stats w) /\
       effects w' = effects w) /\
  (let w' := PixelSocket.step (codec_of wide_payload)
               (Socket_message 1%nat (Binary [])) connected in
   imageLength wide_payload = BigInt 4 /\
   imagesReceived (the_stats w') = 1 /\
   bytesReceived (the_stats w') = 0 /\
   count is_fs w' = 0%nat /\
   last (effects w')
     = Some (OnError "Cannot mix BigInt and other types, use explicit conversions")).
Proof.
  split; [|split; [|vm_compute; repeat split; reflexivity]].
  - intros w p n Hn.
    destruct (processImage_spec p n w Hn) as (w' & msg & Heq & Hs & _ & _ & _ & Ht).
    exists w', msg. split; [exact Heq|]. rewrite Hs. split; [reflexivity|].
    split; [reflexivity|]. intros Hb. rewrite Hb in Ht. unfold effects. rewrite Ht.
    rewrite map_app. by destruct (truthy _).
  - intros w p n Hn.
    destruct (processImage_throws (Some p) w
                "Cannot mix BigInt and other types, use explicit conversions")
      as (w' & Heq & Hs & _ & _ & _ & Ht); [by rewrite Hn|].
    exists w'. split; [exact Heq|]. rewrite Hs. unfold effects. rewrite Ht. done.
Qed.

Lemma bytes_follow_declared_length_witness :
  imageLength stored_payload = Number 45678 /\
  blobData stored_payload = None /\
  exists w',
    PixelSocket.processImage (Some stored_payload) connected = (Ok tt, w') /\
    imagesReceived (the_stats w') = 1 /\
    bytesReceived (the_stats w') = 45678 /\
    count is_fs w' = 0%nat.
Proof.
  split; [reflexivity|]. split; [reflexivity|].
  destruct bytes_follow_declared_length as (H & _).
  destruct (H connected stored_payload 45678 eq_refl) as (w' & msg & Heq & Hi & Hb & He).
  exists w'. split; [exact Heq|]. split; [exact Hi|]. split; [exact Hb|].
  unfold count. rewrite (He eq_refl), List.filter_app. reflexivity.
Defined.

(** C7 as stated fails: a caller that configures no save directory gets
    the default one, and the image is written there, by the newer class and
    by the older. *)
Lemma default_directory_is_written :
  opt_saveDirectory sample_options = None /\
  (let w := PixelSocket.new_PixelSocket sample_options in
   let w' := snd (PixelSocket.processImage (Some sample_payload) w) in
   effects w' = effects w ++
     [ConsoleLog "[PixelSocket] Received image #1 (4 bytes)";
      Mkdir "./received_images" true;
      WriteFile "./received_images/1000_abc.png" sample_image true;
      ConsoleLog "[PixelSocket] Saved image to ./received_images/1000_abc.png"]) /\
  (let w := LegacyPixelSocket.new_PixelSocket sample_options in
   let w' := snd (LegacyPixelSocket.processImage sample_image None w) in
   List.filter is_fs (effects w')
     = [Mkdir "./images" true; WriteFile "./images/0.png" sample_image true]).
Proof. vm_compute. repeat split; reflexivity. Qed.

(** What the older class does with a timestamp that is not a [Date], as on
    the path of a JSON text with [image] and [metadata]: the directory is
    created, [getTime] fails, and no file is written. *)
Lemma legacy_timestamp_not_a_date :
  let w := LegacyPixelSocket.new_PixelSocket sample_options in
  let w' := snd (LegacyPixelSocket.processImage sample_image (Some json_metadata) w) in
  List.filter (fun e => is_fs e || is_OnError e) (effects w')
    = [Mkdir "./images" true; OnError "metadata.timestamp.getTime is not a function"].
Proof. vm_compute. reflexivity. Qed.

(** C7, as amended. The directory in [this.options] is the caller's, or
    the default of the class when the caller's options have no such key.
    For a payload whose length is a number, and for metadata whose
    timestamp is a [Date] or missing: when that directory is [undefined] or
    empty, or the payload holds no image bytes, persisting does nothing and
    reports nothing. Otherwise the directory is created before the file is
    written (and when it cannot be created nothing is written), under the
    name [{timestamp}_{jobId}.{fileExtension}] in the newer class and
    [{timestamp}.{format}] in the older, where the older class invokes the
    caller's callback before it saves. *)
Theorem persistence (w : world) (p : NotificationFromPixelSocket) (n : Z)
    (data : bytes) (metadata : option ImageMetadata) :
  imageLength p = Number n ->
  metadata ≫= meta_timestamp <> Some NotDate ->
  let fs e := match e with Mkdir _ _ | WriteFile _ _ _ | OnError _ => true | _ => false end in
  (* the directory *)
  (forall o,
     saveDirectory (options (this (PixelSocket.new_PixelSocket o)))
       = match opt_saveDirectory o with
         | Some directory => directory
         | None => Some "./received_images"
         end /\
     saveDirectory (options (this (LegacyPixelSocket.new_PixelSocket o)))
       = match opt_saveDirectory o with
         | Some directory => directory
         | None => Some "./images"
         end) /\
  (* the newer class *)
  (truthy (saveDirectory (options (this w))) = None \/ blobData p = None ->
   exists w' msg,
     PixelSocket.processImage (Some p) w = (Ok tt, w') /\
     effects w' = effects w ++ [ConsoleLog msg]) /\
  (forall dir blob,
     truthy (saveDirectory (options (this w))) = Some dir ->
     blobData p = Some blob ->
     let ts := if timestamp p =? 0 then clock (rt w) else timestamp p in
     let path := dir +:+ "/" +:+ pretty ts +:+ "_" +:+ jobId p +:+ "." +:+ fileExtension p in
     exists w',
       PixelSocket.processImage (Some p) w = (Ok tt, w') /\
       List.filter fs (drop (length (effects w)) (effects w')) =
         if mkdir_throws (faults (rt w))
         then [Mkdir dir false; OnError "mkdir failed"]
         else if writeFile_throws (faults (rt w))
              then [Mkdir dir true; WriteFile path blob false; OnError "write failed"]
              else [Mkdir dir true; WriteFile path blob true]) /\
  (* the older class *)
  (truthy (saveDirectory (options (this w))) = None ->
   exists w' msg full,
     LegacyPixelSocket.processImage data metadata w = (Ok tt, w') /\
     effects w' = effects w ++ [ConsoleLog msg; OnImage data full]) /\
  (forall dir,
     truthy (saveDirectory (options (this w))) = Some dir ->
     let ts := match metadata ≫= meta_timestamp with
               | Some (IsDate time) => time
               | _ => clock (rt w)
               end in
     let format :=
       default (LegacyPixelSocket.detectImageFormat data)
               (truthy (metadata ≫= meta_format)) in
     let path := dir +:+ "/" +:+ pretty ts +:+ "." +:+ format in
     exists w',
       LegacyPixelSocket.processImage data metadata w = (Ok tt, w') /\
       List.filter fs (drop (length (effects w)) (effects w')) =
         if mkdir_throws (faults (rt w))
         then [Mkdir dir false; OnError "mkdir failed"]
         else if writeFile_throws (faults (rt w))
              then [Mkdir dir true; WriteFile path data false; OnError "write failed"]
              else [Mkdir dir true; WriteFile path data true]).
Proof.
  intros Hn Hdate fs.
  destruct (processImage_spec p n w Hn) as (w1 & msg1 & Heq1 & _ & _ & _ & _ & Ht1).
  destruct (legacy_processImage_spec data metadata w)
    as (w2 & msg2 & Heq2 & _ & _ & _ & Ht2).
  cbv zeta in Ht1, Ht2. unfold effects.
  split; [|split; [|split; [|split]]].
  - intros o. split; cbn; by destruct (opt_saveDirectory o).
  - intros H. exists w1, msg1. split; [exact Heq1|]. rewrite Ht1, map_app.
    destruct H as [-> | ->]; [done|]. by destruct (truthy _).
  - intros dir blob Hd Hb. cbv zeta. exists w1. split; [exact Heq1|].
    rewrite Ht1, Hd, Hb, map_app, drop_app_length.
    destruct (mkdir_throws _); [reflexivity|].
    destruct (writeFile_throws _); reflexivity.
  - intros Hd. exists w2, msg2, (LegacyPixelSocket.fullMetadata (clock (rt w)) metadata).
    split; [exact Heq2|]. by rewrite Ht2, Hd, map_app.
  - intros dir Hd. cbv zeta. exists w2. split; [exact Heq2|].
    rewrite Ht2, Hd, map_app, drop_app_length.
    assert (meta_format (LegacyPixelSocket.fullMetadata (clock (rt w)) metadata)
            = metadata ≫= meta_format) as -> by (by destruct metadata).
    destruct (mkdir_throws _); [reflexivity|].
    destruct (metadata ≫= meta_timestamp) as [[time|]|]; [|done|];
      cbn [default from_option id];
      destruct (writeFile_throws _); reflexivity.
Qed.

Lemma persistence_witness :
  let w0 := PixelSocket.new_PixelSocket no_directory in
  imageLength sample_payload = Number 4 /\
  (None : option ImageMetadata) ≫= meta_timestamp <> Some NotDate /\
  truthy (saveDirectory (options (this w0))) = None /\
  truthy (saveDirectory (options (this connected))) = Some "./received_images" /\
  blobData sample_payload = Some sample_image /\
  (exists w',
     PixelSocket.processImage (Some sample_payload) w0 = (Ok tt, w') /\
     length (effects w') = 1%nat) /\
  (exists w',
     PixelSocket.processImage (Some sample_payload) connected = (Ok tt, w') /\
     List.filter (fun e => match e with
                           | Mkdir _ _ | WriteFile _ _ _ | OnError _ => true
                           | _ => false
                           end) (drop (length (effects connected)) (effects w'))
       = [Mkdir "./received_images" true;
          WriteFile "./received_images/1000_abc.png" sample_image true]).
Proof.
  cbv zeta.
  assert ((None : option ImageMetadata) ≫= meta_timestamp <> Some NotDate) as Hd
    by discriminate.
  split; [reflexivity|]. split; [exact Hd|].
  split; [reflexivity|]. split; [reflexivity|]. split; [reflexivity|]. split.
  - destruct (persistence (PixelSocket.new_PixelSocket no_directory) sample_payload 4 [] None
                eq_refl Hd) as (_ & H & _).
    destruct (H (or_introl eq_refl)) as (w' & msg & Heq & He).
    exists w'. split; [exact Heq|]. rewrite He. reflexivity.
  - destruct (persistence connected sample_payload 4 [] None eq_refl Hd) as (_ & _ & H & _).
    destruct (H "./received_images" sample_image eq_refl eq_refl) as (w' & Heq & He).
    exists w'. split; [exact Heq|]. rewrite He. reflexivity.
Defined.

(** ** [disconnect()] *)

Lemma step_disconnect c w : PixelSocket.step c Call_disconnect w = snd (Shared.disconnect w).
Proof.
  cbn [PixelSocket.step]. destruct (disconnect_spec w) as (w' & Heq & _).
  rewrite (run_ok _ _ _ _ Heq). by rewrite Heq.
Qed.

(** Right after [disconnect()] in a reachable state the instance is idle
    and stopped. *)
Lemma disconnected_idle c o es :
  let w1 := PixelSocket.step c Call_disconnect
              (PixelSocket.steps c es (PixelSocket.new_PixelSocket o)) in
  idle (count is_connect_call w1) w1 /\ stopped (count is_SetTimeout w1) w1.
Proof.
  intros w1. subst w1. rewrite step_disconnect.
  set (w := PixelSocket.steps c es (PixelSocket.new_PixelSocket o)).
  pose proof (disconnect_cancels_all w (tracked_reachable c es o)) as Htm.
  destruct (disconnect_spec w) as (w' & Heq & Hs & _ & _ & Hk & _).
  rewrite Heq in *. cbn [snd] in *.
  split; [by repeat split|]. split; [done|]. split; [|done].
  intros t tm. by rewrite Htm, lookup_empty.
Qed.

(** C5. [disconnect()] returns normally in every state, also when called
    again or while a reconnect is pending. After it, in a state the client
    can reach, no timer is armed and neither timer is remembered, so a
    reconnect scheduled before the call never fires; and as long as the
    caller does not call [connect()] itself, whatever happens next arms no
    timer, schedules no reconnect and makes no call of [connect]. *)
Theorem disconnect_is_final (c : PixelSocket.Codec) (o : PixelSocketOptions)
    (es es' : list event) :
  forallb (fun e => negb (is_Call_connect e)) es' = true ->
  let w := PixelSocket.steps c es (PixelSocket.new_PixelSocket o) in
  let w1 := PixelSocket.step c Call_disconnect w in
  let w2 := PixelSocket.steps c es' w1 in
  (forall w0, exists w', Shared.disconnect w0 = (Ok tt, w')) /\
  count (fun e => match e with Escaped _ => true | _ => false end) w1
    = count (fun e => match e with Escaped _ => true | _ => false end) w /\
  timers (rt w1) = ∅ /\
  reconnectTimeout (this w1) = None /\
  pingTimeout (this w1) = None /\
  (forall t, PixelSocket.step c (Timer_fires t) w1 = w1) /\
  timers (rt w2) = ∅ /\
  shouldReconnect (this w2) = false /\
  count is_SetTimeout w2 = count is_SetTimeout w1 /\
  count is_connect_call w2 = count is_connect_call w1.
Proof.
  intros Hes w w1 w2.
  destruct (disconnected_idle c o es) as [Hidle Hstopped]. fold w w1 in Hidle, Hstopped.
  assert (idle (count is_connect_call w1) w2) as (H1 & H2 & H3 & H4).
  { apply (steps_keep _ is_Call_connect); [apply idle_step | exact Hes | exact Hidle]. }
  assert (stopped (count is_SetTimeout w1) w2) as (_ & _ & H5).
  { apply steps_keep_all; [apply stopped_step | exact Hstopped]. }
  destruct Hidle as (_ & _ & Htm & _).
  split; [intros w0; destruct (disconnect_spec w0) as (w' & Heq & _); by exists w'|].
  assert (reconnectTimeout (this w1) = None /\ pingTimeout (this w1) = None /\
          count (fun e => match e with Escaped _ => true | _ => false end) w1
          = count (fun e => match e with Escaped _ => true | _ => false end) w)
    as (Hr & Hp & Hc).
  { subst w1. rewrite step_disconnect.
    destruct (disconnect_spec w) as (w' & Heq & _ & Hr & Hp & _ & _ & _ & He).
    rewrite Heq. cbn [snd]. split; [done|]. split; [done|].
    rewrite (count_effects_app _ _ _ _ He), !List.filter_app, !filter_cleared_nil by done.
    cbn. lia. }
  repeat (split; [assumption|]).
  split; [|by repeat split].
  intros t. cbn [PixelSocket.step]. unfold on_timer. by rewrite Htm, lookup_empty.
Qed.

Lemma disconnect_is_final_witness :
  let c := codec_of sample_payload in
  let w1 := PixelSocket.step c Call_disconnect reconnecting in
  let w2 := PixelSocket.steps c
              [Call_disconnect; Timer_fires 4%nat; Timer_fires 3%nat;
               Socket_close 1%nat 1000 ""; Socket_open 1%nat] w1 in
  timers (rt reconnecting) !! 4%nat
    = Some {| repeating := false; delay := 5000; callback := ReconnectCallback |} /\
  timers (rt w1) = ∅ /\
  timers (rt w2) = ∅ /\
  count is_connect_call w2 = count is_connect_call w1.
Proof.
  cbv zeta. split; [reflexivity|].
  destruct (disconnect_is_final (codec_of sample_payload) sample_options
              [Call_connect; Socket_open 1%nat; Socket_close 1%nat 1006 "gone"]
              [Call_disconnect; Timer_fires 4%nat; Timer_fires 3%nat;
               Socket_close 1%nat 1000 ""; Socket_open 1%nat] eq_refl)
    as (_ & _ & H1 & _ & _ & _ & H2 & _ & _ & H3).
  split; [exact H1|]. split; [exact H2 | exact H3].
Defined.

(** C9. Once [disconnect()] was called the stop flag stays down whatever
    follows, calls of [connect()], open events and close events included:
    no reconnect is scheduled any more and no reconnect timer is ever
    armed. *)
Theorem disconnect_disables_reconnect (c : PixelSocket.Codec) (o : PixelSocketOptions)
    (es es' : list event) :
  let w1 := PixelSocket.step c Call_disconnect
              (PixelSocket.steps c es (PixelSocket.new_PixelSocket o)) in
  let w2 := PixelSocket.steps c es' w1 in
  shouldReconnect (this w2) = false /\
  shouldReconnect (this (PixelSocket.step c Call_connect w2)) = false /\
  count is_SetTimeout w2 = count is_SetTimeout w1 /\
  (forall t tm, timers (rt w2) !! t = Some tm -> callback tm = PingCallback) /\
  (forall s code reason,
     let w3 := PixelSocket.step c (Socket_close s code reason) w2 in
     count is_SetTimeout w3 = count is_SetTimeout w2 /\
     timers (rt w3) = timers (rt w2)).
Proof.
  intros w1 w2.
  destruct (disconnected_idle c o es) as [_ Hstopped]. fold w1 in Hstopped.
  assert (stopped (count is_SetTimeout w1) w2) as Hs2
    by (apply steps_keep_all; [apply stopped_step | exact Hstopped]).
  pose proof (stopped_step c _ Call_connect w2 Hs2) as (H & _).
  destruct Hs2 as (H1 & H2 & H3).
  repeat (split; [assumption|]).
  intros s code reason w3. subst w3. cbn [PixelSocket.step]. unfold on_socket.
  destruct (sockets (rt w2) !! s) as [old|]; [|done].
  set (w2' := with_rt _ w2).
  destruct (onclose_prefix w2' code reason) as (w3 & msg & Ht & Htm & _ & _ & He & Hp & _).
  assert (shouldReconnect (this w2') = false) as Hsr by exact H1.
  rewrite Hsr in Hp. cbn [andb] in Hp. rewrite (run_ok _ _ _ _ Hp). split; [|exact Htm].
  rewrite (count_effects_app _ _ _ _ He). cbn. rewrite Nat.add_0_r. by apply count_same.
Qed.

(** ** [getStats()] *)

Lemma getStats_spec w :
  wf w ->
  let l := next_id (rt w) in
  exists w1,
    Shared.getStats w = (Ok l, w1) /\
    l <> stats (this w1) /\
    l ∈ snapshots (rt w1) /\
    heap (rt w1) !! l = Some (ObjStats (the_stats w)) /\
    the_stats w1 = the_stats w /\
    snapshot_holds l (the_stats w) w1.
Proof.
  intros [H1 H2] l. subst l. unfold Shared.getStats. munfold. wsimpl.
  eexists. split; [reflexivity|]. wsimpl.
  assert (next_id (rt w) <> stats (this w)) as Hne by lia.
  split; [exact Hne|]. split; [by left|].
  split; [by rewrite lookup_insert_eq|]. split.
  - unfold the_stats. wsimpl. by rewrite lookup_insert_ne.
  - split; [wsimpl; lia|]. split; [exact Hne|]. wsimpl. by rewrite lookup_insert_eq.
Qed.

(** An assignment to a handed-out record does not reach [this.stats]. *)
Lemma caller_writes_stats l s w :
  wf w -> the_stats (caller_writes l s w) = the_stats w.
Proof.
  intros [_ Hsn]. unfold caller_writes. case_bool_decide as Hin; [|done].
  rewrite Forall_forall in Hsn. destruct (Hsn l Hin) as [_ Hne].
  unfold the_stats. wsimpl. by rewrite lookup_insert_ne.
Qed.

(** *** The objects of the heap *)

Lemma heap_ok_frame w w' :
  heap (rt w') = heap (rt w) ->
  stats (this w') = stats (this w) ->
  snapshots (rt w') = snapshots (rt w) ->
  (next_id (rt w) <= next_id (rt w'))%nat ->
  heap_ok w -> heap_ok w'.
Proof.
  intros Hh Hs Hp Hn (H1 & H2 & H3 & H4). unfold heap_ok, the_stats in *.
  rewrite Hh, Hs, Hp. split; [|done].
  intros l o Hl. specialize (H1 l o Hl). lia.
Qed.

Lemma heap_ok_update_stats f :
  (forall s, connectedAt (f s) = connectedAt s) -> keeps heap_ok (update_stats f).
Proof.
  intros Hf w (H1 & [s Hs] & H3 & H4).
  set (w' := snd (update_stats f w)).
  assert (heap (rt w') = <[stats (this w) := ObjStats (f (the_stats w))]> (heap (rt w)))
    as Hh by reflexivity.
  assert (the_stats w' = f (the_stats w)) as Hst.
  { unfold the_stats at 1. rewrite Hh. change (stats (this w')) with (stats (this w)).
    by rewrite lookup_insert_eq. }
  unfold heap_ok. rewrite Hst, Hh.
  change (stats (this w')) with (stats (this w)).
  change (next_id (rt w')) with (next_id (rt w)).
  change (snapshots (rt w')) with (snapshots (rt w)).
  rewrite lookup_insert_eq.
  split; [|split; [eauto|split]].
  - intros l o. destruct (decide (l = stats (this w))) as [->|Hne].
    + intros _. by apply (H1 _ _ Hs).
    + rewrite lookup_insert_ne by done. apply H1.
  - eapply Forall_impl; [exact H3|]. cbn. intros l [Hne Hl]. split; [done|].
    by rewrite lookup_insert_ne.
  - intros d. rewrite Hf. intros Hd.
    destruct (H4 d Hd) as [time Ht]. exists time.
    rewrite lookup_insert_ne; [done|]. intros <-. congruence.
Qed.

Lemma heap_ok_set_date :
  keeps heap_ok (do d <- new_Date in update_stats (set_connectedAt (Some d))).
Proof.
  intros w (H1 & [s Hs] & H3 & H4).
  pose proof (H1 _ _ Hs) as Hlt.
  set (w' := snd _).
  set (l := next_id (rt w)) in *.
  assert (heap (rt w') =
            <[stats (this w) := ObjStats (set_connectedAt (Some l) (the_stats w))]>
              (<[l := ObjDate (clock (rt w))]> (heap (rt w)))) as Hh.
  { subst w'. munfold. wsimpl. unfold the_stats at 1. wsimpl.
    by rewrite lookup_insert_ne by lia. }
  assert (the_stats w' = set_connectedAt (Some l) (the_stats w)) as Hst.
  { unfold the_stats at 1. rewrite Hh. change (stats (this w')) with (stats (this w)).
    by rewrite lookup_insert_eq. }
  unfold heap_ok. rewrite Hst, Hh.
  change (stats (this w')) with (stats (this w)).
  change (next_id (rt w')) with (S l).
  change (snapshots (rt w')) with (snapshots (rt w)).
  rewrite lookup_insert_eq.
  split; [|split; [eauto|split]].
  - intros l' o. destruct (decide (l' = stats (this w))) as [->|Hne].
    + intros _. lia.
    + rewrite lookup_insert_ne by done.
      destruct (decide (l' = l)) as [->|Hne']; [intros _; lia|].
      rewrite lookup_insert_ne by done. intros Hl. specialize (H1 _ _ Hl). lia.
  - eapply Forall_impl; [exact H3|]. cbn. intros l' [Hne [s' Hl]]. split; [done|].
    exists s'. rewrite !lookup_insert_ne; [done| |done].
    intros <-. specialize (H1 _ _ Hl). lia.
  - intros d [= <-]. exists (clock (rt w)).
    rewrite lookup_insert_ne by lia. by rewrite lookup_insert_eq.
Qed.

Lemma heap_ok_getStats : keeps heap_ok Shared.getStats.
Proof.
  intros w (H1 & [s Hs] & H3 & H4).
  pose proof (H1 _ _ Hs) as Hlt.
  set (w' := snd _).
  set (l := next_id (rt w)) in *.
  assert (heap (rt w') = <[l := ObjStats (the_stats w)]> (heap (rt w))) as Hh by reflexivity.
  assert (the_stats w' = the_stats w) as Hst.
  { unfold the_stats at 1. rewrite Hh. change (stats (this w')) with (stats (this w)).
    by rewrite lookup_insert_ne by lia. }
  unfold heap_ok. rewrite Hst, Hh.
  change (stats (this w')) with (stats (this w)).
  change (next_id (rt w')) with (S l).
  change (snapshots (rt w')) with (l :: snapshots (rt w)).
  rewrite (lookup_insert_ne _ l (stats (this w))) by lia. rewrite Hs.
  split; [|split; [eauto|split]].
  - intros l' o. destruct (decide (l' = l)) as [->|Hne]; [intros _; lia|].
    rewrite lookup_insert_ne by done. intros Hl. specialize (H1 _ _ Hl). lia.
  - constructor.
    + split; [lia|]. rewrite lookup_insert_eq. eauto.
    + eapply Forall_impl; [exact H3|]. cbn. intros l' [Hne [s' Hl]]. split; [done|].
      exists s'. rewrite lookup_insert_ne; [done|].
      intros <-. specialize (H1 _ _ Hl). lia.
  - intros d Hd. destruct (H4 d Hd) as [time Ht]. exists time.
    rewrite lookup_insert_ne; [done|]. intros <-. specialize (H1 _ _ Ht). lia.
Qed.

Lemma heap_ok_caller_writes l s w : heap_ok w -> heap_ok (caller_writes l s w).
Proof.
  intros H. unfold caller_writes. case_bool_decide as Hin; [|exact H].
  destruct H as (H1 & [s0 Hs] & H3 & H4).
  rewrite Forall_forall in H3. destruct (H3 l Hin) as [Hne [sl Hl]].
  set (w' := with_rt _ w).
  assert (heap (rt w') = <[l := ObjStats s]> (heap (rt w))) as Hh by reflexivity.
  assert (the_stats w' = the_stats w) as Hst.
  { unfold the_stats. rewrite Hh. change (stats (this w')) with (stats (this w)).
    by rewrite lookup_insert_ne. }
  unfold heap_ok. rewrite Hst, Hh.
  change (stats (this w')) with (stats (this w)).
  change (next_id (rt w')) with (next_id (rt w)).
  change (snapshots (rt w')) with (snapshots (rt w)).
  rewrite (lookup_insert_ne _ l (stats (this w))) by done. rewrite Hs.
  split; [|split; [eauto|split]].
  - intros l' o. destruct (decide (l' = l)) as [->|Hne']; [intros _; by apply (H1 _ _ Hl)|].
    rewrite lookup_insert_ne by done. apply H1.
  - rewrite Forall_forall. intros l' Hin'. destruct (H3 l' Hin') as [Hne' [s' Hl']].
    split; [done|]. destruct (decide (l' = l)) as [->|Hne''].
    + rewrite lookup_insert_eq. eauto.
    + rewrite lookup_insert_ne by done. eauto.
  - intros d Hd. destruct (H4 d Hd) as [time Ht]. exists time.
    rewrite lookup_insert_ne; [done|]. intros <-. congruence.
Qed.

Lemma heap_ok_caller_setTime l time w : heap_ok w -> heap_ok (caller_setTime l time w).
Proof.
  intros H. unfold caller_setTime.
  destruct (heap (rt w) !! l) as [[|t0]|] eqn:El; try exact H.
  destruct H as (H1 & [s0 Hs] & H3 & H4).
  assert (l <> stats (this w)) as Hne by (intros ->; congruence).
  set (w' := with_rt _ w).
  assert (heap (rt w') = <[l := ObjDate time]> (heap (rt w))) as Hh by reflexivity.
  assert (the_stats w' = the_stats w) as Hst.
  { unfold the_stats. rewrite Hh. change (stats (this w')) with (stats (this w)).
    by rewrite lookup_insert_ne. }
  unfold heap_ok. rewrite Hst, Hh.
  change (stats (this w')) with (stats (this w)).
  change (next_id (rt w')) with (next_id (rt w)).
  change (snapshots (rt w')) with (snapshots (rt w)).
  rewrite (lookup_insert_ne _ l (stats (this w))) by done. rewrite Hs.
  split; [|split; [eauto|split]].
  - intros l' o. destruct (decide (l' = l)) as [->|Hne']; [intros _; by apply (H1 _ _ El)|].
    rewrite lookup_insert_ne by done. apply H1.
  - eapply Forall_impl; [exact H3|]. cbn. intros l' [Hne' [s' Hl']]. split; [done|].
    exists s'. rewrite lookup_insert_ne; [done|]. intros <-. congruence.
  - intros d Hd. destruct (H4 d Hd) as [time' Ht].
    destruct (decide (d = l)) as [->|Hne'].
    + rewrite lookup_insert_eq. eauto.
    + rewrite lookup_insert_ne by done. eauto.
Qed.

Create HintDb heap_db.
#[export] Hint Resolve heap_ok_set_date heap_ok_getStats : heap_db.
#[export] Hint Extern 1 (keeps heap_ok (update_stats _)) =>
  apply heap_ok_update_stats; intros; reflexivity : heap_db.

Ltac heap_closer H :=
  first [ exact H
        | eapply heap_ok_frame; [| | | | exact H]; wsimpl; first [reflexivity | lia] ].

Lemma heap_ok_step c e w : heap_ok w -> heap_ok (PixelSocket.step c e w).
Proof.
  intros H. destruct e; cbn [PixelSocket.step];
    try (apply (keeps_run heap_ok); [|intros ?; prim_by heap_closer|exact H]);
    try (apply (on_socket_keeps heap_ok);
           [let v := fresh in let w' := fresh in let H' := fresh in
            intros v w' H'; wsimpl; heap_closer H'
           | |intros ?; prim_by heap_closer|exact H]);
    try (unfold Shared.reconnect_callback; unfold_all_methods;
         keeps_with heap_db heap_closer; fail).
  - by apply heap_ok_caller_writes.
  - by apply heap_ok_caller_setTime.
  - unfold on_timer. destruct (timers (rt w) !! t) as [tm|]; [|done].
    set (w' := if repeating tm then w else _).
    assert (heap_ok w') as H'.
    { subst w'. destruct (repeating tm); [done|]. heap_closer H. }
    clearbody w'.
    destruct (callback tm);
      (apply (keeps_run heap_ok); [|intros ?; prim_by heap_closer|done]);
      unfold Shared.reconnect_callback; unfold_all_methods; keeps_with heap_db heap_closer.
Qed.

Lemma heap_ok_reachable c es o :
  heap_ok (PixelSocket.steps c es (PixelSocket.new_PixelSocket o)).
Proof.
  apply steps_keep_all; [apply heap_ok_step|].
  split; [|split; [|split]].
  - intros l o'. cbn. intros Hl. apply lookup_singleton_Some in Hl as [<- _]. lia.
  - cbn. rewrite lookup_singleton_eq. eauto.
  - constructor.
  - intros d. unfold the_stats. cbn. rewrite lookup_singleton_eq. discriminate.
Qed.

(** C8 as stated fails: the copy is shallow. The [Date] in [connectedAt]
    is one object, reached from the returned record and from the internal
    one alike: the caller sets its time through the record it was given,
    and the date of the internal statistics has changed. *)
Lemma snapshot_shares_the_date :
  let c := codec_of sample_payload in
  let w1 := PixelSocket.step c Call_getStats connected in
  let w2 := PixelSocket.step c (Caller_setTime 2%nat 86400000) w1 in
  snapshots (rt w1) = [4%nat] /\
  heap (rt w1) !! 4%nat = Some (ObjStats (the_stats connected)) /\
  connectedAt (the_stats connected) = Some 2%nat /\
  date_at w1 (connectedAt (the_stats w1)) = Some 0 /\
  date_at w2 (connectedAt (the_stats w2)) = Some 86400000 /\
  connectedAt_time 4%nat w2 = Some 86400000.
Proof. vm_compute. repeat split; reflexivity. Qed.

(** C8, as amended. In every state the client can reach, [getStats()]
    returns a new record, distinct from the internal one, holding the
    current field values. Whatever the caller assigns to its fields, then
    or later, the internal statistics do not change; and whatever the
    instance does afterwards, the record keeps the values it was returned
    with until the caller itself assigns to it. The copy goes no deeper
    than the fields: the [Date] of [connectedAt] is shared, and when the
    caller sets its time, the internal statistics and the record both show
    the new time. *)
Theorem getStats_returns_a_copy (c : PixelSocket.Codec) (o : PixelSocketOptions)
    (es es' : list event) :
  let w := PixelSocket.steps c es (PixelSocket.new_PixelSocket o) in
  exists l w1,
    Shared.getStats w = (Ok l, w1) /\
    l <> stats (this w1) /\
    heap (rt w1) !! l = Some (ObjStats (the_stats w)) /\
    the_stats w1 = the_stats w /\
    (forall s,
       let w2 := PixelSocket.step c (Caller_writes l s) w1 in
       heap (rt w2) !! l = Some (ObjStats s) /\ the_stats w2 = the_stats w1) /\
    (forall s,
       let w2 := PixelSocket.steps c es' w1 in
       the_stats (PixelSocket.step c (Caller_writes l s) w2) = the_stats w2) /\
    (forallb (fun e => negb (writes_to l e)) es' = true ->
     heap (rt (PixelSocket.steps c es' w1)) !! l = Some (ObjStats (the_stats w))) /\
    (forall d time,
       connectedAt (the_stats w) = Some d ->
       let w2 := PixelSocket.step c (Caller_setTime d time) w1 in
       (exists t0, date_at w1 (Some d) = Some t0 /\ connectedAt_time l w1 = Some t0) /\
       the_stats w2 = the_stats w1 /\
       heap (rt w2) !! l = heap (rt w1) !! l /\
       date_at w2 (connectedAt (the_stats w2)) = Some time /\
       connectedAt_time l w2 = Some time).
Proof.
  intros w. pose proof (wf_reachable c es o) as Hwf. fold w in Hwf.
  destruct (getStats_spec w Hwf) as (w1 & Heq & Hne & Hin & Hl & Hs & Hsnap).
  exists (next_id (rt w)), w1. repeat (split; [assumption|]).
  assert (wf w1) as Hwf1.
  { pose proof (wf_getStats w Hwf) as H. by rewrite Heq in H. }
  split; [|split; [|split]].
  - intros s w2. subst w2. cbn [PixelSocket.step]. split; [|by apply caller_writes_stats].
    unfold caller_writes. rewrite bool_decide_eq_true_2 by done. wsimpl.
    by rewrite lookup_insert_eq.
  - intros s w2. subst w2. cbn [PixelSocket.step]. apply caller_writes_stats.
    by apply steps_keep_all; [apply wf_step|].
  - intros Hes.
    assert (snapshot_holds (next_id (rt w)) (the_stats w) (PixelSocket.steps c es' w1))
      as (_ & _ & H); [|exact H].
    apply (steps_keep _ (writes_to (next_id (rt w)))); [|exact Hes|exact Hsnap].
    intros e w0 He. by apply snapshot_step.
  - intros d time Hd w2. subst w2. cbn [PixelSocket.step].
    assert (heap_ok w1) as (_ & _ & _ & Hdate).
    { pose proof (heap_ok_getStats w (heap_ok_reachable c es o)) as H. by rewrite Heq in H. }
    rewrite <- Hs in Hd. destruct (Hdate d Hd) as [t0 Ed].
    assert (d <> next_id (rt w)) as Hdl by (intros ->; congruence).
    assert (d <> stats (this w1)) as Hds.
    { intros ->. unfold the_stats in Hd. by rewrite Ed in Hd. }
    assert (the_stats (caller_setTime d time w1) = the_stats w1) as Hst.
    { unfold caller_setTime. rewrite Ed. unfold the_stats. wsimpl.
      by rewrite lookup_insert_ne. }
    assert (heap (rt (caller_setTime d time w1)) = <[d := ObjDate time]> (heap (rt w1)))
      as Hheap by (unfold caller_setTime; by rewrite Ed).
    split; [|split; [exact Hst|split; [|split]]].
    + exists t0. unfold connectedAt_time, date_at. by rewrite Hl, <- Hs, Hd, Ed.
    + by rewrite Hheap, lookup_insert_ne.
    + rewrite Hst, Hd. unfold date_at. by rewrite Hheap, lookup_insert_eq.
    + unfold connectedAt_time, date_at.
      rewrite Hheap, lookup_insert_ne, Hl, <- Hs, Hd by done.
      by rewrite lookup_insert_eq.
Qed.

Lemma getStats_returns_a_copy_witness :
  let c := codec_of sample_payload in
  let later := [Socket_message 1%nat (Binary []); Socket_close 1%nat 1006 "gone";
                Call_getStats; Caller_writes 5%nat empty_stats] in
  forallb (fun e => negb (writes_to 4%nat e)) later = true /\
  exists w1,
    Shared.getStats connected = (Ok 4%nat, w1) /\
    heap (rt (PixelSocket.steps c later w1)) !! 4%nat
      = Some (ObjStats (the_stats connected)) /\
    imagesReceived (the_stats (PixelSocket.steps c later w1)) = 1 /\
    connectedAt (the_stats w1) = Some 2%nat /\
    date_at w1 (Some 2%nat) = Some 0 /\
    date_at (PixelSocket.step c (Caller_setTime 2%nat 86400000) w1)
      (connectedAt (the_stats (PixelSocket.step c (Caller_setTime 2%nat 86400000) w1)))
      = Some 86400000.
Proof.
  cbv zeta. split; [reflexivity|].
  destruct (getStats_returns_a_copy (codec_of sample_payload) sample_options
              [Call_connect; Socket_open 1%nat]
              [Socket_message 1%nat (Binary []); Socket_close 1%nat 1006 "gone";
               Call_getStats; Caller_writes 5%nat empty_stats])
    as (l & w1 & Heq & _ & _ & _ & _ & _ & H & Hdate).
  assert (l = 4%nat /\ w1 = snd (Shared.getStats connected)) as [-> ->].
  { change (Shared.getStats connected = (Ok l, w1)) in Heq.
    split; [|by rewrite Heq].
    assert (Ok l = fst (Shared.getStats connected)) as Hl by (by rewrite Heq).
    vm_compute in Hl. congruence. }
  eexists. split; [reflexivity|]. split; [exact (H eq_refl)|].
  split; [vm_compute; reflexivity|].
  split; [vm_compute; reflexivity|]. split; [vm_compute; reflexivity|].
  assert (connectedAt (the_stats connected) = Some 2%nat) as Hd by (vm_compute; reflexivity).
  by destruct (Hdate 2%nat 86400000 Hd) as (_ & _ & _ & H4 & _).
Defined.

(** * Further properties of the code *)

Lemma on_timer_keeps (I : world -> Prop) t w :
  (forall t w, I w -> I (with_rt (fun r => set_timers (delete t (timers r)) r) w)) ->
  keeps I Shared.reconnect_callback ->
  keeps I Shared.ping_callback ->
  (forall t, keeps I (emit (Escaped t))) ->
  I w -> I (on_timer t w).
Proof.
  intros Hd Hr Hp He H. unfold on_timer.
  destruct (timers (rt w) !! t) as [tm|]; [|done].
  set (w' := if repeating tm then w else _).
  assert (I w') as H' by (subst w'; destruct (repeating tm); [done | by apply Hd]).
  clearbody w'. destruct (callback tm); by apply keeps_run.
Qed.

Ltac unfold_handlers := unfold Shared.reconnect_callback; unfold_all_methods.

Ltac unfold_deep := unfold Shared.getStats; unfold_handlers.

(** An invariant that every primitive keeps is kept by every step; [unf]
    opens the methods that have no lemma of their own in [db]. *)
Ltac inv_step_with unf H e db closer :=
  destruct e; try discriminate; cbn [PixelSocket.step];
  try (apply keeps_run; [|intros ?; prim_by closer|exact H]);
  try (apply on_socket_keeps;
         [let v := fresh in let w' := fresh in let H' := fresh in
          intros v w' H'; wsimpl; closer H'
         | |intros ?; prim_by closer|exact H]);
  try (apply on_timer_keeps;
         [let t' := fresh in let w' := fresh in let H' := fresh in
          intros t' w' H'; wsimpl; closer H'
         | | |intros ?; prim_by closer|exact H]);
  try (unf; keeps_with db closer; fail).

Ltac inv_step H e db closer := inv_step_with unfold_deep H e db closer.

Lemma caller_setTime_stats l time w : the_stats (caller_setTime l time w) = the_stats w.
Proof.
  unfold caller_setTime. destruct (heap (rt w) !! l) as [[|]|] eqn:E; try done.
  unfold the_stats. wsimpl. destruct (decide (l = stats (this w))) as [->|Hne].
  - by rewrite lookup_insert_eq, E.
  - by rewrite lookup_insert_ne.
Qed.

Lemma caller_writes_frame l s w :
  this (caller_writes l s w) = this w /\
  trace (rt (caller_writes l s w)) = trace (rt w) /\
  next_id (rt (caller_writes l s w)) = next_id (rt w) /\
  timers (rt (caller_writes l s w)) = timers (rt w) /\
  sockets (rt (caller_writes l s w)) = sockets (rt w).
Proof. unfold caller_writes. by case_match. Qed.

Lemma caller_setTime_frame l time w :
  this (caller_setTime l time w) = this w /\
  trace (rt (caller_setTime l time w)) = trace (rt w) /\
  next_id (rt (caller_setTime l time w)) = next_id (rt w) /\
  timers (rt (caller_setTime l time w)) = timers (rt w) /\
  sockets (rt (caller_setTime l time w)) = sockets (rt w).
Proof. unfold caller_setTime. by repeat case_match. Qed.

(** ** The options are fixed by the constructor *)

Ltac same_closer H := exact H.

Lemma options_step c o e w :
  options_are o w -> options_are o (PixelSocket.step c e w).
Proof.
  intros H. inv_step H e core same_closer.
  all: unfold caller_writes, caller_setTime; repeat case_match; exact H.
Qed.

Lemma options_reachable c o es :
  options (this (PixelSocket.steps c es (PixelSocket.new_PixelSocket o))) =
    {| url := opt_url o;
       saveDirectory := default (Some "./received_images") (opt_saveDirectory o);
       autoReconnect := default true (opt_autoReconnect o);
       reconnectDelay := default 5000 (opt_reconnectDelay o);
       maxReconnectAttempts := default 10 (opt_maxReconnectAttempts o) |}.
Proof.
  apply (steps_keep_all (options_are _) c); [intros; by apply options_step|].
  reflexivity.
Qed.

(** X1. Nothing the instance does changes [this.options]: after any
    sequence of events, from any state, they are what they were. In a new
    instance they are what the constructor stored: for each key the caller's
    options do not have, the default (the directory [./received_images],
    auto reconnect, 5000 ms, 10 attempts); for each key the caller gave a
    value, that value; and for a [saveDirectory] the caller gave as
    [undefined], [undefined]. *)
Theorem options_fixed_by_constructor (c : PixelSocket.Codec) (es : list event) :
  (forall w, options (this (PixelSocket.steps c es w)) = options (this w)) /\
  (forall o,
     options (this (PixelSocket.new_PixelSocket o)) =
       {| url := opt_url o;
          saveDirectory :=
            match opt_saveDirectory o with
            | None => Some "./received_images"
            | Some None => None
            | Some (Some directory) => Some directory
            end;
          autoReconnect :=
            match opt_autoReconnect o with Some b => b | None => true end;
          reconnectDelay :=
            match opt_reconnectDelay o with Some d => d | None => 5000 end;
          maxReconnectAttempts :=
            match opt_maxReconnectAttempts o with Some n => n | None => 10 end |}).
Proof.
  split.
  - intros w. apply (steps_keep_all (options_are _) c); [intros; by apply options_step|].
    reflexivity.
  - intros o. cbn.
    by destruct (opt_saveDirectory o) as [[|]|], (opt_autoReconnect o),
      (opt_reconnectDelay o), (opt_maxReconnectAttempts o).
Qed.

(** ** The transport is closed by [disconnect()] alone *)

Ltac counted_closer H := unfold counted in *; count_solve H.

Lemma closes_step c n e w :
  is_Call_disconnect e = false ->
  counted is_SocketClose n w -> counted is_SocketClose n (PixelSocket.step c e w).
Proof.
  intros He H. inv_step H e core counted_closer.
  all: unfold caller_writes, caller_setTime; repeat case_match; exact H.
Qed.

(** X2. No handler and no method but [disconnect()] closes a socket: along
    any run without a call of [disconnect()] -- calls of [connect()] while a
    socket is in use, failed handshakes, error and close events, reconnects
    included -- [close] is never called; and a call of [disconnect()] closes
    the instance's socket once if it has one and nothing otherwise. *)
Theorem socket_closed_by_disconnect_only (c : PixelSocket.Codec) (w : world)
    (es : list event) :
  forallb (fun e => negb (is_Call_disconnect e)) es = true ->
  count is_SocketClose (PixelSocket.steps c es w) = count is_SocketClose w /\
  forall w0,
    effects (PixelSocket.step c Call_disconnect w0) =
      effects w0 ++ cleared ClearTimeout (reconnectTimeout (this w0))
        ++ cleared ClearInterval (pingTimeout (this w0))
        ++ cleared SocketClose (socket (this w0)) /\
    count is_SocketClose (PixelSocket.step c Call_disconnect w0) =
      (count is_SocketClose w0 + match socket (this w0) with Some _ => 1 | None => 0 end)%nat.
Proof.
  intros Hes. split.
  - apply (steps_keep (counted is_SocketClose _) is_Call_disconnect c); [|exact Hes|done].
    intros e w' He. by apply closes_step.
  - intros w0. rewrite step_disconnect.
    destruct (disconnect_spec w0) as (w' & E & _ & _ & _ & _ & _ & _ & Heff).
    rewrite E. cbn [snd]. split; [exact Heff|].
    rewrite (count_effects_app _ w0 w' _ Heff).
    rewrite !List.filter_app, !length_app.
    rewrite (filter_cleared_nil is_SocketClose ClearTimeout) by done.
    rewrite (filter_cleared_nil is_SocketClose ClearInterval) by done.
    by destruct (socket (this w0)).
Qed.

Lemma socket_closed_by_disconnect_only_witness :
  let es := [Call_connect; Socket_error 1%nat None; Socket_close 1%nat 1006 "gone";
             Timer_fires 4%nat; Socket_open 5%nat] in
  forallb (fun e => negb (is_Call_disconnect e)) es = true /\
  count is_SocketClose (PixelSocket.steps (codec_of sample_payload) es connected) = 0%nat.
Proof.
  intros es. split; [reflexivity|].
  destruct (socket_closed_by_disconnect_only (codec_of sample_payload) connected es eq_refl)
    as [H _].
  rewrite H. reflexivity.
Defined.


(** ** Without a directory the file system is left alone *)

Ltac saves_closer H :=
  let H1 := fresh in
  let H2 := fresh in
  destruct H as (H1 & H2); split; [exact H1 | count_solve H2].

Lemma never_saves_processImage payload : keeps never_saves (PixelSocket.processImage payload).
Proof.
  intros w [H1 H2]. destruct payload as [p|]; [destruct (imageLength p) as [n|n] eqn:En|].
  - destruct (processImage_spec p n w En) as (w' & msg & E & _ & Ht & _ & _ & Htr).
    rewrite E. cbn [snd]. rewrite H1 in Htr. split; [by rewrite Ht|].
    rewrite (count_snoc _ _ _ _ _ Htr). cbn. lia.
  - destruct (processImage_throws (Some p) w
                "Cannot mix BigInt and other types, use explicit conversions")
      as (w' & E & _ & Ht & _ & _ & Htr); [by rewrite En|].
    rewrite E. cbn [snd]. split; [by rewrite Ht|]. by rewrite (count_same _ _ _ Htr).
  - unfold PixelSocket.processImage. munfold. wsimpl. by split.
Qed.

Create HintDb saves_db.
#[export] Hint Resolve never_saves_processImage : saves_db.

Ltac unfold_but_processImage :=
  unfold Shared.reconnect_callback, Shared.getStats;
  unfold Shared.connect, Shared.onopen, Shared.onerror, Shared.send,
    Shared.isConnected, Shared.ping_callback, Shared.disconnect,
    Shared.reconnect_callback, Shared.startPingInterval,
    PixelSocket.onclose, PixelSocket.scheduleReconnect,
    PixelSocket.handleMessage, PixelSocket.decompressAndUnpack,
    PixelSocket.ensureZstdInit.

Lemma never_saves_step c e w : never_saves w -> never_saves (PixelSocket.step c e w).
Proof.
  intros H. inv_step_with unfold_but_processImage H e saves_db saves_closer.
  all: unfold caller_writes, caller_setTime; repeat case_match; exact H.
Qed.

(** X3. An instance constructed with [saveDirectory] set to [undefined] or
    to the empty string never creates a directory and never writes a file,
    whatever it receives and whatever else happens to it. *)
Theorem no_directory_no_files (c : PixelSocket.Codec) (o : PixelSocketOptions)
    (es : list event) :
  opt_saveDirectory o = Some None \/ opt_saveDirectory o = Some (Some "") ->
  count is_fs (PixelSocket.steps c es (PixelSocket.new_PixelSocket o)) = 0%nat.
Proof.
  intros Ho.
  apply (steps_keep_all never_saves c); [intros; by apply never_saves_step|].
  split; [|reflexivity]. cbn. by destruct Ho as [-> | ->].
Qed.

Lemma no_directory_no_files_witness :
  (opt_saveDirectory no_directory = Some None
   \/ opt_saveDirectory no_directory = Some (Some "")) /\
  count is_fs
    (PixelSocket.steps (codec_of sample_payload)
       [Call_connect; Socket_open 1%nat; Socket_message 1%nat (Binary [])]
       (PixelSocket.new_PixelSocket no_directory)) = 0%nat.
Proof.
  split; [left; reflexivity|].
  apply (no_directory_no_files (codec_of sample_payload) no_directory). left. reflexivity.
Defined.


(** ** What holds after the first part of a sequence *)

Lemma bind_post {A B} (I : world -> Prop) (m : M A) (k : A -> M B) w :
  I (snd (m w)) -> (forall a, keeps I (k a)) -> I (snd (bind m k w)).
Proof.
  intros Hm Hk. unfold bind. destruct (m w) as [[a|t] w']; cbn [snd] in *; [by apply Hk|done].
Qed.

Lemma try_catch_post {A} (I : world -> Prop) (m : M A) (h : thrown -> M A) w :
  I (snd (m w)) -> (forall t, keeps I (h t)) -> I (snd (try_catch m h w)).
Proof.
  intros Hm Hh. unfold try_catch.
  destruct (m w) as [[a|t] w']; cbn [snd] in *; [done|by apply Hh].
Qed.

Lemma run_post {A} (I : world -> Prop) (m : M A) w :
  I (snd (m w)) -> (forall t, keeps I (emit (Escaped t))) -> I (run m w).
Proof.
  intros Hm He. unfold run. destruct (m w) as [[a|t] w']; cbn [snd] in *; [done|by apply He].
Qed.

(** ** The flag of the decompressor *)

Ltac flag_closer H := unfold zstd_flag in *; wsimpl; first [exact H | reflexivity].

Lemma zstd_ready_step c e w : zstd_flag true w -> zstd_flag true (PixelSocket.step c e w).
Proof.
  intros H. inv_step H e core flag_closer.
  all: unfold caller_writes, caller_setTime; repeat case_match; exact H.
Qed.

Lemma zstd_flag_step c b e w :
  is_Socket_message e = false -> zstd_flag b w -> zstd_flag b (PixelSocket.step c e w).
Proof.
  intros He H. inv_step H e core same_closer.
  all: unfold caller_writes, caller_setTime; repeat case_match; exact H.
Qed.

Lemma decompressAndUnpack_flag c compressed w :
  zstd_flag (zstdInitialized (this w) || negb (zstdInit_throws (faults (rt w))))
    (snd (PixelSocket.decompressAndUnpack c compressed w)).
Proof.
  unfold PixelSocket.decompressAndUnpack, PixelSocket.ensureZstdInit,
    PixelSocket.zstdInit, PixelSocket.lift, zstd_flag.
  munfold. wsimpl.
  destruct (zstdInitialized (this w)) eqn:E, (zstdInit_throws (faults (rt w)));
    cbn [negb orb]; wsimpl;
    destruct (PixelSocket.zstdDecompress c compressed) as [d|?]; wsimpl;
    try destruct (PixelSocket.msgpackDecode c d); wsimpl; by rewrite ?E.
Qed.

Lemma handleMessage_flag c compressed w :
  zstd_flag (zstdInitialized (this w) || negb (zstdInit_throws (faults (rt w))))
    (snd (PixelSocket.handleMessage c (Binary compressed) w)).
Proof.
  unfold PixelSocket.handleMessage.
  apply try_catch_post; [apply bind_post; [apply decompressAndUnpack_flag|intros ?]|intros ?];
    unfold PixelSocket.processImage; keeps_with core same_closer.
Qed.

(** X4. The flag [zstdInitialized] follows the initialisation of the
    decompressor. It is down in a new instance. While it is up,
    [ensureZstdInit] returns at once and leaves everything as it is, also
    when the library would fail now; while it is down, [ensureZstdInit]
    raises it if [zstdInit] returns, and if [zstdInit] throws it writes a
    line to the console, throws the error on and leaves the flag down, so
    that the next frame tries again. No event lowers the flag; the handling
    of a binary frame leaves it up exactly if it was up or the
    initialisation succeeds; text frames and all other events leave it as
    it is. *)
Theorem zstd_flag_follows_the_initialisation (c : PixelSocket.Codec) (w : world) :
  (forall o, zstdInitialized (this (PixelSocket.new_PixelSocket o)) = false) /\
  (zstdInitialized (this w) = true -> PixelSocket.ensureZstdInit w = (Ok tt, w)) /\
  (zstdInitialized (this w) = false -> zstdInit_throws (faults (rt w)) = false ->
   PixelSocket.ensureZstdInit w = (Ok tt, with_this (set_zstdInitialized true) w)) /\
  (zstdInitialized (this w) = false -> zstdInit_throws (faults (rt w)) = true ->
   exists w',
     PixelSocket.ensureZstdInit w = (Throw (IsError "zstd init failed"), w') /\
     zstdInitialized (this w') = false /\
     effects w' = effects w ++ [ConsoleError "[Zstd] Initialization failed:"]) /\
  (forall e, zstdInitialized (this w) = true ->
     zstdInitialized (this (PixelSocket.step c e w)) = true) /\
  (forall s compressed, is_Some (sockets (rt w) !! s) ->
     zstdInitialized (this (PixelSocket.step c (Socket_message s (Binary compressed)) w))
       = zstdInitialized (this w) || negb (zstdInit_throws (faults (rt w)))) /\
  (forall s text,
     zstdInitialized (this (PixelSocket.step c (Socket_message s (Text text)) w))
       = zstdInitialized (this w)) /\
  (forall e, is_Socket_message e = false ->
     zstdInitialized (this (PixelSocket.step c e w)) = zstdInitialized (this w)).
Proof.
  split; [reflexivity|]. split; [|split; [|split; [|split; [|split; [|split]]]]].
  - intros H. unfold PixelSocket.ensureZstdInit. munfold. by rewrite H.
  - intros H Hf. unfold PixelSocket.ensureZstdInit, PixelSocket.zstdInit. munfold.
    by rewrite H, Hf.
  - intros H Hf. unfold PixelSocket.ensureZstdInit, PixelSocket.zstdInit. munfold.
    rewrite H, Hf. eexists. split; [reflexivity|]. split; [exact H|].
    unfold effects. wsimpl. by rewrite map_app.
  - intros e H. by apply zstd_ready_step.
  - intros s compressed [st Hs]. cbn [PixelSocket.step]. unfold on_socket. rewrite Hs.
    set (w1 := with_rt _ w).
    change (zstd_flag (zstdInitialized (this w1) || negb (zstdInit_throws (faults (rt w1))))
              (run (PixelSocket.handleMessage c (Binary compressed)) w1)).
    apply run_post; [apply handleMessage_flag|].
    intros ?; prim_by same_closer.
  - intros s text. cbn [PixelSocket.step]. unfold on_socket.
    destruct (sockets (rt w) !! s); [|done]. reflexivity.
  - intros e He. by apply (zstd_flag_step c _ e w He).
Qed.

Lemma zstd_flag_follows_the_initialisation_witness :
  let c := codec_of sample_payload in
  let w := PixelSocket.step c (Socket_message 1%nat (Binary [])) connected in
  zstdInitialized (this connected) = false /\
  zstdInitialized (this w) = true /\
  PixelSocket.ensureZstdInit w = (Ok tt, w).
Proof.
  intros c w. split; [reflexivity|]. split; [reflexivity|].
  destruct (zstd_flag_follows_the_initialisation c w) as (_ & H & _).
  apply H. reflexivity.
Defined.


(** ** [isConnected] follows the open and close events *)

Ltac conn_flag_closer H :=
  let H1 := fresh in
  let H2 := fresh in
  destruct H as (H1 & H2);
  split; [wsimpl; lia |];
  unfold the_stats in *; wsimpl;
  rewrite ?lookup_insert_eq, ?lookup_insert_ne by lia; wsimpl;
  first [exact H2 | reflexivity].

(** The caller's writes leave an invariant of the statistics alone. *)
Lemma caller_writes_keeps_stats (P : ConnectionStats -> Prop) l s w :
  wf w ->
  (stats (this w) < next_id (rt w))%nat /\ P (the_stats w) ->
  (stats (this (caller_writes l s w)) < next_id (rt (caller_writes l s w)))%nat /\
  P (the_stats (caller_writes l s w)).
Proof.
  intros Hwf H. rewrite (caller_writes_stats l s w Hwf).
  by destruct (caller_writes_frame l s w) as (-> & _ & -> & _).
Qed.

Lemma caller_setTime_keeps_stats (P : ConnectionStats -> Prop) l time w :
  (stats (this w) < next_id (rt w))%nat /\ P (the_stats w) ->
  (stats (this (caller_setTime l time w)) < next_id (rt (caller_setTime l time w)))%nat /\
  P (the_stats (caller_setTime l time w)).
Proof.
  intros H. rewrite (caller_setTime_stats l time w).
  by destruct (caller_setTime_frame l time w) as (-> & _ & -> & _).
Qed.

Ltac caller_cases P :=
  first [ by apply (caller_writes_keeps_stats P)
        | by apply (caller_setTime_keeps_stats P) ].

Lemma getStats_keeps_stats (P : ConnectionStats -> Prop) :
  keeps (fun w => (stats (this w) < next_id (rt w))%nat /\ P (the_stats w)) Shared.getStats.
Proof.
  intros w [H1 H2]. unfold Shared.getStats. munfold. wsimpl. split; [lia|].
  unfold the_stats in *. wsimpl. by rewrite lookup_insert_ne by lia.
Qed.

Lemma connection_flag_getStats b : keeps (connection_flag b) Shared.getStats.
Proof. apply (getStats_keeps_stats (fun s => isConnected s = b)). Qed.

Lemma counters_getStats i b : keeps (counters i b) Shared.getStats.
Proof.
  apply (getStats_keeps_stats (fun s => imagesReceived s = i /\ bytesReceived s = b)).
Qed.

Lemma images_getStats n : keeps (images_at_least n) Shared.getStats.
Proof. apply (getStats_keeps_stats (fun s => n <= imagesReceived s)). Qed.

Create HintDb stats_db.
#[export] Hint Resolve connection_flag_getStats counters_getStats images_getStats : stats_db.

Lemma offline_step c e w :
  is_Socket_open e = false -> wf w ->
  connection_flag false w -> connection_flag false (PixelSocket.step c e w).
Proof.
  intros He Hwf H. inv_step_with unfold_handlers H e stats_db conn_flag_closer.
  all: caller_cases (fun s => isConnected s = false).
Qed.

Lemma online_step c e w :
  is_Socket_close e = false -> is_Call_disconnect e = false -> wf w ->
  connection_flag true w -> connection_flag true (PixelSocket.step c e w).
Proof.
  intros He He' Hwf H. inv_step_with unfold_handlers H e stats_db conn_flag_closer.
  all: caller_cases (fun s => isConnected s = true).
Qed.

Lemma onopen_online w :
  (stats (this w) < next_id (rt w))%nat -> connection_flag true (snd (Shared.onopen w)).
Proof.
  intros Hlt. unfold Shared.onopen.
  repeat (apply bind_post; [|intros ?; unfold_deep; keeps_with core conn_flag_closer]).
  unfold connection_flag. munfold. stats_simpl. by split.
Qed.

Lemma onclose_offline code reason w :
  (stats (this w) < next_id (rt w))%nat ->
  connection_flag false (snd (PixelSocket.onclose code reason w)).
Proof.
  intros Hlt. unfold PixelSocket.onclose.
  repeat (apply bind_post; [|intros ?; unfold_deep; keeps_with core conn_flag_closer]).
  unfold connection_flag. munfold. stats_simpl. by split.
Qed.

(** X5. [isConnected()] returns the flag in the statistics, and that flag
    follows the events of the transport: it is false in a new instance,
    true after the open event of any socket the instance created (also when
    the handshake that follows fails), false after a close event of any
    such socket and after [disconnect()]; nothing but an open event raises
    it and nothing but a close event or [disconnect()] lowers it. *)
Theorem isConnected_follows_the_events (c : PixelSocket.Codec) (o : PixelSocketOptions)
    (es : list event) :
  let w := PixelSocket.steps c es (PixelSocket.new_PixelSocket o) in
  Shared.isConnected w = (Ok (isConnected (the_stats w)), w) /\
  isConnected (the_stats (PixelSocket.new_PixelSocket o)) = false /\
  (forall s, is_Some (sockets (rt w) !! s) ->
     isConnected (the_stats (PixelSocket.step c (Socket_open s) w)) = true) /\
  (forall s code reason, is_Some (sockets (rt w) !! s) ->
     isConnected (the_stats (PixelSocket.step c (Socket_close s code reason) w)) = false) /\
  isConnected (the_stats (PixelSocket.step c Call_disconnect w)) = false /\
  (forall e, is_Socket_open e = false -> isConnected (the_stats w) = false ->
     isConnected (the_stats (PixelSocket.step c e w)) = false) /\
  (forall e, is_Socket_close e = false -> is_Call_disconnect e = false ->
     isConnected (the_stats w) = true ->
     isConnected (the_stats (PixelSocket.step c e w)) = true).
Proof.
  intros w. assert (wf w) as Hwf by apply wf_reachable.
  split; [reflexivity|]. split; [reflexivity|].
  split; [|split; [|split; [|split]]].
  - intros s [st Hs]. cbn [PixelSocket.step]. unfold on_socket. rewrite Hs.
    apply (run_post (connection_flag true)); [|intros ?; prim_by conn_flag_closer].
    apply onopen_online. wsimpl. apply Hwf.
  - intros s code reason [st Hs]. cbn [PixelSocket.step]. unfold on_socket. rewrite Hs.
    apply (run_post (connection_flag false)); [|intros ?; prim_by conn_flag_closer].
    apply onclose_offline. wsimpl. apply Hwf.
  - rewrite step_disconnect.
    by destruct (disconnect_spec w) as (w' & -> & _ & _ & _ & _ & _ & ? & _).
  - intros e He H. apply offline_step; [done|done|]. split; [apply Hwf|done].
  - intros e He He' H. apply online_step; [done|done|done|]. split; [apply Hwf|done].
Qed.

(** ** Who writes the counters of received data *)

Ltac counters_closer H :=
  let H1 := fresh in
  let H2 := fresh in
  let H3 := fresh in
  destruct H as (H1 & H2 & H3);
  split; [wsimpl; lia |];
  unfold the_stats in *; wsimpl;
  rewrite ?lookup_insert_eq, ?lookup_insert_ne by lia; wsimpl;
  split; [exact H2 | exact H3].

Lemma counters_step c i b e w :
  is_Socket_message e = false -> wf w ->
  counters i b w -> counters i b (PixelSocket.step c e w).
Proof.
  intros He Hwf H. inv_step_with unfold_handlers H e stats_db counters_closer.
  all: caller_cases (fun s => imagesReceived s = i /\ bytesReceived s = b).
Qed.

Ltac images_closer H :=
  let H1 := fresh in
  let H2 := fresh in
  destruct H as (H1 & H2);
  split; [wsimpl; lia |];
  unfold the_stats in *; wsimpl;
  rewrite ?lookup_insert_eq, ?lookup_insert_ne by lia; wsimpl;
  first [exact H2 | lia].

Lemma images_step c n e w :
  wf w -> images_at_least n w -> images_at_least n (PixelSocket.step c e w).
Proof.
  intros Hwf H. inv_step_with unfold_handlers H e stats_db images_closer.
  all: caller_cases (fun s => n <= imagesReceived s).
Qed.

(** X6. Of all the methods and handlers only the handler of a message
    writes the two counters of received data: any other event -- a call of
    the caller, an assignment of the caller to a record it was given, an
    open, error or close event, a timer -- leaves [imagesReceived] and
    [bytesReceived] as it finds them, in every state; and no event,
    messages included, lowers [imagesReceived]. *)
Theorem counters_follow_the_frames (c : PixelSocket.Codec) (w : world) (e : event) :
  wf w ->
  let w' := PixelSocket.step c e w in
  (is_Socket_message e = false ->
   imagesReceived (the_stats w') = imagesReceived (the_stats w) /\
   bytesReceived (the_stats w') = bytesReceived (the_stats w)) /\
  imagesReceived (the_stats w) <= imagesReceived (the_stats w').
Proof.
  intros Hwf w'. subst w'. split.
  - intros He. apply (counters_step c _ _ e w He Hwf). split; [apply Hwf|done].
  - apply (images_step c _ e w Hwf). split; [apply Hwf|lia].
Qed.

Lemma counters_follow_the_frames_witness :
  let c := codec_of sample_payload in
  let w := PixelSocket.step c (Socket_message 1%nat (Binary [])) connected in
  wf w /\
  imagesReceived (the_stats w) = 1 /\
  bytesReceived (the_stats w) = 4 /\
  imagesReceived (the_stats (PixelSocket.step c (Socket_close 1%nat 1006 "gone") w)) = 1 /\
  bytesReceived (the_stats (PixelSocket.step c (Socket_close 1%nat 1006 "gone") w)) = 4.
Proof.
  intros c w.
  assert (wf w) as Hwf by (split; [vm_compute; lia | vm_compute; constructor]).
  split; [exact Hwf|]. split; [reflexivity|]. split; [reflexivity|].
  destruct (counters_follow_the_frames c w (Socket_close 1%nat 1006 "gone") Hwf) as [H _].
  destruct (H eq_refl) as [H1 H2].
  split; (etransitivity; [eassumption | reflexivity]).
Defined.


(** ** Until [disconnect()] every close is followed by a reconnect *)

Ltac running_closer H := unfold running in *; wsimpl; exact H.

Lemma running_step c e w :
  is_Call_disconnect e = false -> running w -> running (PixelSocket.step c e w).
Proof.
  intros He H. inv_step H e core running_closer.
  all: unfold caller_writes, caller_setTime; repeat case_match; exact H.
Qed.

(** X7. While the stop flag is up and the stored [autoReconnect] is true,
    the newer class answers the close event of any socket it created by
    arming a reconnect timer, in every state and however many attempts were
    made: the counter goes up by one, exactly one timer is armed, it is the
    one remembered in [reconnectTimeout], it fires once, and its delay is
    the stored [reconnectDelay] while the new counter is within the stored
    [maxReconnectAttempts] and 60000 ms beyond. Both conditions hold along
    every run in which [disconnect()] is not called, for an instance whose
    caller left [autoReconnect] out of the options or gave it as true. *)
Theorem reconnect_after_every_close (c : PixelSocket.Codec) (w : world)
    (s : sock_id) (code : Z) (reason : string) :
  shouldReconnect (this w) = true ->
  autoReconnect (options (this w)) = true ->
  is_Some (sockets (rt w) !! s) ->
  let w' := PixelSocket.step c (Socket_close s code reason) w in
  let n := reconnectAttempts (the_stats w) + 1 in
  let d := if n <=? maxReconnectAttempts (options (this w))
           then reconnectDelay (options (this w)) else 60000 in
  reconnectAttempts (the_stats w') = n /\
  count is_SetTimeout w' = S (count is_SetTimeout w) /\
  reconnectTimeout (this w') = Some (next_id (rt w)) /\
  timers (rt w') !! next_id (rt w)
    = Some {| repeating := false; delay := d; callback := ReconnectCallback |} /\
  (forall o es,
     forallb (fun e => negb (is_Call_disconnect e)) es = true ->
     opt_autoReconnect o = None \/ opt_autoReconnect o = Some true ->
     let w0 := PixelSocket.steps c es (PixelSocket.new_PixelSocket o) in
     shouldReconnect (this w0) = true /\ autoReconnect (options (this w0)) = true).
Proof.
  intros Hrun Hauto [st Hs] w' n d.
  assert (reconnectAttempts (the_stats w') = n /\
          count is_SetTimeout w' = S (count is_SetTimeout w) /\
          reconnectTimeout (this w') = Some (next_id (rt w)) /\
          timers (rt w') !! next_id (rt w)
            = Some {| repeating := false; delay := d; callback := ReconnectCallback |})
    as (H1 & H2 & H3 & H4).
  { subst w'. cbn [PixelSocket.step]. unfold on_socket. rewrite Hs.
    set (w1 := with_rt _ w).
    destruct (onclose_schedules w1 code reason)
      as (w2 & m1 & m2 & s2 & E & Hn & Ht & Htm & Heff & _); [exact Hrun|exact Hauto|].
    rewrite (run_ok _ _ _ _ E).
    change (the_stats w1) with (the_stats w) in *.
    change (options (this w1)) with (options (this w)) in *.
    change (next_id (rt w1)) with (next_id (rt w)) in *.
    change (effects w1) with (effects w) in *.
    split; [exact Hn|]. split; [|split; [exact Ht|]].
    - rewrite (count_effects_app _ w w2 _ Heff).
      rewrite !List.filter_app, !length_app.
      rewrite (filter_cleared_nil is_SetTimeout ClearTimeout) by done. cbn. lia.
    - by rewrite Htm, lookup_insert_eq. }
  repeat (split; [assumption|]).
  intros o es Hes Ho w0. split.
  - apply (steps_keep running is_Call_disconnect c); [|exact Hes|done].
    intros; by apply running_step.
  - subst w0. rewrite options_reachable. cbn [autoReconnect].
    by destruct Ho as [-> | ->].
Qed.

Lemma reconnect_after_every_close_witness :
  let c := codec_of sample_payload in
  let es := [Call_connect; Socket_open 1%nat; Socket_close 1%nat 1006 "gone";
             Timer_fires 4%nat] in
  let w := PixelSocket.steps c es (PixelSocket.new_PixelSocket sample_options) in
  let w' := PixelSocket.step c (Socket_close 5%nat 1006 "gone") w in
  shouldReconnect (this w) = true /\
  autoReconnect (options (this w)) = true /\
  is_Some (sockets (rt w) !! 5%nat) /\
  reconnectAttempts (the_stats w') = 2 /\
  timers (rt w') !! next_id (rt w)
    = Some {| repeating := false; delay := 5000; callback := ReconnectCallback |}.
Proof.
  intros c es w w'.
  assert (shouldReconnect (this w) = true) as H1 by reflexivity.
  assert (autoReconnect (options (this w)) = true) as H2 by reflexivity.
  assert (is_Some (sockets (rt w) !! 5%nat)) as H3 by (vm_compute; eauto).
  destruct (reconnect_after_every_close c w 5%nat 1006 "gone" H1 H2 H3)
    as (Hn & _ & _ & Ht & _).
  split; [exact H1|]. split; [exact H2|]. split; [exact H3|].
  split; (etransitivity; [eassumption | reflexivity]).
Defined.


(** ** The timers the instance keeps *)

Lemma shape_scheduleReconnect : keeps timers_in_shape PixelSocket.scheduleReconnect.
Proof.
  intros w H.
  destruct (scheduleReconnect_spec w) as (w' & msg & E & Hthis & Htm & _).
  rewrite E. cbn [snd]. intros t tm. rewrite Htm, Hthis. wsimpl.
  destruct (decide (t = next_id (rt w))) as [->|Hne].
  - rewrite lookup_insert_eq. intros [= <-]. unfold timer_shape. cbn.
    split; [done|]. case_match; [by left|by right].
  - rewrite lookup_insert_ne by done. intros Ht. apply cancel_lookup in Ht. exact (H t tm Ht).
Qed.

Lemma shape_startPingInterval : keeps timers_in_shape Shared.startPingInterval.
Proof.
  intros w H.
  destruct (startPingInterval_spec w) as (w' & E & Hthis & Htm & _).
  rewrite E. cbn [snd]. intros t tm. rewrite Htm, Hthis. wsimpl.
  destruct (decide (t = next_id (rt w))) as [->|Hne].
  - rewrite lookup_insert_eq. by intros [= <-].
  - rewrite lookup_insert_ne by done. intros Ht. apply cancel_lookup in Ht. exact (H t tm Ht).
Qed.

Create HintDb shape_db.
#[export] Hint Resolve shape_scheduleReconnect shape_startPingInterval : shape_db.

Ltac shape_closer H :=
  let t := fresh in
  let tm := fresh in
  let Ht := fresh in
  unfold timers_in_shape in *; intros t tm Ht; wsimpl;
  try (apply lookup_delete_Some in Ht as [_ Ht]); exact (H t tm Ht).

Ltac unfold_but_timers :=
  unfold Shared.reconnect_callback, Shared.getStats;
  unfold Shared.connect, Shared.onopen, Shared.onerror, Shared.send,
    Shared.isConnected, Shared.ping_callback, Shared.disconnect,
    PixelSocket.onclose, PixelSocket.handleMessage, PixelSocket.decompressAndUnpack,
    PixelSocket.ensureZstdInit, PixelSocket.processImage.

Lemma shape_step c e w : timers_in_shape w -> timers_in_shape (PixelSocket.step c e w).
Proof.
  intros H. inv_step_with unfold_but_timers H e shape_db shape_closer.
  all: unfold caller_writes, caller_setTime; repeat case_match; exact H.
Qed.

Lemma shape_reachable c es o :
  timers_in_shape (PixelSocket.steps c es (PixelSocket.new_PixelSocket o)).
Proof.
  apply steps_keep_all; [apply shape_step|]. intros ? ?. cbn. by rewrite lookup_empty.
Qed.

(** X8. In every state the newer class can reach, each armed timer is the
    one the instance remembers for its purpose, so at most one reconnect
    timer and at most one keep-alive timer are armed at a time; the
    keep-alive timer repeats every 20000 ms, and the reconnect timer fires
    once, after the configured delay or after 60000 ms. *)
Theorem one_timer_per_purpose (c : PixelSocket.Codec) (o : PixelSocketOptions)
    (es : list event) (t : timer_id) (tm : timer) :
  let w := PixelSocket.steps c es (PixelSocket.new_PixelSocket o) in
  timers (rt w) !! t = Some tm ->
  match callback tm with
  | ReconnectCallback =>
      reconnectTimeout (this w) = Some t /\ repeating tm = false /\
      (delay tm = default 5000 (opt_reconnectDelay o) \/ delay tm = 60000)
  | PingCallback =>
      pingTimeout (this w) = Some t /\ repeating tm = true /\ delay tm = 20000
  end /\
  forall t' tm', timers (rt w) !! t' = Some tm' -> callback tm' = callback tm -> t' = t.
Proof.
  intros w Ht.
  assert (timers_tracked w) as Htr by apply tracked_reachable.
  assert (timers_in_shape w) as Hsh by apply shape_reachable.
  pose proof (options_reachable c o es) as Hopt. fold w in Hopt.
  pose proof (Hsh t tm Ht) as Hs. unfold timer_shape in Hs. rewrite Hopt in Hs.
  cbn [reconnectDelay] in Hs.
  split.
  - destruct (Htr t tm Ht) as [[H1 H2]|[H1 H2]]; rewrite H2 in *.
    + split; [done|]. by destruct (opt_reconnectDelay o).
    + by split.
  - intros t' tm' Ht' Hcb.
    destruct (Htr t tm Ht) as [[H1 H2]|[H1 H2]],
             (Htr t' tm' Ht') as [[H1' H2']|[H1' H2']]; congruence.
Qed.

Lemma one_timer_per_purpose_witness :
  let w := PixelSocket.steps (codec_of sample_payload)
             [Call_connect; Socket_open 1%nat; Socket_close 1%nat 1006 "gone"]
             (PixelSocket.new_PixelSocket sample_options) in
  timers (rt w) !! 3%nat
    = Some {| repeating := true; delay := 20000; callback := PingCallback |} /\
  pingTimeout (this w) = Some 3%nat /\
  forall t' tm', timers (rt w) !! t' = Some tm' -> callback tm' = PingCallback -> t' = 3%nat.
Proof.
  intros w.
  assert (timers (rt w) !! 3%nat
          = Some {| repeating := true; delay := 20000; callback := PingCallback |}) as H
    by reflexivity.
  destruct (one_timer_per_purpose (codec_of sample_payload) sample_options _ _ _ H)
    as [(Hp & _) Hu].
  split; [exact H|]. split; [exact Hp|exact Hu].
Defined.


(** ** [send] *)

Lemma send_spec data w :
  exists r w',
    Shared.send data w = (r, w') /\
    this w' = this w /\
    heap (rt w') = heap (rt w) /\
    sockets (rt w') = sockets (rt w) /\
    timers (rt w') = timers (rt w) /\
    match socket (this w) with
    | Some s =>
        match sockets (rt w) !! s with
        | Some OPEN =>
            if send_throws (faults (rt w))
            then r = Throw (IsError "send failed") /\ trace (rt w') = trace (rt w)
            else r = Ok tt /\
                 trace (rt w') = trace (rt w) ++ [(SocketSend s data, the_stats w)]
        | _ => r = Throw (IsError "WebSocket is not connected") /\
               trace (rt w') = trace (rt w)
        end
    | None => r = Throw (IsError "WebSocket is not connected") /\
              trace (rt w') = trace (rt w)
    end.
Proof.
  unfold Shared.send. munfold.
  destruct (socket (this w)) as [s|]; [|by do 2 eexists].
  destruct (sockets (rt w) !! s) as [[]|] eqn:E; cbn [default from_option id];
    rewrite ?E; cbn [default from_option id];
    try destruct (send_throws (faults (rt w))); by do 2 eexists.
Qed.

(** X9. [send] transmits exactly when the instance has a socket and that
    socket is open; otherwise it throws [WebSocket is not connected] to the
    caller and transmits nothing; in no case does it change the instance,
    the sockets, the timers or the statistics. After [disconnect()] every
    [send] throws until the caller calls [connect()] again, whatever the
    transport and the timers do in between. *)
Theorem send_needs_an_open_socket (c : PixelSocket.Codec) (o : PixelSocketOptions)
    (es es' : list event) (data : frame) :
  forallb (fun e => negb (is_Call_connect e)) es' = true ->
  (forall w,
     let w' := PixelSocket.step c (Call_send data) w in
     this w' = this w /\ sockets (rt w') = sockets (rt w) /\
     timers (rt w') = timers (rt w) /\ heap (rt w') = heap (rt w) /\
     effects w' = effects w ++
       [match socket (this w) with
        | Some s =>
            match sockets (rt w) !! s with
            | Some OPEN =>
                if send_throws (faults (rt w))
                then Escaped (IsError "send failed")
                else SocketSend s data
            | _ => Escaped (IsError "WebSocket is not connected")
            end
        | None => Escaped (IsError "WebSocket is not connected")
        end]) /\
  let w1 := PixelSocket.step c Call_disconnect
              (PixelSocket.steps c es (PixelSocket.new_PixelSocket o)) in
  let w2 := PixelSocket.steps c es' w1 in
  effects (PixelSocket.step c (Call_send data) w2)
    = effects w2 ++ [Escaped (IsError "WebSocket is not connected")].
Proof.
  intros Hes.
  assert (forall w,
     let w' := PixelSocket.step c (Call_send data) w in
     this w' = this w /\ sockets (rt w') = sockets (rt w) /\
     timers (rt w') = timers (rt w) /\ heap (rt w') = heap (rt w) /\
     effects w' = effects w ++
       [match socket (this w) with
        | Some s =>
            match sockets (rt w) !! s with
            | Some OPEN =>
                if send_throws (faults (rt w))
                then Escaped (IsError "send failed")
                else SocketSend s data
            | _ => Escaped (IsError "WebSocket is not connected")
            end
        | None => Escaped (IsError "WebSocket is not connected")
        end]) as Hsend.
  { intros w. cbn [PixelSocket.step]. unfold run.
    destruct (send_spec data w) as (r & w' & E & Hthis & Hheap & Hsock & Htm & H).
    rewrite E. unfold effects.
    destruct (socket (this w)) as [s|];
      [destruct (sockets (rt w) !! s) as [[]|];
       [|destruct (send_throws (faults (rt w)))|..]|];
      destruct H as [-> Htr]; munfold; wsimpl; rewrite Htr, ?map_app; by repeat split. }
  split; [exact Hsend|]. intros w1 w2.
  destruct (disconnected_idle c o es) as [Hidle _]. fold w1 in Hidle.
  assert (idle (count is_connect_call w1) w2) as (_ & Hs & _).
  { apply (steps_keep _ is_Call_connect); [apply idle_step | exact Hes | exact Hidle]. }
  destruct (Hsend w2) as (_ & _ & _ & _ & ->). by rewrite Hs.
Qed.

Lemma send_needs_an_open_socket_witness :
  let c := codec_of sample_payload in
  let es := [Call_connect; Socket_open 1%nat] in
  let es' := [Socket_open 1%nat; Timer_fires 3%nat; Socket_message 1%nat (Binary [])] in
  let w2 := PixelSocket.steps c es'
              (PixelSocket.step c Call_disconnect
                 (PixelSocket.steps c es (PixelSocket.new_PixelSocket sample_options))) in
  forallb (fun e => negb (is_Call_connect e)) es' = true /\
  effects (PixelSocket.step c (Call_send (Text "hello")) connected)
    = effects connected ++ [SocketSend 1%nat (Text "hello")] /\
  effects (PixelSocket.step c (Call_send (Text "hello")) w2)
    = effects w2 ++ [Escaped (IsError "WebSocket is not connected")].
Proof.
  intros c es es' w2. split; [reflexivity|].
  destruct (send_needs_an_open_socket c sample_options es es' (Text "hello") eq_refl)
    as [H1 H2].
  split; [|exact H2].
  destruct (H1 connected) as (_ & _ & _ & _ & H). etransitivity; [exact H|reflexivity].
Defined.

(** ** The handshake of [onopen] *)

(** X10. The open event of a socket the instance created marks the
    instance connected, stores a new [Date] of that moment and resets the
    reconnect counter before anything else; the subscription is then sent
    on [this.socket], whichever socket opened; only if that returns is the
    keep-alive started (replacing a running one) and only then is
    [onConnect] called. When the send throws -- the transport fails, or
    [this.socket] is another socket that is still connecting -- the handler
    ends there: no keep-alive, no [onConnect], while [isConnected] stays
    true. When [this.socket] is closing or closed the subscription is
    dropped silently and [onConnect] is called all the same. *)
Theorem open_handshake (c : PixelSocket.Codec) (w : world) (s : sock_id) :
  is_Some (sockets (rt w) !! s) ->
  (stats (this w) < next_id (rt w))%nat ->
  let w' := PixelSocket.step c (Socket_open s) w in
  let l := next_id (rt w) in
  let t := S l in
  let started :=
    cleared ClearInterval (pingTimeout (this w)) ++ [SetInterval t 20000; OnConnect] in
  let returns :=
    match socket (this w) with
    | None => false
    | Some cur =>
        match <[s := OPEN]> (sockets (rt w)) !! cur with
        | Some OPEN => negb (send_throws (faults (rt w)))
        | Some CONNECTING => false
        | _ => true
        end
    end in
  the_stats w' =
    set_reconnectAttempts 0 (set_connectedAt (Some l) (set_isConnected true (the_stats w))) /\
  heap (rt w') !! l = Some (ObjDate (clock (rt w))) /\
  effects w' = effects w
    ++ ConsoleLog ("[PixelSocket] Connected to " +:+ url (options (this w)))
    :: match socket (this w) with
       | None => [Escaped (IsError "Cannot read properties of null (reading 'send')")]
       | Some cur =>
           match <[s := OPEN]> (sockets (rt w)) !! cur with
           | Some OPEN =>
               if send_throws (faults (rt w))
               then [Escaped (IsError "send failed")]
               else SocketSend cur (Text subscribeMessage) :: started
           | Some CONNECTING => [Escaped (IsError "readyState not OPEN")]
           | _ => started
           end
       end /\
  pingTimeout (this w') = (if returns then Some t else pingTimeout (this w)) /\
  timers (rt w') =
    (if returns
     then <[t := {| repeating := true; delay := 20000; callback := PingCallback |}]>
            (cancel (pingTimeout (this w)) (timers (rt w)))
     else timers (rt w)).
Proof.
  intros [st Hs] Hlt. cbn [PixelSocket.step]. unfold on_socket. rewrite Hs.
  cbn [default from_option id].
  exact (onopen_spec (with_rt (fun r => set_sockets (<[s:=OPEN]> (sockets r)) r) w) Hlt).
Qed.

Lemma open_handshake_witness :
  let c := codec_of sample_payload in
  let w := PixelSocket.step c Call_connect (PixelSocket.new_PixelSocket sample_options) in
  let w' := PixelSocket.step c (Socket_open 1%nat) w in
  is_Some (sockets (rt w) !! 1%nat) /\
  (stats (this w) < next_id (rt w))%nat /\
  effects w' = effects w ++
    [ConsoleLog "[PixelSocket] Connected to ws://localhost:8080/ws";
     SocketSend 1%nat (Text subscribeMessage); SetInterval 3%nat 20000; OnConnect] /\
  pingTimeout (this w') = Some 3%nat.
Proof.
  intros c w w'.
  assert (is_Some (sockets (rt w) !! 1%nat)) as H1 by (vm_compute; eauto).
  assert (stats (this w) < next_id (rt w))%nat as H2 by (vm_compute; lia).
  destruct (open_handshake c w 1%nat H1 H2) as (_ & _ & He & Hp & _).
  split; [exact H1|]. split; [exact H2|].
  split; (etransitivity; [eassumption|reflexivity]).
Defined.


(** ** Identifiers are handed out in order *)

Lemma startPingInterval_next w :
  next_id (rt (snd (Shared.startPingInterval w))) = S (next_id (rt w)).
Proof.
  unfold Shared.startPingInterval. munfold. by destruct (pingTimeout (this w)).
Qed.

Lemma timer_ids_scheduleReconnect : keeps timer_ids PixelSocket.scheduleReconnect.
Proof.
  intros w (H1 & H2 & H3 & H4).
  destruct (scheduleReconnect_spec w) as (w' & msg & E & Hthis & Htm & _ & _ & _ & Hn & _).
  rewrite E. cbn [snd]. unfold timer_ids. rewrite Hthis, Htm, Hn. wsimpl.
  split; [|split; [|split]].
  - intros t tm Ht. apply lookup_insert_Some in Ht as [[<- _]|[_ Ht]]; [lia|].
    apply cancel_lookup in Ht. specialize (H1 _ _ Ht). lia.
  - intros t [= <-]. lia.
  - intros t Ht. specialize (H3 _ Ht). lia.
  - intros a b [= <-] Hb. specialize (H3 _ Hb). lia.
Qed.

Lemma timer_ids_startPingInterval : keeps timer_ids Shared.startPingInterval.
Proof.
  intros w (H1 & H2 & H3 & H4).
  pose proof (startPingInterval_next w) as Hn.
  destruct (startPingInterval_spec w) as (w' & E & Hthis & Htm & _).
  rewrite E in *. cbn [snd] in *. unfold timer_ids. rewrite Hthis, Htm, Hn. wsimpl.
  split; [|split; [|split]].
  - intros t tm Ht. apply lookup_insert_Some in Ht as [[<- _]|[_ Ht]]; [lia|].
    apply cancel_lookup in Ht. specialize (H1 _ _ Ht). lia.
  - intros t Ht. specialize (H2 _ Ht). lia.
  - intros t [= <-]. lia.
  - intros a b Ha [= <-]. specialize (H2 _ Ha). lia.
Qed.

Create HintDb ids_db.
#[export] Hint Resolve timer_ids_scheduleReconnect timer_ids_startPingInterval : ids_db.

Ltac ids_closer H :=
  let H1 := fresh in
  let H2 := fresh in
  let H3 := fresh in
  let H4 := fresh in
  let Ha := fresh in
  let Hb := fresh in
  destruct H as (H1 & H2 & H3 & H4);
  (split; [|split; [|split]]); wsimpl;
  [ intros ? ? Ha; try (apply lookup_delete_Some in Ha as [_ Ha]);
    specialize (H1 _ _ Ha); lia
  | intros ? Ha; try discriminate Ha; specialize (H2 _ Ha); lia
  | intros ? Ha; try discriminate Ha; specialize (H3 _ Ha); lia
  | intros ? ? Ha Hb; try discriminate Ha; try discriminate Hb; exact (H4 _ _ Ha Hb) ].

Lemma timer_ids_step c e w : timer_ids w -> timer_ids (PixelSocket.step c e w).
Proof.
  intros H. inv_step_with unfold_but_timers H e ids_db ids_closer.
  all: unfold caller_writes, caller_setTime; repeat case_match; exact H.
Qed.

Lemma timer_ids_reachable c es o :
  timer_ids (PixelSocket.steps c es (PixelSocket.new_PixelSocket o)).
Proof.
  apply steps_keep_all; [apply timer_ids_step|].
  split; [|by repeat split]. intros t tm. cbn. by rewrite lookup_empty.
Qed.

(** ** The keep-alive outlives the connection *)

(** X11. A close event does not stop the keep-alive: the interval armed by
    [onopen] is the one the instance remembers, and it is still armed and
    still remembered after the close event of any socket, whether or not a
    reconnect is scheduled. While the instance's socket is the closed one
    its ticks send nothing and report nothing. *)
Theorem keepalive_outlives_the_connection (c : PixelSocket.Codec) (o : PixelSocketOptions)
    (es : list event) (s : sock_id) (code : Z) (reason : string)
    (t : timer_id) (tm : timer) :
  let w := PixelSocket.steps c es (PixelSocket.new_PixelSocket o) in
  is_Some (sockets (rt w) !! s) ->
  timers (rt w) !! t = Some tm ->
  callback tm = PingCallback ->
  let w' := PixelSocket.step c (Socket_close s code reason) w in
  pingTimeout (this w) = Some t /\
  pingTimeout (this w') = Some t /\
  timers (rt w') !! t = Some tm /\
  (socket (this w) = Some s ->
   effects (PixelSocket.step c (Timer_fires t) w') = effects w').
Proof.
  intros w [st Hs] Ht Hcb w'.
  assert (pingTimeout (this w) = Some t) as Hp.
  { destruct (tracked_reachable c es o t tm Ht) as [[_ H]|[H _]]; [congruence|done]. }
  destruct (timer_ids_reachable c es o) as (H1 & H2 & H3 & H4). fold w in H1, H2, H3, H4.
  assert (reconnectTimeout (this w) <> Some t) as Hr.
  { intros Hr. by apply (H4 t t). }
  pose proof (H1 _ _ Ht) as Hlt.
  split; [exact Hp|].
  subst w'. cbn [PixelSocket.step]. unfold on_socket. rewrite Hs.
  cbn [default from_option id].
  set (w0 := with_rt _ w).
  assert (sockets (rt (run (PixelSocket.onclose code reason) w0)) !! s = Some CLOSED) as Hcl.
  { apply (keeps_run (fun w => sockets (rt w) !! s = Some CLOSED)).
    - unfold_handlers. keeps_with core same_closer.
    - intros ?. prim_by same_closer.
    - subst w0. wsimpl. by rewrite lookup_insert_eq. }
  destruct (onclose_prefix w0 code reason) as (w1 & msg & Hthis1 & Htm1 & Hn1 & _ & _ & E & _).
  assert (exists w2, PixelSocket.onclose code reason w0 = (Ok tt, w2) /\
            pingTimeout (this w2) = pingTimeout (this w) /\
            socket (this w2) = socket (this w) /\
            timers (rt w2) !! t = Some tm) as (w2 & E2 & Hp2 & Hs2 & Htm2).
  { rewrite E. destruct (shouldReconnect (this w0) && autoReconnect (options (this w0))).
    - destruct (scheduleReconnect_spec w1) as (w2 & ? & -> & Hthis & Htm & _).
      exists w2. split; [done|]. rewrite Hthis, Htm, Hthis1, Htm1, Hn1. subst w0. wsimpl.
      split; [done|]. split; [done|].
      rewrite lookup_insert_ne by lia.
      destruct (reconnectTimeout (this w)) as [t0|]; cbn [cancel]; [|done].
      rewrite lookup_delete_ne by congruence. done.
    - exists w1. split; [done|]. rewrite Hthis1, Htm1. subst w0. by wsimpl. }
  rewrite (run_ok _ _ _ _ E2) in *.
  split; [by rewrite Hp2|]. split; [exact Htm2|].
  intros Hsock. cbn [PixelSocket.step]. unfold on_timer. rewrite Htm2, Hcb.
  set (w3 := if repeating tm then w2 else _).
  assert (socket (this w3) = Some s /\ sockets (rt w3) !! s = Some CLOSED
          /\ effects w3 = effects w2) as (Hs3 & Hc3 & He3).
  { subst w3. destruct (repeating tm); wsimpl; by rewrite Hs2. }
  destruct (ping_callback_spec w3) as (w4 & E4 & _ & _ & _ & _ & Heff).
  rewrite (run_ok _ _ _ _ E4), Heff, Hs3, Hc3, app_nil_r. exact He3.
Qed.

Lemma keepalive_outlives_the_connection_witness :
  let c := codec_of sample_payload in
  let es := [Call_connect; Socket_open 1%nat] in
  let tm := {| repeating := true; delay := 20000; callback := PingCallback |} in
  let w := PixelSocket.steps c es (PixelSocket.new_PixelSocket sample_options) in
  let w' := PixelSocket.step c (Socket_close 1%nat 1006 "gone") w in
  is_Some (sockets (rt w) !! 1%nat) /\
  timers (rt w) !! 3%nat = Some tm /\
  callback tm = PingCallback /\
  timers (rt w') !! 3%nat = Some tm /\
  effects (PixelSocket.step c (Timer_fires 3%nat) w') = effects w'.
Proof.
  intros c es tm w w'.
  assert (is_Some (sockets (rt w) !! 1%nat)) as H1 by (vm_compute; eauto).
  assert (timers (rt w) !! 3%nat = Some tm) as H2 by reflexivity.
  destruct (keepalive_outlives_the_connection c sample_options es 1%nat 1006 "gone"
              3%nat tm H1 H2 eq_refl) as (_ & _ & Ht & He).
  split; [exact H1|]. split; [exact H2|]. split; [reflexivity|].
  split; [exact Ht|]. apply He. reflexivity.
Defined.

(** ** [connect()] while a socket is in use *)

Lemma sockets_in_order_close s : keeps sockets_in_order (socket_close s).
Proof.
  intros w H. unfold socket_close, socket_readyState. munfold.
  destruct (sockets (rt w) !! s) as [st|] eqn:E; cbn [default from_option id]; [|exact H].
  destruct st; cbn [snd]; try exact H;
    intros s' st'; wsimpl; intros Hl;
    apply lookup_insert_Some in Hl as [[<- _]|[_ Hl]]; eauto.
Qed.

Create HintDb sockets_db.
#[export] Hint Resolve sockets_in_order_close : sockets_db.

Ltac sockets_closer H :=
  let Ha := fresh in
  unfold sockets_in_order in *; wsimpl; intros ? ? Ha;
  try (apply lookup_insert_Some in Ha as [[<- _]|[_ Ha]]; [lia|]);
  specialize (H _ _ Ha); lia.

Lemma on_socket_keeps_known (I : world -> Prop) s st m w :
  (forall old, sockets (rt w) !! s = Some old ->
     I (with_rt (fun r => set_sockets (<[s := default old st]> (sockets r)) r) w)) ->
  keeps I m -> (forall t, keeps I (emit (Escaped t))) ->
  I w -> I (on_socket s st m w).
Proof.
  intros Hs Hm He H. unfold on_socket. destruct (sockets (rt w) !! s) as [old|]; [|done].
  apply keeps_run; [done|done|]. by apply Hs.
Qed.

Lemma sockets_in_order_step c e w :
  sockets_in_order w -> sockets_in_order (PixelSocket.step c e w).
Proof.
  intros H. destruct e; cbn [PixelSocket.step];
    try (apply keeps_run; [|intros ?; prim_by sockets_closer|exact H]);
    try (apply on_socket_keeps_known;
           [let old := fresh in let Ho := fresh in let Ha := fresh in
            intros old Ho s' st' Ha; wsimpl;
            apply lookup_insert_Some in Ha as [[<- _]|[_ Ha]]; eauto
           | |intros ?; prim_by sockets_closer|exact H]);
    try (apply on_timer_keeps;
           [let t' := fresh in let w' := fresh in let H' := fresh in
            intros t' w' H'; exact H'
           | | |intros ?; prim_by sockets_closer|exact H]);
    try (unfold_deep; keeps_with sockets_db sockets_closer; fail).
  all: unfold caller_writes, caller_setTime; repeat case_match; exact H.
Qed.

(** X12. [connect()] does not look at the socket the instance already has:
    in every state the client can reach it creates a new socket in state
    CONNECTING and makes it [this.socket]; the previous socket is neither
    closed nor changed and stays known to the handlers, and timers and
    statistics are as before. *)
Theorem connect_leaves_the_previous_socket (c : PixelSocket.Codec) (o : PixelSocketOptions)
    (es : list event) :
  let w := PixelSocket.steps c es (PixelSocket.new_PixelSocket o) in
  ctor_throws (faults (rt w)) = false ->
  let w' := PixelSocket.step c Call_connect w in
  let s' := next_id (rt w) in
  socket (this w') = Some s' /\
  sockets (rt w) !! s' = None /\
  sockets (rt w') = <[s' := CONNECTING]> (sockets (rt w)) /\
  (forall s st, sockets (rt w) !! s = Some st -> sockets (rt w') !! s = Some st) /\
  timers (rt w') = timers (rt w) /\
  the_stats w' = the_stats w /\
  effects w' = effects w
    ++ [ConsoleLog ("[PixelSocket] Connecting to: " +:+ url (options (this w)));
        NewWebSocket s' (url (options (this w)))].
Proof.
  intros w Hf w' s'.
  assert (sockets_in_order w) as Hord.
  { apply steps_keep_all; [apply sockets_in_order_step|].
    intros s st. cbn. by rewrite lookup_empty. }
  assert (sockets (rt w) !! s' = None) as Hnew.
  { destruct (sockets (rt w) !! s') as [st|] eqn:E; [|done].
    specialize (Hord _ _ E). subst s'. lia. }
  subst w' s'. clearbody w. cbn [PixelSocket.step].
  unfold run, Shared.connect, effects. munfold. wsimpl. rewrite Hf. wsimpl.
  rewrite !map_app, <- !app_assoc. cbn [map fst app].
  repeat (split; [done|]). split; [|done].
  intros s st Hl. rewrite lookup_insert_ne; [done|]. intros Heq.
  rewrite Heq, Hl in Hnew. discriminate.
Qed.

Lemma connect_leaves_the_previous_socket_witness :
  let w' := PixelSocket.step (codec_of sample_payload) Call_connect connected in
  ctor_throws (faults (rt connected)) = false /\
  socket (this connected) = Some 1%nat /\
  socket (this w') = Some 4%nat /\
  sockets (rt w') !! 1%nat = Some OPEN /\
  sockets (rt w') !! 4%nat = Some CONNECTING.
Proof.
  intros w'.
  destruct (connect_leaves_the_previous_socket (codec_of sample_payload) sample_options
              [Call_connect; Socket_open 1%nat] eq_refl) as (Hs & _ & Hm & Hold & _).
  split; [reflexivity|]. split; [reflexivity|]. split; [exact Hs|].
  split; [by apply Hold|]. etransitivity; [exact (f_equal (fun m => m !! 4%nat) Hm)|reflexivity].
Defined.


(** ** Which events can end in an exception *)

Lemma run_returns {A} (I : world -> Prop) (m : M A) w :
  (exists a w', m w = (Ok a, w')) -> keeps I m -> I w -> I (run m w).
Proof.
  intros (a & w' & E) Hm H. rewrite (run_ok _ _ _ _ E).
  specialize (Hm w H). by rewrite E in Hm.
Qed.

Lemma onclose_returns code reason w :
  exists w', PixelSocket.onclose code reason w = (Ok tt, w').
Proof.
  destruct (onclose_prefix w code reason) as (w1 & msg & _ & _ & _ & _ & _ & E & _).
  rewrite E. destruct (shouldReconnect (this w) && autoReconnect (options (this w))).
  - destruct (scheduleReconnect_spec w1) as (w2 & ? & -> & _). by eexists.
  - by eexists.
Qed.

Lemma reconnect_callback_returns w :
  exists w', Shared.reconnect_callback w = (Ok tt, w').
Proof.
  destruct (try_catch_returns Shared.connect
              (fun error => emit (ConsoleError "[PixelSocket] Reconnection failed:")) w)
    as ([] & w' & E); [by do 2 eexists|]. by exists w'.
Qed.

Lemma escapes_step c n e w :
  may_throw e = false ->
  counted is_Escaped n w -> counted is_Escaped n (PixelSocket.step c e w).
Proof.
  intros He H. destruct e; try discriminate He; cbn [PixelSocket.step].
  - (* disconnect *)
    apply run_returns; [|unfold_deep; keeps_with core counted_closer|exact H].
    destruct (disconnect_spec w) as (w' & E & _). by do 2 eexists.
  - apply run_returns; [by do 2 eexists|unfold_deep; keeps_with core counted_closer|exact H].
  - apply run_returns; [by do 2 eexists|unfold_deep; keeps_with core counted_closer|exact H].
  - unfold caller_writes. by case_match.
  - unfold caller_setTime. by repeat case_match.
  - (* message *)
    unfold on_socket. case_match; [|exact H].
    apply run_returns; [|unfold_deep; keeps_with core counted_closer|exact H].
    match goal with
    | |- exists a w', _ ?w0 = _ =>
        destruct (handleMessage_returns c data w0) as (w' & E); by do 2 eexists
    end.
  - (* error *)
    unfold on_socket. case_match; [|exact H].
    apply run_returns; [by do 2 eexists|unfold_deep; keeps_with core counted_closer|exact H].
  - (* close *)
    unfold on_socket. case_match; [|exact H].
    apply run_returns; [|unfold_deep; keeps_with core counted_closer|exact H].
    match goal with
    | |- exists a w', _ ?w0 = _ =>
        destruct (onclose_returns code reason w0) as (w' & E); by do 2 eexists
    end.
  - (* timer *)
    unfold on_timer. destruct (timers (rt w) !! t) as [tm|]; [|exact H].
    set (w' := if repeating tm then w else _).
    assert (counted is_Escaped n w') as H' by (subst w'; by destruct (repeating tm)).
    clearbody w'. destruct (callback tm).
    + apply run_returns; [|unfold_deep; keeps_with core counted_closer|exact H'].
      destruct (reconnect_callback_returns w') as (w2 & E). by do 2 eexists.
    + apply run_returns; [|unfold_deep; keeps_with core counted_closer|exact H'].
      destruct (ping_callback_spec w') as (w2 & E & _). by do 2 eexists.
  - exact H.
  - exact H.
Qed.

(** X13. No exception leaves the handler of a message, error or close
    event, a timer callback, [disconnect()], [getStats()] or
    [isConnected()], in any state and whatever the codec, the file system
    and the transport do: along every run made of such events the number of
    escaped exceptions stays as it was. Only [connect()], [send()] and the
    handler of the open event can end in an exception. *)
Theorem exceptions_stay_inside (c : PixelSocket.Codec) (w : world) (es : list event) :
  forallb (fun e => negb (may_throw e)) es = true ->
  count is_Escaped (PixelSocket.steps c es w) = count is_Escaped w.
Proof.
  intros Hes. apply (steps_keep (counted is_Escaped _) may_throw c); [|exact Hes|done].
  intros e w' He. by apply escapes_step.
Qed.

Lemma exceptions_stay_inside_witness :
  let c := codec_corrupt in
  let es := [Set_faults {| ctor_throws := true; send_throws := true; mkdir_throws := true;
                           writeFile_throws := true; zstdInit_throws := true |};
             Socket_message 1%nat (Binary []); Timer_fires 3%nat;
             Socket_close 1%nat 1006 "gone"; Timer_fires 4%nat; Call_disconnect] in
  forallb (fun e => negb (may_throw e)) es = true /\
  count is_Escaped (PixelSocket.steps c es connected) = 0%nat /\
  count is_ConsoleError (PixelSocket.steps c es connected) = 5%nat.
Proof.
  intros c es. split; [reflexivity|]. split; [|reflexivity].
  etransitivity; [exact (exceptions_stay_inside c connected es eq_refl)|reflexivity].
Defined.


(** ** Which event calls which callback *)

Lemma onConnect_step c n e w :
  is_Socket_open e = false ->
  counted is_OnConnect n w -> counted is_OnConnect n (PixelSocket.step c e w).
Proof.
  intros He H. inv_step H e core counted_closer.
  all: unfold caller_writes, caller_setTime; repeat case_match; exact H.
Qed.

Lemma onDisconnect_step c n e w :
  is_Socket_close e = false ->
  counted is_OnDisconnect n w -> counted is_OnDisconnect n (PixelSocket.step c e w).
Proof.
  intros He H. inv_step H e core counted_closer.
  all: unfold caller_writes, caller_setTime; repeat case_match; exact H.
Qed.

Lemma onError_step c n e w :
  may_report e = false ->
  counted is_OnError n w -> counted is_OnError n (PixelSocket.step c e w).
Proof.
  intros He H. inv_step H e core counted_closer.
  all: unfold caller_writes, caller_setTime; repeat case_match; exact H.
Qed.

Lemma onclose_calls_onDisconnect code reason w :
  count is_OnDisconnect (snd (PixelSocket.onclose code reason w))
    = S (count is_OnDisconnect w).
Proof.
  destruct (onclose_prefix w code reason) as (w1 & msg & _ & _ & _ & _ & Heff & E & _).
  rewrite E.
  assert (count is_OnDisconnect w1 = S (count is_OnDisconnect w)) as H1.
  { rewrite (count_effects_app _ _ _ _ Heff). cbn. lia. }
  destruct (shouldReconnect (this w) && autoReconnect (options (this w))); [|exact H1].
  destruct (scheduleReconnect_spec w1) as (w2 & ? & -> & _ & _ & _ & _ & _ & _ & Heff2 & _).
  cbn [snd]. rewrite (count_effects_app _ _ _ _ Heff2), H1, !List.filter_app, !length_app.
  rewrite (filter_cleared_nil is_OnDisconnect ClearTimeout) by done. cbn. lia.
Qed.

(** X14. The newer class calls [onConnect] in the handler of an open event
    and nowhere else, and [onDisconnect] once in the handler of every close
    event of a socket it created and nowhere else -- [disconnect()] itself
    does not call it; [onError] is called only during [connect()] (called
    by the caller or by the reconnect timer), a message event or an error
    event. *)
Theorem callbacks_by_event (c : PixelSocket.Codec) (w : world) :
  (forall e, is_Socket_open e = false ->
     count is_OnConnect (PixelSocket.step c e w) = count is_OnConnect w) /\
  (forall e, is_Socket_close e = false ->
     count is_OnDisconnect (PixelSocket.step c e w) = count is_OnDisconnect w) /\
  (forall s code reason, is_Some (sockets (rt w) !! s) ->
     count is_OnDisconnect (PixelSocket.step c (Socket_close s code reason) w)
       = S (count is_OnDisconnect w)) /\
  (forall e, may_report e = false ->
     count is_OnError (PixelSocket.step c e w) = count is_OnError w).
Proof.
  split; [|split; [|split]].
  - intros e He. by apply (onConnect_step c _ e w He).
  - intros e He. by apply (onDisconnect_step c _ e w He).
  - intros s code reason [st Hs]. cbn [PixelSocket.step]. unfold on_socket. rewrite Hs.
    destruct (onclose_returns code reason
                (with_rt (fun r => set_sockets (<[s:=default st (Some CLOSED)]> (sockets r)) r) w))
      as (w' & E).
    rewrite (run_ok _ _ _ _ E).
    pose proof (onclose_calls_onDisconnect code reason
                  (with_rt (fun r => set_sockets (<[s:=default st (Some CLOSED)]> (sockets r)) r) w))
      as H.
    rewrite E in H. exact H.
  - intros e He. by apply (onError_step c _ e w He).
Qed.

Lemma callbacks_by_event_witness :
  let c := codec_of sample_payload in
  is_Some (sockets (rt connected) !! 1%nat) /\
  count is_OnDisconnect (PixelSocket.step c (Socket_close 1%nat 1000 "") connected) = 1%nat /\
  count is_OnDisconnect (PixelSocket.step c Call_disconnect connected) = 0%nat.
Proof.
  intros c.
  assert (is_Some (sockets (rt connected) !! 1%nat)) as H by (vm_compute; eauto).
  destruct (callbacks_by_event c connected) as (_ & Hd & Hc & _).
  split; [exact H|]. split.
  - etransitivity; [exact (Hc 1%nat 1000 "" H)|reflexivity].
  - etransitivity; [exact (Hd Call_disconnect eq_refl)|reflexivity].
Defined.


(** ** What the instance transmits, and when *)

Lemma sends_step c n e w :
  may_send e = false ->
  counted is_SocketSend n w -> counted is_SocketSend n (PixelSocket.step c e w).
Proof.
  intros He H. inv_step H e core counted_closer.
  all: unfold caller_writes, caller_setTime; repeat case_match; exact H.
Qed.

(** While the instance is idle nothing is transmitted. *)
Lemma idle_sends_step c n m e w :
  is_Call_connect e = false -> idle n w ->
  counted is_SocketSend m w -> counted is_SocketSend m (PixelSocket.step c e w).
Proof.
  intros He (_ & Hs & Htm & _) H.
  destruct (may_send e) eqn:Em; [|by apply sends_step].
  destruct e; try discriminate Em; cbn [PixelSocket.step].
  - unfold run. destruct (send_spec data w) as (r & w' & E & _ & _ & _ & _ & Hr).
    rewrite E, Hs in *. destruct Hr as [-> Htr]. unfold counted in *.
    rewrite count_emit. cbn. by rewrite (count_same _ _ _ Htr), Nat.add_0_r.
  - unfold on_socket. destruct (sockets (rt w) !! s) as [old|]; [|exact H].
    set (w0 := with_rt _ w).
    destruct (onopen_without_socket w0 Hs) as (t & w' & msg & st & E & _ & _ & Htr).
    unfold run. rewrite E. unfold counted in *.
    rewrite count_emit, (count_snoc _ _ _ _ _ Htr). cbn. rewrite !Nat.add_0_r. exact H.
  - unfold on_timer. by rewrite Htm, lookup_empty.
Qed.

(** X15. The instance transmits only in [send()], in the handler of an
    open event (the subscription) and in a timer callback (the keep-alive
    ping): no other event puts anything on a socket. After [disconnect()],
    and until the caller calls [connect()] again, nothing at all is
    transmitted, whatever is called and whatever the transport and the
    timers deliver. *)
Theorem transmissions (c : PixelSocket.Codec) (o : PixelSocketOptions)
    (es es' : list event) :
  forallb (fun e => negb (is_Call_connect e)) es' = true ->
  (forall e w, may_send e = false ->
     count is_SocketSend (PixelSocket.step c e w) = count is_SocketSend w) /\
  let w1 := PixelSocket.step c Call_disconnect
              (PixelSocket.steps c es (PixelSocket.new_PixelSocket o)) in
  count is_SocketSend (PixelSocket.steps c es' w1) = count is_SocketSend w1.
Proof.
  intros Hes. split; [intros e w He; by apply (sends_step c _ e w He)|].
  intros w1. destruct (disconnected_idle c o es) as [Hidle _]. fold w1 in Hidle.
  apply (steps_keep (fun w => idle (count is_connect_call w1) w
                              /\ counted is_SocketSend (count is_SocketSend w1) w)
           is_Call_connect c); [|exact Hes|by split].
  intros e w He [Hi Hc]. split; [by apply idle_step|by apply (idle_sends_step c _ _ e w He Hi)].
Qed.

Lemma transmissions_witness :
  let c := codec_of sample_payload in
  let es := [Call_connect; Socket_open 1%nat] in
  let es' := [Call_send (Text "hello"); Socket_open 1%nat; Timer_fires 3%nat;
              Socket_close 1%nat 1000 ""] in
  let w1 := PixelSocket.step c Call_disconnect
              (PixelSocket.steps c es (PixelSocket.new_PixelSocket sample_options)) in
  forallb (fun e => negb (is_Call_connect e)) es' = true /\
  count is_SocketSend (PixelSocket.steps c es' w1) = 1%nat.
Proof.
  intros c es es' w1. split; [reflexivity|].
  etransitivity;
    [exact (proj2 (transmissions c sample_options es es' eq_refl))|reflexivity].
Defined.


(** ** A reconnect that fails at once *)

Lemma reconnect_callback_fails w :
  ctor_throws (faults (rt w)) = true ->
  exists w',
    Shared.reconnect_callback w = (Ok tt, w') /\
    this w' = this w /\
    heap (rt w') = heap (rt w) /\
    sockets (rt w') = sockets (rt w) /\
    timers (rt w') = timers (rt w) /\
    effects w' = effects w
      ++ [ConsoleLog ("[PixelSocket] Connecting to: " +:+ url (options (this w)));
          OnError "Invalid URL"; ConsoleError "[PixelSocket] Reconnection failed:"].
Proof.
  intros Hf. unfold Shared.reconnect_callback, Shared.connect, effects. munfold. wsimpl.
  rewrite Hf. wsimpl. eexists. split; [reflexivity|]. wsimpl.
  rewrite !map_app, <- !app_assoc. by repeat split.
Qed.

(** X16. A reconnect is not retried when it fails at once: if the
    [WebSocket] constructor throws when the reconnect timer fires, the
    failure is reported through [onError] and written to the console, no
    socket is created, the statistics stay, and no timer is armed -- in a
    state the client can reach no reconnect timer is left afterwards. *)
Theorem failed_reconnect_is_not_retried (c : PixelSocket.Codec) (o : PixelSocketOptions)
    (es : list event) (t : timer_id) (tm : timer) :
  let w := PixelSocket.steps c es (PixelSocket.new_PixelSocket o) in
  timers (rt w) !! t = Some tm ->
  callback tm = ReconnectCallback ->
  ctor_throws (faults (rt w)) = true ->
  let w' := PixelSocket.step c (Timer_fires t) w in
  effects w' = effects w
    ++ [ConsoleLog ("[PixelSocket] Connecting to: " +:+ url (options (this w)));
        OnError "Invalid URL"; ConsoleError "[PixelSocket] Reconnection failed:"] /\
  this w' = this w /\
  sockets (rt w') = sockets (rt w) /\
  the_stats w' = the_stats w /\
  timers (rt w') = delete t (timers (rt w)) /\
  (forall t' tm', timers (rt w') !! t' = Some tm' -> callback tm' = PingCallback).
Proof.
  intros w Ht Hcb Hf w'.
  assert (timers_tracked w) as Htr by apply tracked_reachable.
  assert (timers_in_shape w) as Hsh by apply shape_reachable.
  pose proof (Hsh t tm Ht) as Hs. unfold timer_shape in Hs. rewrite Hcb in Hs.
  destruct Hs as [Hrep _].
  subst w'. cbn [PixelSocket.step]. unfold on_timer. rewrite Ht, Hrep, Hcb.
  set (w0 := with_rt _ w).
  destruct (reconnect_callback_fails w0 Hf) as (w1 & E & Hthis & Hheap & Hsock & Htm & Heff).
  rewrite (run_ok _ _ _ _ E). rewrite Hthis, Hsock, Htm, Heff.
  split; [reflexivity|]. split; [reflexivity|]. split; [reflexivity|].
  split; [apply the_stats_same; [exact Hheap | by rewrite Hthis]|]. split; [reflexivity|].
  intros t' tm' Ht'. subst w0. wsimpl. apply lookup_delete_Some in Ht' as [Hne Ht'].
  destruct (Htr t' tm' Ht') as [[H1 _]|[_ H2]]; [|exact H2].
  destruct (Htr t tm Ht) as [[H3 _]|[_ H4]]; congruence.
Qed.

Lemma failed_reconnect_is_not_retried_witness :
  let c := codec_of sample_payload in
  let refuse := {| ctor_throws := true; send_throws := false; mkdir_throws := false;
                   writeFile_throws := false; zstdInit_throws := false |} in
  let es := [Call_connect; Socket_open 1%nat; Socket_close 1%nat 1006 "gone";
             Set_faults refuse] in
  let tm := {| repeating := false; delay := 5000; callback := ReconnectCallback |} in
  let w := PixelSocket.steps c es (PixelSocket.new_PixelSocket sample_options) in
  let w' := PixelSocket.step c (Timer_fires 4%nat) w in
  timers (rt w) !! 4%nat = Some tm /\
  callback tm = ReconnectCallback /\
  ctor_throws (faults (rt w)) = true /\
  timers (rt w') = delete 4%nat (timers (rt w)) /\
  count is_SetTimeout w' = 1%nat.
Proof.
  intros c refuse es tm w w'.
  assert (timers (rt w) !! 4%nat = Some tm) as H1 by reflexivity.
  destruct (failed_reconnect_is_not_retried c sample_options es 4%nat tm H1 eq_refl eq_refl)
    as (_ & _ & _ & _ & Ht & _).
  split; [exact H1|]. split; [reflexivity|]. split; [reflexivity|].
  split; [exact Ht|reflexivity].
Defined.


(** * The older class *)

(** ** The format of an image by its first bytes *)

Lemma byte_is_spec data i v : byte_is data i v = true <-> data !! i = Some v.
Proof.
  unfold byte_is. destruct (data !! i) as [b|]; [|done]. split.
  - intros H. by rewrite (Byte.byte_dec_bl _ _ H).
  - intros [= ->]. by apply Byte.byte_dec_lb.
Qed.

Lemma magic3 data a b c :
  byte_is data 0 a && byte_is data 1 b && byte_is data 2 c = true
  <-> take 3 data = [a; b; c].
Proof.
  rewrite !andb_true_iff, !byte_is_spec.
  destruct data as [|x [|y [|z r]]]; cbn; try (split; [intros [[? ?] ?]|]; done).
  split; [intros [[[= ->] [= ->]] [= ->]]; done | intros [= -> -> ->]; done].
Qed.

Lemma magic4 data a b c d :
  byte_is data 0 a && byte_is data 1 b && byte_is data 2 c && byte_is data 3 d = true
  <-> take 4 data = [a; b; c; d].
Proof.
  rewrite !andb_true_iff, !byte_is_spec.
  destruct data as [|x [|y [|z [|u r]]]]; cbn; try (split; [intros [[[? ?] ?] ?]|]; done).
  split; [intros [[[[= ->] [= ->]] [= ->]] [= ->]]; done | intros [= -> -> -> ->]; done].
Qed.

Lemma take3_of_take4 (data : bytes) a b c d :
  take 4 data = [a; b; c; d] -> take 3 data = [a; b; c].
Proof.
  intros H. assert (take 3 data = take 3 (take 4 data)) as -> by (by rewrite take_take).
  by rewrite H.
Qed.

(** X17. [detectImageFormat] names one of five formats and looks at the
    first four bytes only: [jpg] exactly for data that begins FF D8 FF,
    [png] exactly for 89 50 4E 47, [webp] exactly for the four bytes RIFF
    (whatever the container holds), [gif] exactly for the three bytes GIF,
    and [bin] for everything else, data shorter than three bytes
    included. *)
Theorem detectImageFormat_by_magic (data : bytes) :
  LegacyPixelSocket.detectImageFormat data
    = LegacyPixelSocket.detectImageFormat (take 4 data) /\
  (LegacyPixelSocket.detectImageFormat data = "jpg" <-> take 3 data = [xff; xd8; xff]) /\
  (LegacyPixelSocket.detectImageFormat data = "png"
     <-> take 4 data = [x89; x50; x4e; x47]) /\
  (LegacyPixelSocket.detectImageFormat data = "webp"
     <-> take 4 data = [x52; x49; x46; x46]) /\
  (LegacyPixelSocket.detectImageFormat data = "gif" <-> take 3 data = [x47; x49; x46]) /\
  (LegacyPixelSocket.detectImageFormat data = "bin"
     <-> take 3 data <> [xff; xd8; xff] /\ take 4 data <> [x89; x50; x4e; x47] /\
         take 4 data <> [x52; x49; x46; x46] /\ take 3 data <> [x47; x49; x46]) /\
  ((length data < 3)%nat -> LegacyPixelSocket.detectImageFormat data = "bin").
Proof.
  assert (forall l : bytes,
    (LegacyPixelSocket.detectImageFormat l = "jpg" <-> take 3 l = [xff; xd8; xff]) /\
    (LegacyPixelSocket.detectImageFormat l = "png" <-> take 4 l = [x89; x50; x4e; x47]) /\
    (LegacyPixelSocket.detectImageFormat l = "webp" <-> take 4 l = [x52; x49; x46; x46]) /\
    (LegacyPixelSocket.detectImageFormat l = "gif" <-> take 3 l = [x47; x49; x46]) /\
    (LegacyPixelSocket.detectImageFormat l = "bin"
       <-> take 3 l <> [xff; xd8; xff] /\ take 4 l <> [x89; x50; x4e; x47] /\
           take 4 l <> [x52; x49; x46; x46] /\ take 3 l <> [x47; x49; x46])) as Hchar.
  { intros l. unfold LegacyPixelSocket.detectImageFormat.
    pose proof (magic3 l xff xd8 xff) as J.
    pose proof (magic4 l x89 x50 x4e x47) as P.
    pose proof (magic4 l x52 x49 x46 x46) as W.
    pose proof (magic3 l x47 x49 x46) as G.
    pose proof (take3_of_take4 l x89 x50 x4e x47) as P3.
    pose proof (take3_of_take4 l x52 x49 x46 x46) as W3.
    destruct (byte_is l 0 xff && byte_is l 1 xd8 && byte_is l 2 xff);
      [|destruct (byte_is l 0 x89 && byte_is l 1 x50 && byte_is l 2 x4e && byte_is l 3 x47);
        [|destruct (byte_is l 0 x52 && byte_is l 1 x49 && byte_is l 2 x46
                    && byte_is l 3 x46);
          [|destruct (byte_is l 0 x47 && byte_is l 1 x49 && byte_is l 2 x46)]]].
    all: repeat match goal with
                | H : true = true <-> _ |- _ => apply proj1 in H; specialize (H eq_refl)
                | H : false = true <-> ?Q |- _ =>
                    assert (~ Q)
                      by (let q := fresh in intros q; apply H in q; discriminate q);
                    clear H
                end.
    all: repeat split; intros;
      repeat match goal with
             | H : ?A -> _, H' : ?A |- _ => specialize (H H')
             end;
      try done; try congruence; tauto. }
  split; [|split; [|split; [|split; [|split; [|split]]]]]; try apply Hchar.
  - unfold LegacyPixelSocket.detectImageFormat, byte_is.
    by destruct data as [|a [|b [|c [|d r]]]].
  - intros Hlen. apply Hchar.
    destruct data as [|a [|b [|c r]]]; cbn in *; [done..|lia].
Qed.

(** ** A binary frame in the older class *)

(** X18. The older class takes a binary frame for the image itself: it is
    counted with its actual length, the caller's [onImage] is invoked
    exactly once, with the frame's bytes and a timestamp of that moment,
    before anything is saved and whether or not saving succeeds; with a
    directory configured the frame is written under the current time and
    the extension its first bytes give. Handling the frame never throws. *)
Theorem legacy_binary_frame (data : bytes) (w : world) :
  let s' := set_bytesReceived (bytesReceived (the_stats w) + Z.of_nat (length data))
              (set_imagesReceived (imagesReceived (the_stats w) + 1) (the_stats w)) in
  let metadata :=
    {| meta_timestamp := Some (IsDate (clock (rt w))); meta_format := None;
       meta_mimeType := None;
       meta_filename := None; meta_width := None; meta_height := None |} in
  exists w' msg rest,
    LegacyPixelSocket.handleMessage_binary data w = (Ok tt, w') /\
    the_stats w' = s' /\
    this w' = this w /\
    effects w' = effects w ++ ConsoleLog msg :: OnImage data metadata :: rest /\
    count is_image_callback w' = S (count is_image_callback w) /\
    match truthy (saveDirectory (options (this w))) with
    | None => rest = []
    | Some dir =>
        let path := dir +:+ "/" +:+ pretty (clock (rt w)) +:+ "."
                      +:+ LegacyPixelSocket.detectImageFormat data in
        List.filter is_fs rest =
          if mkdir_throws (faults (rt w)) then [Mkdir dir false]
          else [Mkdir dir true; WriteFile path data (negb (writeFile_throws (faults (rt w))))]
    end.
Proof.
  intros s' metadata.
  destruct (legacy_processImage_spec data None w) as (w' & msg & E & Hst & Hthis & _ & Htr).
  cbv zeta in Htr. cbn [LegacyPixelSocket.fullMetadata meta_format truthy default
                        from_option id mbind option_bind] in Htr.
  unfold LegacyPixelSocket.handleMessage_binary, try_catch. rewrite E.
  set (tail := match truthy (saveDirectory (options (this w))) with
               | Some _ => _ | None => _ end) in Htr.
  exists w', msg, (map fst tail).
  split; [reflexivity|]. split; [exact Hst|]. split; [exact Hthis|].
  assert (effects w' = effects w ++ ConsoleLog msg :: OnImage data metadata :: map fst tail)
    as Heff by (unfold effects; by rewrite Htr, map_app).
  split; [exact Heff|]. split.
  - rewrite (count_effects_app _ _ _ _ Heff). cbn [List.filter is_image_callback length].
    assert (List.filter is_image_callback (map fst tail) = []) as ->; [|cbn; lia].
    subst tail. destruct (truthy _); [|done].
    destruct (mkdir_throws _); [done|]. by destruct (writeFile_throws _).
  - subst tail. destruct (truthy _) as [dir|]; [|done]. cbv zeta.
    destruct (mkdir_throws _); [done|]. by destruct (writeFile_throws _).
Qed.

(** ** The older class stops at the maximum *)

(** X19. In the older class the counter of reconnects never passes
    [maxReconnectAttempts]: a close event raises it by one, and arms one
    reconnect timer, exactly when reconnecting is enabled and the counter is
    below the maximum; otherwise it leaves counter and timers as they
    are. *)
Theorem legacy_attempts_bounded (w : world) (code : Z) (reason : string) :
  reconnectAttempts (the_stats w) <= maxReconnectAttempts (options (this w)) ->
  let n := reconnectAttempts (the_stats w) in
  let retry := shouldReconnect (this w) && autoReconnect (options (this w))
               && (n <? maxReconnectAttempts (options (this w))) in
  exists w',
    LegacyPixelSocket.onclose code reason w = (Ok tt, w') /\
    options (this w') = options (this w) /\
    reconnectAttempts (the_stats w') = (if retry then n + 1 else n) /\
    reconnectAttempts (the_stats w') <= maxReconnectAttempts (options (this w')) /\
    count is_SetTimeout w' = (count is_SetTimeout w + if retry then 1 else 0)%nat /\
    (if retry then True else timers (rt w') = timers (rt w)).
Proof.
  intros Hle n retry.
  destruct (onclose_prefix w code reason)
    as (w1 & msg & Hthis1 & Htm1 & Hn1 & Hst1 & Heff1 & _ & E).
  rewrite E. fold n retry. subst n.
  assert (count is_SetTimeout w1 = count is_SetTimeout w) as Hc1.
  { rewrite (count_effects_app _ _ _ _ Heff1). cbn. lia. }
  destruct retry eqn:Er.
  - destruct (legacy_scheduleReconnect_spec w1) as (w2 & m2 & E2 & Hthis2 & _ & Hst2 & Heff2 & _).
    exists w2. split; [exact E2|]. rewrite Hthis2, Hthis1, Hst2, Hst1. wsimpl.
    split; [done|]. split; [done|].
    apply andb_prop in Er as [_ Er]. apply Z.ltb_lt in Er.
    split; [lia|]. split; [|done].
    rewrite (count_effects_app _ _ _ _ Heff2), Hc1, !List.filter_app, !length_app.
    rewrite (filter_cleared_nil is_SetTimeout ClearTimeout) by done. cbn. lia.
  - exists w1. split; [reflexivity|]. rewrite Hthis1, Hst1, Hc1, Htm1. wsimpl.
    repeat split; try done; lia.
Qed.

Lemma legacy_attempts_bounded_witness :
  reconnectAttempts (the_stats legacy_exhausted)
    <= maxReconnectAttempts (options (this legacy_exhausted)) /\
  exists w',
    LegacyPixelSocket.onclose 1006 "gone" legacy_exhausted = (Ok tt, w') /\
    reconnectAttempts (the_stats w') = 2 /\
    timers (rt w') = timers (rt legacy_exhausted).
Proof.
  assert (reconnectAttempts (the_stats legacy_exhausted)
          <= maxReconnectAttempts (options (this legacy_exhausted))) as H
    by (vm_compute; discriminate).
  split; [exact H|].
  destruct (legacy_attempts_bounded legacy_exhausted 1006 "gone" H)
    as (w' & E & _ & Hn & _ & _ & Ht).
  exists w'. split; [exact E|]. split; [exact Hn|exact Ht].
Defined.


(** ** Base64 texts in the older class *)

Lemma base64ToUint8Array_spec base64 w :
  LegacyPixelSocket.base64ToUint8Array base64 w =
    match (if test_base64 (strip_data_url base64) then atob (strip_data_url base64)
           else Throw (IsError "Invalid base64 string")) with
    | Ok binaryString =>
        (Ok (map Ascii.byte_of_ascii (String.list_ascii_of_string binaryString)), w)
    | Throw error =>
        (Throw (IsError (orError "Failed to decode base64 data" error)),
         snd (emit (ConsoleError "[PixelSocket] Base64 decode error:") w))
    end.
Proof.
  unfold LegacyPixelSocket.base64ToUint8Array, PixelSocket.lift. munfold.
  destruct (test_base64 (strip_data_url base64)); [|reflexivity].
  by destruct (atob (strip_data_url base64)).
Qed.

Lemma test_base64_spec s :
  test_base64 s = true <->
  s <> "" /\ forall c, In c (String.list_ascii_of_string s) -> is_base64_char c = true.
Proof.
  unfold test_base64. destruct s as [|a s]; cbn [String.list_ascii_of_string].
  - split; [done|]. by intros [? _].
  - rewrite forallb_forall. split; [by split|]. by intros [_ ?].
Qed.

(** X20. [base64ToUint8Array] either returns bytes and leaves no trace, or
    writes one line to the console and throws an [Error]; it never returns
    after a failure. A text that is empty once the data-URL prefix is
    removed, or that holds a character outside [A-Za-z0-9+/=], is turned
    down as [Invalid base64 string] without being decoded -- so is every
    text that begins like a JSON object, array or string. *)
Theorem base64_invalid_input (base64 : string) (w : world) :
  let told := snd (emit (ConsoleError "[PixelSocket] Base64 decode error:") w) in
  let text := strip_data_url base64 in
  ((exists data, LegacyPixelSocket.base64ToUint8Array base64 w = (Ok data, w)) \/
   (exists message,
      LegacyPixelSocket.base64ToUint8Array base64 w = (Throw (IsError message), told))) /\
  (text = "" \/
   (exists c, In c (String.list_ascii_of_string text) /\ is_base64_char c = false) ->
   LegacyPixelSocket.base64ToUint8Array base64 w
     = (Throw (IsError "Invalid base64 string"), told)) /\
  (forall c rest, base64 = String c rest -> is_base64_char c = false ->
   LegacyPixelSocket.base64ToUint8Array base64 w
     = (Throw (IsError "Invalid base64 string"), told)).
Proof.
  intros told text. rewrite base64ToUint8Array_spec. fold text told.
  assert (text = "" \/
          (exists c, In c (String.list_ascii_of_string text) /\ is_base64_char c = false) ->
          test_base64 text = false) as Hbad.
  { intros H. destruct (test_base64 text) eqn:E; [|done].
    apply test_base64_spec in E as [Hne Hall].
    destruct H as [->|(c & Hin & Hc)]; [done|]. rewrite (Hall c Hin) in Hc. done. }
  split; [|split].
  - destruct (test_base64 text); [|right; by eexists].
    destruct (atob text); [left|right]; by eexists.
  - intros H. by rewrite (Hbad H).
  - intros c rest -> Hc.
    assert (text = String c rest) as Ht.
    { subst text. unfold strip_data_url. cbn [drop_prefix].
      destruct (Ascii.eqb _ c) eqn:E; [|done].
      apply Ascii.eqb_eq in E. subst c. done. }
    rewrite Hbad; [done|]. right. exists c. rewrite Ht. split; [by left|done].
Qed.

Lemma base64_invalid_input_witness :
  let told := snd (emit (ConsoleError "[PixelSocket] Base64 decode error:") connected) in
  (strip_data_url "data:image/png;base64," = "" \/
   exists c, In c (String.list_ascii_of_string (strip_data_url "data:image/png;base64,"))
             /\ is_base64_char c = false) /\
  LegacyPixelSocket.base64ToUint8Array "data:image/png;base64," connected
    = (Throw (IsError "Invalid base64 string"), told).
Proof.
  intros told.
  assert (strip_data_url "data:image/png;base64," = "" \/
          exists c, In c (String.list_ascii_of_string (strip_data_url "data:image/png;base64,"))
                    /\ is_base64_char c = false) as H by (left; reflexivity).
  split; [exact H|].
  by apply (base64_invalid_input "data:image/png;base64," connected).
Defined.


(** ** Decoding what the standard encoding produces *)

Lemma below_64 (p : N -> bool) :
  forallb p (map N.of_nat (seq 0 64)) = true -> forall n, (n < 64)%N -> p n = true.
Proof.
  intros H n Hn. rewrite forallb_forall in H. apply H, in_map_iff.
  exists (N.to_nat n). split; [apply N2Nat.id|]. apply in_seq. lia.
Qed.

(** A character of the alphabet has its own value, is accepted by the
    test of the older class, and is neither padding nor whitespace. *)
Lemma base64_char_spec n :
  (n < 64)%N ->
  sextet (base64_char n) = Some n /\
  is_base64_char (base64_char n) = true /\
  is_pad (base64_char n) = false /\
  is_ascii_whitespace (base64_char n) = false.
Proof.
  intros Hn.
  pose proof (below_64
    (fun n => match sextet (base64_char n) with Some m => (m =? n)%N | None => false end
              && is_base64_char (base64_char n) && negb (is_pad (base64_char n))
              && negb (is_ascii_whitespace (base64_char n))) eq_refl n Hn) as H.
  cbv beta in H. apply andb_prop in H as [H H4]. apply andb_prop in H as [H H3].
  apply andb_prop in H as [H1 H2].
  destruct (sextet (base64_char n)) as [m|]; [|done]. apply N.eqb_eq in H1. subst m.
  repeat split; [done| |]; by apply negb_true_iff.
Qed.

Lemma pad_spec :
  is_base64_char pad = true /\ is_pad pad = true /\ is_ascii_whitespace pad = false /\
  sextet pad = None.
Proof. by repeat split. Qed.

Lemma ascii_of_byte_to_N x : Ascii.ascii_of_N (Byte.to_N x) = Ascii.ascii_of_byte x.
Proof. by destruct x. Qed.

Lemma strip_padding_body body pads :
  forallb (fun c => negb (is_pad c)) body = true ->
  pads = [] \/ pads = [pad] \/ pads = [pad; pad] ->
  strip_padding (body ++ pads) = body.
Proof.
  intros Hb Hp. unfold strip_padding. rewrite rev_app_distr.
  assert (forall a r, rev body = a :: r -> is_pad a = false) as Hhead.
  { intros a r E. rewrite forallb_forall in Hb. apply negb_true_iff, Hb.
    apply in_rev. rewrite E. by left. }
  assert (rev body = [] -> body = []) as Hnil.
  { intros E. apply (f_equal (@rev _)) in E. by rewrite rev_involutive in E. }
  destruct Hp as [->|[->| ->]]; cbn [rev app]; rewrite ?app_nil_r.
  - destruct (rev body) as [|a [|b r]]; [done|..]; by rewrite (Hhead _ _ eq_refl).
  - destruct pad_spec as (_ & -> & _).
    destruct (rev body) as [|b r] eqn:E; [by rewrite (Hnil eq_refl)|].
    rewrite (Hhead _ _ eq_refl).
    apply (f_equal (@rev _)) in E. rewrite rev_involutive in E. symmetry. exact E.
  - destruct pad_spec as (_ & -> & _). cbn [app]. by rewrite rev_involutive.
Qed.

Lemma mod4_step n : (S (S (S (S n))) mod 4 = n mod 4)%nat.
Proof.
  change (S (S (S (S n)))) with (4 + n)%nat. rewrite Nat.add_comm.
  exact (Nat.Div0.mod_add n 1 4).
Qed.

Lemma list_ind3 {A} (P : list A -> Prop) :
  P [] -> (forall x, P [x]) -> (forall x y, P [x; y]) ->
  (forall x y z r, P r -> P (x :: y :: z :: r)) -> forall l, P l.
Proof.
  intros H0 H1 H2 H3 l.
  assert (P l /\ (forall x, P (x :: l)) /\ (forall x y, P (x :: y :: l))) as [H _].
  { induction l as [|a l (IH0 & IH1 & IH2)]; [by repeat split|].
    split; [apply IH1|]. split; [intros x; apply IH2|]. intros x y. by apply H3. }
  exact H.
Qed.

Ltac bytes_lia :=
  repeat match goal with
         | x : byte |- _ =>
             lazymatch goal with
             | H : (Byte.to_N x <= 255)%N |- _ => fail
             | _ => pose proof (Byte.to_N_bounded x)
             end
         end;
  zify; Z.to_euclidean_division_equations; lia.


Lemma plain_char n : (n < 64)%N -> plain (base64_char n) n.
Proof. apply base64_char_spec. Qed.

Lemma octet_of_byte x n : n = Byte.to_N x -> Ascii.ascii_of_N n = Ascii.ascii_of_byte x.
Proof. intros ->. apply ascii_of_byte_to_N. Qed.

(** The encoding is a run of characters of the alphabet that decode to
    the data, followed by no, one or two padding characters. *)
Lemma base64_encode_shape data :
  exists body pads values,
    base64_encode data = body ++ pads /\
    (pads = [] \/ pads = [pad] \/ pads = [pad; pad]) /\
    (length (body ++ pads) mod 4 = 0)%nat /\
    (length body mod 4 <> 1)%nat /\
    Forall2 plain body values /\
    octets values = map Ascii.ascii_of_byte data.
Proof.
  induction data as [|x|x y|x y z r (body & pads & values & E & Hp & Hl & Hb & Hv & Ho)]
    using list_ind3.
  - exists [], [], []. repeat split; try done. by left.
  - eexists [_; _], [pad; pad], [_; _]. cbn [base64_encode app].
    split; [reflexivity|]. split; [by right; right|]. split; [reflexivity|]. split; [done|].
    split; [repeat constructor; apply plain_char; bytes_lia|].
    cbn [octets map]. f_equal. apply octet_of_byte. bytes_lia.
  - eexists [_; _; _], [pad], [_; _; _]. cbn [base64_encode app].
    split; [reflexivity|]. split; [by right; left|]. split; [reflexivity|]. split; [done|].
    split; [repeat constructor; apply plain_char; bytes_lia|].
    cbn [octets map]. repeat f_equal; apply octet_of_byte; bytes_lia.
  - eexists (_ :: _ :: _ :: _ :: body), pads, (_ :: _ :: _ :: _ :: values).
    cbn [base64_encode app]. rewrite E.
    split; [reflexivity|]. split; [exact Hp|].
    split; [cbn [length] in *; by rewrite mod4_step|].
    split; [cbn [length]; by rewrite mod4_step|].
    split; [repeat (constructor; [apply plain_char; bytes_lia|]); exact Hv|].
    cbn [octets map]. rewrite Ho. repeat f_equal; apply octet_of_byte; bytes_lia.
Qed.

Lemma plain_values body values :
  Forall2 plain body values ->
  mapM sextet body = Some values /\
  forallb is_base64_char body = true /\
  forallb (fun c => negb (is_pad c)) body = true /\
  forallb (fun c => negb (is_ascii_whitespace c)) body = true.
Proof.
  intros H. split; [apply mapM_Some_2; eapply Forall2_impl; [exact H|by intros ? ? [? _]]|].
  induction H as [|c n body values (_ & H1 & H2 & H3) _ (IH1 & IH2 & IH3)]; [done|].
  cbn [forallb]. by rewrite H1, H2, H3, IH1, IH2, IH3.
Qed.

Lemma pads_spec pads :
  pads = [] \/ pads = [pad] \/ pads = [pad; pad] ->
  forallb is_base64_char pads = true /\
  forallb (fun c => negb (is_ascii_whitespace c)) pads = true.
Proof. by intros [->|[->| ->]]. Qed.

(** [atob] undoes the encoding. *)
Lemma atob_encode data :
  atob (String.string_of_list_ascii (base64_encode data))
    = Ok (String.string_of_list_ascii (map Ascii.ascii_of_byte data)).
Proof.
  destruct (base64_encode_shape data) as (body & pads & values & E & Hp & Hl & Hb & Hv & Ho).
  destruct (plain_values _ _ Hv) as (Hm & _ & Hnp & Hnw).
  destruct (pads_spec _ Hp) as (_ & Hpw).
  unfold atob. rewrite String.list_ascii_of_string_of_list_ascii, E.
  rewrite forallb_filter_id by (by rewrite forallb_app, Hnw, Hpw).
  rewrite Hl. cbn [Nat.eqb]. rewrite (strip_padding_body _ _ Hnp Hp).
  destruct (Nat.eqb_spec (length body mod 4) 1) as [?|_]; [done|].
  by rewrite Hm, Ho.
Qed.

Lemma test_base64_encode data :
  data <> [] -> test_base64 (String.string_of_list_ascii (base64_encode data)) = true.
Proof.
  intros Hne.
  destruct (base64_encode_shape data) as (body & pads & values & E & Hp & _ & _ & Hv & _).
  destruct (plain_values _ _ Hv) as (_ & Hb & _).
  destruct (pads_spec _ Hp) as (Hpb & _).
  unfold test_base64. rewrite String.list_ascii_of_string_of_list_ascii.
  assert (forallb is_base64_char (base64_encode data) = true) as Hall
    by (by rewrite E, forallb_app, Hb, Hpb).
  destruct (base64_encode data) as [|c l] eqn:Ee; [|exact Hall].
  by destruct data as [|x [|y [|z r]]].
Qed.

Lemma append_cons a s t : String a s +:+ t = String a (s +:+ t).
Proof. reflexivity. Qed.

Lemma drop_prefix_app p s : drop_prefix p (p +:+ s) = Some s.
Proof.
  induction p as [|a p IH]; [done|].
  rewrite append_cons. cbn [drop_prefix]. by rewrite Ascii.eqb_refl.
Qed.

Lemma drop_prefix_Some p s r : drop_prefix p s = Some r -> s = p +:+ r.
Proof.
  revert s. induction p as [|a p IH]; intros s; [by intros [= ->]|].
  destruct s as [|b s]; [done|]. cbn [drop_prefix].
  destruct (Ascii.eqb_spec a b) as [->|]; [|done].
  intros H. by rewrite append_cons, <- (IH _ H).
Qed.

(** A text of the alphabet has no data-URL prefix to lose. *)
Lemma strip_data_url_plain s :
  forallb is_base64_char (String.list_ascii_of_string s) = true -> strip_data_url s = s.
Proof.
  intros H. unfold strip_data_url.
  destruct (drop_prefix "data:image/" s) as [r|] eqn:E; [|done].
  apply drop_prefix_Some in E. subst s. done.
Qed.

Lemma skip_word_app fmt t :
  forallb is_word (String.list_ascii_of_string fmt) = true ->
  skip is_word (fmt +:+ ";" +:+ t) = ";" +:+ t.
Proof.
  induction fmt as [|a fmt IH]; [done|].
  cbn [String.list_ascii_of_string forallb]. intros [Ha H]%andb_prop.
  rewrite append_cons. cbn [skip]. rewrite Ha. by apply IH.
Qed.

(** The data-URL prefix of any image type is removed. *)
Lemma strip_data_url_prefix fmt text :
  fmt <> "" -> forallb is_word (String.list_ascii_of_string fmt) = true ->
  strip_data_url ("data:image/" +:+ fmt +:+ ";base64," +:+ text) = text.
Proof.
  intros Hne Hw. unfold strip_data_url. rewrite drop_prefix_app.
  destruct fmt as [|c fmt]; [done|]. rewrite append_cons.
  cbn [String.list_ascii_of_string forallb] in Hw. apply andb_prop in Hw as [-> Hw].
  change (";base64," +:+ text) with (";" +:+ "base64," +:+ text).
  rewrite (skip_word_app _ _ Hw).
  change (";" +:+ "base64," +:+ text) with (";base64," +:+ text).
  by rewrite drop_prefix_app.
Qed.

(** X21. [base64ToUint8Array] decodes the standard base64 encoding of
    every non-empty sequence of bytes to that sequence, with no padding,
    one or two padding characters alike, and leaves no trace; the same text
    behind a data-URL prefix [data:image/<type>;base64,] of any type made
    of letters, digits and underscores decodes to the same bytes. *)
Theorem base64_round_trip (data : bytes) (fmt : string) (w : world) :
  data <> [] ->
  fmt <> "" ->
  forallb is_word (String.list_ascii_of_string fmt) = true ->
  let text := String.string_of_list_ascii (base64_encode data) in
  LegacyPixelSocket.base64ToUint8Array text w = (Ok data, w) /\
  LegacyPixelSocket.base64ToUint8Array ("data:image/" +:+ fmt +:+ ";base64," +:+ text) w
    = (Ok data, w).
Proof.
  intros Hd Hf Hw text.
  pose proof (test_base64_encode data Hd) as Ht. fold text in Ht.
  assert (strip_data_url text = text) as Hs.
  { apply strip_data_url_plain. unfold test_base64 in Ht.
    destruct (String.list_ascii_of_string text); [done|exact Ht]. }
  rewrite !base64ToUint8Array_spec, (strip_data_url_prefix _ _ Hf Hw), Hs, Ht.
  subst text. rewrite atob_encode, String.list_ascii_of_string_of_list_ascii, map_map.
  rewrite (map_ext _ id) by apply Ascii.byte_of_ascii_of_byte. by rewrite map_id.
Qed.

Lemma base64_round_trip_witness :
  sample_image <> [] /\
  "png" <> "" /\
  forallb is_word (String.list_ascii_of_string "png") = true /\
  String.string_of_list_ascii (base64_encode sample_image) = "iVBORw==" /\
  LegacyPixelSocket.base64ToUint8Array "data:image/png;base64,iVBORw==" connected
    = (Ok sample_image, connected).
Proof.
  assert (sample_image <> []) as H1 by discriminate.
  assert ("png" <> "") as H2 by discriminate.
  assert (forallb is_word (String.list_ascii_of_string "png") = true) as H3 by reflexivity.
  split; [exact H1|]. split; [exact H2|]. split; [exact H3|]. split; [reflexivity|].
  exact (proj2 (base64_round_trip sample_image "png" connected H1 H2 H3)).
Defined.
